(** * Remote file access layer of waveterm (pkg/wshrpc/wshremote, pkg/util/iochan)

    A shallow embedding of the byte-range parser, the file and directory
    streamers, the recursive lister, the archive copy destination, the
    path joiner and the two channel adapters, together with the properties
    of these functions that the specification of the layer states; and of
    the stream command with its base64 responses and the commands that
    touch, make, write and delete, with further properties of the layer
    read off the code. *)

From Stdlib Require Import ZArith Lia Bool Ascii String List.
From stdpp Require Import base strings list gmap.
From coqutil Require Import Z.bitblast.

Set Warnings "-register-all".

Open Scope string_scope.
Open Scope list_scope.
Open Scope Z_scope.

(** ** Errors, as Go's [error] values *)

(** [nil] is [None]; a non-nil error carries its message. *)
Definition error := option string.

Definition int64_max : Z := 2 ^ 63 - 1.
Definition int64_min : Z := - 2 ^ 63.

(** ** fmt.Sscanf(str, "%d-%d", &start, &end)

    Go's scanner (fmt/scan.go), restricted to the one format string that
    [parseByteRange] uses.  The input is the byte sequence of the Go
    string; the only multi-byte runes that matter to the scanner are the
    Unicode spaces, recognised here by their UTF-8 encodings. *)
Module Sscanf.

Definition byte_of (c : ascii) : N := N_of_ascii c.

Definition isDigit (c : ascii) : bool :=
  (48 <=? byte_of c)%N && (byte_of c <=? 57)%N.

Definition digitVal (c : ascii) : Z := Z.of_N (byte_of c) - 48.

Definition isNewline (c : ascii) : bool := (byte_of c =? 10)%N.

(** Number of bytes of the space rune that [s] starts with, 0 when it
    does not start with one (fmt's [isSpace] table: U+0009..U+000D,
    U+0020, U+0085, U+00A0, U+1680, U+2000..U+200A, U+2028, U+2029,
    U+202F, U+205F, U+3000).  The newline is in the table but handled
    by [SkipSpace] before the table is consulted. *)
Definition spaceLen (s : string) : nat :=
  match s with
  | String a r =>
      let x := byte_of a in
      if ((9 <=? x) && (x <=? 13) || (x =? 32))%N then 1%nat
      else match r with
      | String b r' =>
          let y := byte_of b in
          if ((x =? 194) && ((y =? 133) || (y =? 160)))%N then 2%nat
          else match r' with
          | String c _ =>
              let z := byte_of c in
              if ((x =? 225) && (y =? 154) && (z =? 128))%N then 3%nat
              else if ((x =? 226) && (y =? 128) &&
                       ((128 <=? z) && (z <=? 138) || (z =? 168) ||
                        (z =? 169) || (z =? 175)))%N then 3%nat
              else if ((x =? 226) && (y =? 129) && (z =? 159))%N then 3%nat
              else if ((x =? 227) && (y =? 128) && (z =? 128))%N then 3%nat
              else 0%nat
          | EmptyString => 0%nat
          end
      | EmptyString => 0%nat
      end
  | EmptyString => 0%nat
  end.

Fixpoint dropBytes (n : nat) (s : string) : string :=
  match n, s with
  | S n', String _ r => dropBytes n' r
  | _, _ => s
  end.

(** [SkipSpace] with [nlIsSpace = false]: spaces are discarded, a
    newline is an error ("unexpected newline"), also after a carriage
    return. *)
Fixpoint SkipSpace_fuel (fuel : nat) (s : string) : option string :=
  match fuel with
  | O => Some s
  | S fuel' =>
      match s with
      | EmptyString => Some s
      | String a r =>
          if isNewline a then None
          else match spaceLen s with
               | O => Some s
               | n => SkipSpace_fuel fuel' (dropBytes n s)
               end
      end
  end.

Definition SkipSpace (s : string) : option string :=
  SkipSpace_fuel (S (String.length s)) s.

(** [accept(sign)]: consume one optional [+] or [-]. *)
Definition acceptSign (s : string) : bool * string :=
  match s with
  | String "-" r => (true, r)
  | String "+" r => (false, r)
  | _ => (false, s)
  end.

(** [scanNumber]: the longest prefix of decimal digits. *)
Fixpoint scanNumber (s : string) : string * string :=
  match s with
  | String c r =>
      if isDigit c then
        let '(tok, rest) := scanNumber r in (String c tok, rest)
      else (EmptyString, s)
  | EmptyString => (EmptyString, EmptyString)
  end.

(** The magnitude of a digit token, as strconv.ParseUint accumulates it. *)
Fixpoint digitsValue (acc : Z) (tok : string) : Z :=
  match tok with
  | String c r => digitsValue (10 * acc + digitVal c) r
  | EmptyString => acc
  end.

(** strconv.ParseInt(tok, 10, 64) on an optional sign and a non-empty
    digit token: a value outside int64 is a range error. *)
Definition ParseInt (neg : bool) (tok : string) : option Z :=
  let v := digitsValue 0 tok in
  let i := if neg then - v else v in
  if (int64_min <=? i) && (i <=? int64_max) then Some i else None.

(** [scanInt('d', 64)] preceded by the [SkipSpace] of [doScanf]. *)
Definition scanInt (s : string) : option (Z * string) :=
  match SkipSpace s with
  | None => None
  | Some s1 =>
      match s1 with
      | EmptyString => None                       (* notEOF *)
      | _ =>
          let '(neg, s2) := acceptSign s1 in
          let '(tok, s3) := scanNumber s2 in
          match tok with
          | EmptyString => None                   (* expected integer *)
          | _ => match ParseInt neg tok with
                 | Some i => Some (i, s3)
                 | None => None
                 end
          end
      end
  end.

(** The literal [-] of the format must be the next input byte. *)
Definition literalDash (s : string) : option string :=
  match s with
  | String "-" r => Some r
  | _ => None
  end.

(** The whole call: the two operands on success.  Input left over after
    the second operand is not looked at. *)
Definition Sscanf_d_dash_d (s : string) : option (Z * Z) :=
  match scanInt s with
  | None => None
  | Some (a, s1) =>
      match literalDash s1 with
      | None => None
      | Some s2 =>
          match scanInt s2 with
          | None => None
          | Some (b, _) => Some (a, b)
          end
      end
  end.

End Sscanf.

(** ** ByteRangeType and parseByteRange *)

Record ByteRangeType := mkByteRange {
  All : bool;
  Start : Z;
  End_ : Z
}.

Definition ErrInvalidByteRange : string := "invalid byte range".

Definition parseByteRange (rangeStr : string) : ByteRangeType + string :=
  if String.eqb rangeStr "" then inl (mkByteRange true 0 0)
  else
    match Sscanf.Sscanf_d_dash_d rangeStr with
    | None => inr ErrInvalidByteRange
    | Some (start, end_) =>
        if (start <? 0) || (end_ <? 0) || (start >? end_)
        then inr ErrInvalidByteRange
        else inl (mkByteRange false start end_)
    end.

(** Decimal rendering of a non-negative integer, most significant digit
    first, without leading zeros. *)
Definition digitChar (d : Z) : ascii := ascii_of_N (Z.to_N (48 + d)).

Fixpoint itoa_aux (fuel : nat) (n : Z) (acc : string) : string :=
  match fuel with
  | O => acc
  | S fuel' =>
      let acc' := String (digitChar (n mod 10)) acc in
      if n <? 10 then acc' else itoa_aux fuel' (n / 10) acc'
  end.

Definition itoa (n : Z) : string := itoa_aux (S (Z.to_nat (Z.log2 n))) n "".

(** The string of the decimal digits [ds]. *)
Fixpoint digitString (ds : list Z) : string :=
  match ds with
  | [] => ""
  | d :: r => String (digitChar d) (digitString r)
  end.

(** A string is exactly of the form <start>-<end>: a non-empty run of
    decimal digits, a dash, a non-empty run of decimal digits, nothing
    else. *)
Definition exactRangeForm (s : string) : bool :=
  let '(a, r) := Sscanf.scanNumber s in
  match a, r with
  | String _ _, String "-" r' =>
      let '(b, t) := Sscanf.scanNumber r' in
      match b, t with
      | String _ _, EmptyString => true
      | _, _ => false
      end
  | _, _ => false
  end.

(** ** path/filepath on Unix, as far as the layer uses it *)
Module filepath.

(** The elements of [s] between its slashes. *)
Fixpoint splitSlash (cur : string) (s : string) : list string :=
  match s with
  | EmptyString => [String.rev cur]
  | String c r =>
      if Ascii.eqb c "/" then String.rev cur :: splitSlash "" r
      else splitSlash (String c cur) r
  end.

Fixpoint joinSlash (l : list string) : string :=
  match l with
  | [] => ""
  | [x] => x
  | x :: r => x +:+ "/" +:+ joinSlash r
  end.

Definition IsAbs (p : string) : bool :=
  match p with
  | String "/" _ => true
  | _ => false
  end.

(** One step of [Clean] over the elements, [stack] holding the kept
    elements innermost first. *)
Definition cleanStep (rooted : bool) (stack : list string) (c : string)
  : list string :=
  if String.eqb c "" || String.eqb c "." then stack
  else if String.eqb c ".." then
    match stack with
    | top :: rest =>
        if String.eqb top ".." then c :: stack else rest
    | [] => if rooted then [] else [c]
    end
  else c :: stack.

Definition Clean (p : string) : string :=
  let rooted := IsAbs p in
  let kept := rev (fold_left (cleanStep rooted) (splitSlash "" p) []) in
  if rooted then "/" +:+ joinSlash kept
  else match kept with
       | [] => "."
       | _ => joinSlash kept
       end.

(** [Join(a, b)]: empty elements before the first non-empty one are
    dropped, the rest is joined with slashes and cleaned. *)
Definition Join (a b : string) : string :=
  if String.eqb a "" then
    (if String.eqb b "" then "" else Clean b)
  else Clean (a +:+ "/" +:+ b).

(** The prefix of [s] up to and including its last slash. *)
Fixpoint uptoLastSlash (s : string) : string :=
  match s with
  | EmptyString => ""
  | String c r =>
      let t := uptoLastSlash r in
      if Ascii.eqb c "/" then String c t
      else match t with
           | EmptyString => ""
           | _ => String c t
           end
  end.

Definition Dir (p : string) : string := Clean (uptoLastSlash p).

End filepath.

(** ** wavebase: the home-directory shorthand *)
Section Wavebase.

Variable homeDir : string.

(** Modelled from the spec: wavebase.ExpandHomeDirSafe is not part of
    the sources at hand.  A leading home-directory shorthand ([~] alone
    or [~/...]) is expanded against the home directory; every other
    path is returned as it is. *)
Definition ExpandHomeDirSafe (p : string) : string :=
  match p with
  | String "~" EmptyString => homeDir
  | String "~" (String "/" rest) => filepath.Join homeDir rest
  | _ => p
  end.

(** *** resolvePaths *)
Fixpoint resolvePaths_loop (rtnPath : string) (paths : list string) : string :=
  match paths with
  | [] => rtnPath
  | path :: rest =>
      let path := ExpandHomeDirSafe path in
      if filepath.IsAbs path then resolvePaths_loop path rest
      else resolvePaths_loop (filepath.Join rtnPath path) rest
  end.

Definition resolvePaths (paths : list string) : string :=
  match paths with
  | [] => ExpandHomeDirSafe "~"
  | p0 :: rest => resolvePaths_loop (ExpandHomeDirSafe p0) rest
  end.

End Wavebase.

(** ** Contexts

    What a sequential function observes of a [context.Context]: the
    number of polls of [ctx.Err()] that still answer nil.  [None] is a
    context that is never cancelled. *)
Definition Ctx := option nat.

Definition ctxErr (ctx : Ctx) (poll : nat) : error :=
  match ctx with
  | Some k => if (k <=? poll)%nat then Some "context canceled" else None
  | None => None
  end.

(** ** File metadata *)

(** fs.FileInfo as the operating system reports it. *)
Record fsFileInfo := mkFsFileInfo {
  fiName : string;
  fiSize : Z;
  fiMode : Z;
  fiModTime : Z;
  fiIsDir : bool
}.

(** os.DirEntry: [Info()] may fail for an entry that vanished since the
    directory was read. *)
Record DirEntry := mkDirEntry {
  deName : string;
  deIsDir : bool;
  deInfo : fsFileInfo + string
}.

(** wshrpc.FileInfo *)
Record FileInfo := mkFileInfo {
  Path : string;
  Dir : string;
  Name : string;
  Size : Z;
  Mode : Z;
  ModeStr : string;
  ModTime : Z;
  IsDir : bool;
  MimeType : string;
  NotFound : bool;
  ReadOnly : bool;
  SupportsMkdir : bool
}.

Definition setNameSize (fi : FileInfo) (name : string) (size : Z) : FileInfo :=
  mkFileInfo (Path fi) (Dir fi) name size (Mode fi) (ModeStr fi) (ModTime fi)
             (IsDir fi) (MimeType fi) (NotFound fi) (ReadOnly fi)
             (SupportsMkdir fi).

Definition setReadOnly (fi : FileInfo) (ro : bool) : FileInfo :=
  mkFileInfo (Path fi) (Dir fi) (Name fi) (Size fi) (Mode fi) (ModeStr fi)
             (ModTime fi) (IsDir fi) (MimeType fi) (NotFound fi) ro
             (SupportsMkdir fi).

Inductive StatResult :=
| StatOk (fi : fsFileInfo)
| StatNotExist (msg : string)
| StatError (msg : string).

Definition trimSlashSuffix (s : string) : string :=
  match String.rev s with
  | String "/" r => String.rev r
  | _ => s
  end.

(** A directory tree, as fs.WalkDir walks it

    A node of the tree under the listed path: a non-directory entry, or
    a directory with the outcome of reading it (an error, and the
    entries read all the same) and its children in the order in which
    [ReadDir] returns them. *)
Inductive FsNode :=
| NFile (name : string) (info : fsFileInfo + string)
| NDir (name : string) (info : fsFileInfo + string)
       (readErr : option string) (children : list FsNode).

Definition entryOf (n : FsNode) : DirEntry :=
  match n with
  | NFile name info => mkDirEntry name false info
  | NDir name info _ _ => mkDirEntry name true info
  end.

Inductive WalkErr :=
| WalkEOF                       (* io.EOF, returned by the callback *)
| WalkOSErr (msg : string).

(** The state the callback of [RemoteListEntriesCommand] closes over. *)
Record WalkState := mkWalkState {
  seen : Z;
  innerFilesEntries : list DirEntry
}.

Definition wrap64 (z : Z) : Z := (z + 2 ^ 63) mod 2 ^ 64 - 2 ^ 63.

(** The environment of the reading operations: the limits of package
    wshrpc (tunable constants of the layer), the home directory and the
    helpers of packages wavebase, fileutil and utilfn, and the file system
    as the operations see it. *)
Record Env := mkEnv {
  MaxDirSize : Z;
  DirChunkSize : Z;
  HomeDir : string;
  ReplaceHomeDir : string -> string;
  DetectMimeType : string -> fsFileInfo -> bool -> string;
  ModeString : Z -> string;                       (* fs.FileMode.String *)
  os_Stat : string -> StatResult;
  os_ReadDir : string -> list DirEntry + string;
  RandomHexString : Z -> option string;
  os_CreateOk : string -> bool;                   (* probe: create a file *)
  os_OpenAppendOk : string -> bool;               (* probe: open for appending *)
  ExpandHomeDir : string -> string + string;
  os_DirFS : string -> FsNode + string            (* the tree under a path *)
}.

(** ** Reading: stat, directory streaming, recursive listing *)
Section Reading.

Variable env : Env.

Definition computeDirPart (path : string) (isDir : bool) : string :=
  let path := filepath.Clean (ExpandHomeDirSafe (HomeDir env) path) in
  if String.eqb path "/" then "/"
  else
    let path := trimSlashSuffix path in
    if isDir then path else filepath.Dir path.

Definition statToFileInfo (fullPath : string) (finfo : fsFileInfo)
           (extended : bool) : FileInfo :=
  let mimeType := DetectMimeType env fullPath finfo extended in
  {| Path := ReplaceHomeDir env fullPath;
     Dir := computeDirPart fullPath (fiIsDir finfo);
     Name := fiName finfo;
     Size := if fiIsDir finfo then -1 else fiSize finfo;
     Mode := fiMode finfo;
     ModeStr := ModeString env (fiMode finfo);
     ModTime := fiModTime finfo;
     IsDir := fiIsDir finfo;
     MimeType := mimeType;
     NotFound := false;
     ReadOnly := false;
     SupportsMkdir := true |}.

Definition checkIsReadOnly (path : string) (fileInfo : option fsFileInfo)
           (exists_ : bool) : bool :=
  if negb exists_ || match fileInfo with
                     | Some fi => fiIsDir fi
                     | None => false
                     end
  then
    let dirName := filepath.Dir path in
    match RandomHexString env 12 with
    | None => false
    | Some randHexStr =>
        let tmpFileName := filepath.Join dirName ("wsh-tmp-" +:+ randHexStr) in
        negb (os_CreateOk env tmpFileName)
    end
  else negb (os_OpenAppendOk env path).

Definition fileInfoInternal (path : string) (extended : bool)
  : FileInfo + string :=
  let cleanedPath := filepath.Clean (ExpandHomeDirSafe (HomeDir env) path) in
  match os_Stat env cleanedPath with
  | StatNotExist _ =>
      inl {| Path := ReplaceHomeDir env path;
             Dir := computeDirPart path false;
             Name := ""; Size := 0; Mode := 0; ModeStr := ""; ModTime := 0;
             IsDir := false; MimeType := "";
             NotFound := true;
             ReadOnly := checkIsReadOnly cleanedPath None false;
             SupportsMkdir := true |}
  | StatError msg => inr ("cannot stat file: " +:+ msg)
  | StatOk finfo =>
      let rtn := statToFileInfo cleanedPath finfo extended in
      inl (if extended
           then setReadOnly rtn (checkIsReadOnly cleanedPath (Some finfo) true)
           else rtn)
  end.

(** The batching loop shared by the directory streamer and the lister:
    [fileInfoArr] is the batch being filled, [sent] the batches already
    handed to the callback, [poll] the number of context polls made. *)
Fixpoint streamEntries (ctx : Ctx) (path : string) (poll : nat)
         (entries : list DirEntry) (fileInfoArr : list FileInfo)
         (sent : list (list FileInfo))
  : list (list FileInfo) * list FileInfo * error :=
  match entries with
  | [] => (sent, fileInfoArr, None)
  | innerFileEntry :: rest =>
      match ctxErr ctx poll with
      | Some e => (sent, fileInfoArr, Some e)
      | None =>
          match deInfo innerFileEntry with
          | inr _ => streamEntries ctx path (S poll) rest fileInfoArr sent
          | inl innerFileInfoInt =>
              let innerFileInfo :=
                statToFileInfo
                  (filepath.Join path (fiName innerFileInfoInt))
                  innerFileInfoInt false in
              let fileInfoArr := fileInfoArr ++ [innerFileInfo] in
              if Z.of_nat (length fileInfoArr) >=? DirChunkSize env
              then streamEntries ctx path (S poll) rest [] (sent ++ [fileInfoArr])
              else streamEntries ctx path (S poll) rest fileInfoArr sent
          end
      end
  end.

Definition flushEntries (r : list (list FileInfo) * list FileInfo * error)
  : list (list FileInfo) * error :=
  match r with
  | (sent, _, Some e) => (sent, Some e)
  | (sent, fileInfoArr, None) =>
      (if (0 <? Z.of_nat (length fileInfoArr)) then sent ++ [fileInfoArr]
       else sent, None)
  end.

(** *** remoteStreamFileDir

    The result is the sequence of batches passed to [dataCallback] and
    the returned error.  The slice expression [entries[Start:realEnd]]
    is rendered with [take] and [drop], which agree with Go whenever
    [0 <= Start <= realEnd], as every parsed byte range guarantees. *)
Definition remoteStreamFileDir (ctx : Ctx) (path : string)
           (byteRange : ByteRangeType) : list (list FileInfo) * error :=
  match os_ReadDir env path with
  | inr msg => ([], Some ("cannot open dir: " +:+ msg))
  | inl innerFilesEntries =>
      let n := Z.of_nat (length innerFilesEntries) in
      let sliced : option (list DirEntry) :=
        if All byteRange then
          Some (if n >? MaxDirSize env
                then take (Z.to_nat (MaxDirSize env)) innerFilesEntries
                else innerFilesEntries)
        else if Start byteRange >=? n then None
        else
          let realEnd := if End_ byteRange >? n then n else End_ byteRange in
          Some (take (Z.to_nat realEnd - Z.to_nat (Start byteRange))
                     (drop (Z.to_nat (Start byteRange)) innerFilesEntries))
      in
      match sliced with
      | None => ([], None)
      | Some innerFilesEntries =>
          let parent := filepath.Dir path in
          let fileInfoArr :=
            match fileInfoInternal parent false with
            | inl parentFileInfo =>
                if negb (String.eqb parent path)
                then [setNameSize parentFileInfo ".." (-1)]
                else []
            | inr _ => []
            end in
          flushEntries (streamEntries ctx path 0 innerFilesEntries fileInfoArr [])
      end
  end.

(** *** fs.WalkDir, and the callback of the lister *)

(** The callback; the deferred [seen++] runs on every return. *)
Definition listCallback (Offset Limit : Z) (st : WalkState)
           (d : option DirEntry) (err : option WalkErr)
  : WalkState * option WalkErr :=
  let bump entries := mkWalkState (seen st + 1) entries in
  if seen st <? Offset then (bump (innerFilesEntries st), None)
  else if seen st >=? wrap64 (Offset + Limit)
  then (bump (innerFilesEntries st), Some WalkEOF)
  else match err with
       | Some e => (bump (innerFilesEntries st), Some e)
       | None =>
           match d with
           | Some d =>
               if deIsDir d then (bump (innerFilesEntries st), None)
               else (bump (innerFilesEntries st ++ [d]), None)
           | None => (bump (innerFilesEntries st), None)
           end
       end.

Section Walk.
Variable fn : WalkState -> option DirEntry -> option WalkErr
              -> WalkState * option WalkErr.

(** [walkDir] of io/fs.  The callback of the lister never returns
    [SkipDir], so the branches for it are left out. *)
Fixpoint walkDir (n : FsNode) (st : WalkState) {struct n}
  : WalkState * option WalkErr :=
  match n with
  | NFile _ _ => fn st (Some (entryOf n)) None
  | NDir _ _ readErr children =>
      let walkChildren :=
        fix go (l : list FsNode) (st : WalkState) {struct l}
          : WalkState * option WalkErr :=
          match l with
          | [] => (st, None)
          | c :: r =>
              match walkDir c st with
              | (st', Some e) => (st', Some e)
              | (st', None) => go r st'
              end
          end in
      match fn st (Some (entryOf n)) None with
      | (st1, Some e) => (st1, Some e)
      | (st1, None) =>
          match readErr with
          | Some msg =>
              match fn st1 (Some (entryOf n)) (Some (WalkOSErr msg)) with
              | (st2, Some e) => (st2, Some e)
              | (st2, None) => walkChildren children st2
              end
          | None => walkChildren children st1
          end
      end
  end.

(** [WalkDir]: the root may fail to stat. *)
Definition WalkDir (root : FsNode + string) (st : WalkState)
  : WalkState * option WalkErr :=
  match root with
  | inr msg => fn st None (Some (WalkOSErr msg))
  | inl n => walkDir n st
  end.
End Walk.

Record FileListOpts := mkFileListOpts {
  optAll : bool;
  optOffset : Z;
  optLimit : Z
}.

(** The entries the lister gathers before it converts and sends them. *)
Definition listGather (path : string) (opts : FileListOpts)
  : list DirEntry + string :=
  let Limit := if optLimit opts =? 0 then MaxDirSize env else optLimit opts in
  if optAll opts then
    inl (innerFilesEntries
           (fst (WalkDir (listCallback (optOffset opts) Limit)
                         (os_DirFS env path) (mkWalkState 0 []))))
  else
    match os_ReadDir env path with
    | inr msg => inr ("cannot open dir: " +:+ msg)
    | inl entries => inl entries
    end.

(** *** RemoteListEntriesCommand

    The responses sent on the channel, each a batch of entries, and the
    error response that ends them, if any. *)
Definition RemoteListEntriesCommand (ctx : Ctx) (dataPath : string)
           (opts : FileListOpts) : list (list FileInfo) * error :=
  match ExpandHomeDir env dataPath with
  | inr e => ([], Some e)
  | inl path =>
      match listGather path opts with
      | inr e => ([], Some e)
      | inl entries => flushEntries (streamEntries ctx path 0 entries [] [])
      end
  end.

(** *** Vocabulary for the properties of the listings *)

(** The metadata of the entries whose [Info()] succeeds, in order. *)
Definition childInfos (path : string) (entries : list DirEntry)
  : list FileInfo :=
  omap (fun e => match deInfo e with
                 | inl fi =>
                     Some (statToFileInfo (filepath.Join path (fiName fi)) fi false)
                 | inr _ => None
                 end) entries.

(** The nodes of a tree in the order in which [walkDir] visits them. *)
Fixpoint visitOrder (n : FsNode) : list DirEntry :=
  match n with
  | NFile _ _ => [entryOf n]
  | NDir _ _ _ children => entryOf n :: flat_map visitOrder children
  end.

(** No directory of the tree fails to be read. *)
Fixpoint readable (n : FsNode) : bool :=
  match n with
  | NFile _ _ => true
  | NDir _ _ readErr children =>
      match readErr with
      | None => forallb readable children
      | Some _ => false
      end
  end.

Definition isFileEntry (d : DirEntry) : bool := negb (deIsDir d).

(** A callback applied to a sequence of entries, up to its first error. *)
Fixpoint visitAll (fn : WalkState -> option DirEntry -> option WalkErr
                        -> WalkState * option WalkErr)
         (l : list DirEntry) (st : WalkState) : WalkState * option WalkErr :=
  match l with
  | [] => (st, None)
  | d :: r =>
      match fn st (Some d) None with
      | (st', Some e) => (st', Some e)
      | (st', None) => visitAll fn r st'
      end
  end.

(** The children a request selects: all of them up to the maximum
    directory size, or those at the indices [start <= i < min(end, N)]. *)
Definition selectedChildren (byteRange : ByteRangeType)
           (entries : list DirEntry) : list DirEntry :=
  if All byteRange then take (Z.to_nat (MaxDirSize env)) entries
  else
    let n := Z.of_nat (length entries) in
    take (Z.to_nat (Z.min (End_ byteRange) n) - Z.to_nat (Start byteRange))
         (drop (Z.to_nat (Start byteRange)) entries).

End Reading.

(** ** Local handles

    Every operation logs the handles it opens and closes; a handle is
    leaked when the log opens it more often than it closes it. *)
Inductive Handle :=
| HFile (path : string)
| HPipeReader
| HPipeWriter.

Inductive HEvent :=
| HOpen (h : Handle)
| HClose (h : Handle).

Definition Handle_eqb (a b : Handle) : bool :=
  match a, b with
  | HFile p, HFile q => String.eqb p q
  | HPipeReader, HPipeReader => true
  | HPipeWriter, HPipeWriter => true
  | _, _ => false
  end.

Fixpoint removeFirst (h : Handle) (l : list Handle) : list Handle :=
  match l with
  | [] => []
  | x :: r => if Handle_eqb h x then r else x :: removeFirst h r
  end.

(** The handles still open after a log, oldest first.  Closing a handle
    that is not open changes nothing. *)
Definition openAfter (log : list HEvent) : list Handle :=
  fold_left (fun opened ev =>
               match ev with
               | HOpen h => opened ++ [h]
               | HClose h => removeFirst h opened
               end) log [].

(** ** Streaming a regular file *)

(** An opened file: its bytes, how many bytes the read issued at a given
    offset delivers at most (short reads; at least one byte is delivered
    while bytes remain), the offsets at which a read fails, and whether
    seeking fails. *)
Record OpenedFile := mkOpenedFile {
  fileBytes : list Byte.byte;
  readLen : nat -> nat;
  readFails : nat -> bool;
  seekFails : bool
}.

Inductive ReadErr :=
| EOF
| ReadError (msg : string).

Section StreamRegular.

Variable FileChunkSize : nat.
Variable os_Open : string -> OpenedFile + string.

(** [fd.Read(buf)] with [len(buf) = FileChunkSize] at file offset [off]. *)
Definition fdRead (f : OpenedFile) (off : nat)
  : list Byte.byte * option ReadErr :=
  if readFails f off then ([], Some (ReadError "read error"))
  else
    let remaining := (length (fileBytes f) - off)%nat in
    let want := Nat.min FileChunkSize (Nat.max 1 (readLen f off)) in
    let n := Nat.min want remaining in
    match n with
    | O => if (FileChunkSize =? 0)%nat then ([], None) else ([], Some EOF)
    | _ => (take n (drop off (fileBytes f)), None)
    end.

(** The read loop.  [off] is the offset of the descriptor, [filePos] the
    position the function accounts, [out] the chunks handed to the
    callback so far.  [None]: the loop has not returned within [fuel]
    iterations.  The slice [buf[:n]] is rendered with [take], which agrees
    with Go whenever the clipped [n] is not negative, as it is for every
    parsed byte range ([Start <= End]). *)
Fixpoint streamRegularLoop (fuel : nat) (ctx : Ctx) (f : OpenedFile)
         (byteRange : ByteRangeType) (poll off : nat) (filePos : Z)
         (out : list (list Byte.byte))
  : option (list (list Byte.byte) * error) :=
  match fuel with
  | O => None
  | S fuel' =>
      match ctxErr ctx poll with
      | Some e => Some (out, Some e)
      | None =>
          let '(buf, err) := fdRead f off in
          let n := Z.of_nat (length buf) in
          let off' := (off + length buf)%nat in
          let '(filePos', out') :=
            if n >? 0 then
              let n' := if negb (All byteRange) && (filePos + n >? End_ byteRange)
                        then End_ byteRange - filePos else n in
              (filePos + n', out ++ [take (Z.to_nat n') buf])
            else (filePos, out) in
          if negb (All byteRange) && (filePos' >=? End_ byteRange)
          then Some (out', None)
          else match err with
               | Some EOF => Some (out', None)
               | Some (ReadError msg) =>
                   Some (out', Some ("reading file: " +:+ msg))
               | None =>
                   streamRegularLoop fuel' ctx f byteRange (S poll) off'
                                     filePos' out'
               end
      end
  end.

(** *** remoteStreamFileRegular

    The chunks passed to [dataCallback], the returned error and the log
    of handles; the deferred [fd.Close()] runs on every return that
    follows a successful open. *)
Definition remoteStreamFileRegular (fuel : nat) (ctx : Ctx) (path : string)
           (byteRange : ByteRangeType)
  : option (list (list Byte.byte) * error * list HEvent) :=
  match os_Open path with
  | inr msg => Some ([], Some ("cannot open file: " +:+ msg), [])
  | inl fd =>
      let body :=
        if negb (All byteRange) && (Start byteRange >? 0) then
          if seekFails fd then Some ([], Some "seeking file")
          else streamRegularLoop fuel ctx fd byteRange 0
                                 (Z.to_nat (Start byteRange))
                                 (Start byteRange) []
        else streamRegularLoop fuel ctx fd byteRange 0 0%nat 0 [] in
      match body with
      | None => None
      | Some (out, err) =>
          Some (out, err, [HOpen (HFile path); HClose (HFile path)])
      end
  end.

End StreamRegular.

(** The bytes of a file at the offsets [start <= i < end_], and at the
    offsets [start <= i <= end_]. *)
Definition spanHalfOpen (start end_ : Z) (bytes : list Byte.byte)
  : list Byte.byte :=
  take (Z.to_nat (end_ - start)) (drop (Z.to_nat start) bytes).

Definition spanClosed (start end_ : Z) (bytes : list Byte.byte)
  : list Byte.byte :=
  take (Z.to_nat (end_ - start + 1)) (drop (Z.to_nat start) bytes).

(** A file of three bytes that is read without faults. *)
Definition abcFile : OpenedFile :=
  mkOpenedFile [Byte.x61; Byte.x62; Byte.x63] (fun _ => 16%nat)
               (fun _ => false) false.

(** ** Package iochan: a reader pumped into a channel, a channel drained
    into a writer *)
Module iochan.

(** iochantypes.Packet: a data chunk, or the terminal checksum (a nil
    slice is [None]). *)
Record Packet := mkPacket {
  Data : list Byte.byte;
  Checksum : option (list Byte.byte)
}.

(** wshrpc.RespOrErrorUnion[Packet] *)
Record Resp := mkResp {
  Response : Packet;
  Error : error
}.

Definition dataResp (d : list Byte.byte) : Resp :=
  mkResp (mkPacket d None) None.
Definition checksumResp (c : list Byte.byte) : Resp :=
  mkResp (mkPacket [] (Some c)) None.
Definition errorResp (msg : string) : Resp :=
  mkResp (mkPacket [] None) (Some msg).

(** A terminal packet: an error, or a checksum. *)
Definition isTerminal (r : Resp) : bool :=
  match Error r, Checksum (Response r) with
  | Some _, _ => true
  | None, Some _ => true
  | None, None => false
  end.

(** What happens on the channel and around it, in order. *)
Inductive ChanEvent :=
| EvSend (r : Resp)
| EvClose
| EvCallback.

(** bytes.Equal *)
Fixpoint bytes_Equal (a b : list Byte.byte) : bool :=
  match a, b with
  | [], [] => true
  | x :: a', y :: b' => Byte.eqb x y && bytes_Equal a' b'
  | _, _ => false
  end.

Section Adapters.

(** crypto/sha256: the digest of a byte sequence. *)
Variable sha256 : list Byte.byte -> list Byte.byte.

(** The state of a [hash.Hash]: the bytes written to it so far.  [Write]
    never returns an error; the callers test for one all the same. *)
Definition HashState := list Byte.byte.
Definition hashNew : HashState := [].
Definition hashWrite (h : HashState) (p : list Byte.byte) : HashState * error :=
  (h ++ p, None).
Definition hashSum (h : HashState) : list Byte.byte := sha256 h.

(** One turn of the loop of [ReaderChan] as the environment decides it:
    the context is done at the select, or the read returns these bytes
    and this error. *)
Inductive ReaderTick :=
| TickDone
| TickRead (data : list Byte.byte) (err : option ReadErr).

Definition readerExit : list ChanEvent := [EvClose; EvCallback].

(** *** ReaderChan

    The events of the goroutine over the turns of [script]; a script that
    ends before the loop returns leaves the goroutine running, the channel
    open. *)
Fixpoint ReaderChan (script : list ReaderTick) (sha256Hash : HashState)
  : list ChanEvent :=
  match script with
  | [] => []
  | TickDone :: _ => readerExit
  | TickRead data err :: rest =>
      match err with
      | Some EOF =>
          EvSend (checksumResp (hashSum sha256Hash)) :: readerExit
      | Some (ReadError msg) =>
          EvSend (errorResp ("ReaderChan: read error: " +:+ msg)) :: readerExit
      | None =>
          if (0 <? length data)%nat then
            match hashWrite sha256Hash data with
            | (_, Some msg) =>
                EvSend (errorResp
                          ("ReaderChan: error writing to sha256 hash: " +:+ msg))
                  :: readerExit
            | (h', None) => EvSend (dataResp data) :: ReaderChan rest h'
            end
          else ReaderChan rest sha256Hash
      end
  end.

(** One turn of the select of [WriterChan]: the context is done, or a
    value is received.  The end of the script is the closed channel. *)
Inductive WriterTick :=
| WDone
| WRecv (resp : Resp).

Inductive WriterErr :=
| ErrRemote (msg : string)
| ErrHashWrite (msg : string)
| ErrChecksumMismatch
| ErrWrite (msg : string).

(** The io.Writer the channel is drained into. *)
Variable W : Type.
Variable wWrite : W -> list Byte.byte -> W * error.

(** The loop of [WriterChan]: the writer afterwards, the errors passed to
    [errCallback], and the turns left unread when the loop returned. *)
Fixpoint WriterChan_loop (script : list WriterTick) (sha256Hash : HashState)
         (w : W) : W * list WriterErr * list WriterTick :=
  match script with
  | [] => (w, [], [])
  | WDone :: rest => (w, [], rest)
  | WRecv resp :: rest =>
      match Error resp with
      | Some e => (w, [ErrRemote e], rest)
      | None =>
          match hashWrite sha256Hash (Data (Response resp)) with
          | (_, Some msg) => (w, [ErrHashWrite msg], rest)
          | (h', None) =>
              match Checksum (Response resp) with
              | Some c =>
                  let localChecksum := hashSum h' in
                  if negb (bytes_Equal localChecksum c)
                  then (w, [ErrChecksumMismatch], rest)
                  else (w, [], rest)
              | None =>
                  match wWrite w (Data (Response resp)) with
                  | (w', Some msg) => (w', [ErrWrite msg], rest)
                  | (w', None) => WriterChan_loop rest h' w'
                  end
              end
          end
      end
  end.

Record WriterResult := mkWriterResult {
  writerAfter : W;
  errCallbackCalls : list WriterErr;
  callbackCalls : nat;
  drained : list Resp
}.

(** [drainChannel]: everything still sent on the channel is received and
    dropped. *)
Definition drainChannel (rest : list WriterTick) : list Resp :=
  omap (fun t => match t with WRecv r => Some r | WDone => None end) rest.

(** *** WriterChan: the loop, then the deferred drain and [callback()]. *)
Definition WriterChan (script : list WriterTick) (w : W) : WriterResult :=
  let '(w', errs, rest) := WriterChan_loop script hashNew w in
  mkWriterResult w' errs 1 (drainChannel rest).

(** The chunks written to the writer one after the other, up to the first
    write that fails. *)
Fixpoint writeAll (w : W) (chunks : list (list Byte.byte)) : W * error :=
  match chunks with
  | [] => (w, None)
  | d :: r =>
      match wWrite w d with
      | (w', Some e) => (w', Some e)
      | (w', None) => writeAll w' r
      end
  end.

End Adapters.

(** The packets sent in a trace, in order. *)
Definition sentPackets (tr : list ChanEvent) : list Resp :=
  omap (fun ev => match ev with EvSend r => Some r | _ => None end) tr.

(** A turn after which the loop of [ReaderChan] goes on: a read without
    error. *)
Definition continues (t : ReaderTick) : bool :=
  match t with
  | TickRead _ None => true
  | _ => false
  end.

End iochan.

(** A digest to run the adapters with: the sum of the bytes modulo 256. *)
Definition sumDigest (l : list Byte.byte) : list Byte.byte :=
  [default Byte.x00
           (Byte.of_N (fold_left (fun a b => ((a + Byte.to_N b) mod 256)%N) l 0%N))].

(** A writer that keeps what is written to it and never fails. *)
Definition bufferWrite (w : list Byte.byte) (p : list Byte.byte)
  : list Byte.byte * error := (w ++ p, None).

(** ** The archive stream source: RemoteTarStreamCommand *)

(** How the fallible steps of one call turn out. *)
Record TarOutcomes := mkTarOutcomes {
  expandRes : string + string;        (* wavebase.ExpandHomeDir *)
  statRes : StatResult;               (* os.Stat(cleanedPath) *)
  addFSErr : error;                   (* tarWriter.AddFS *)
  headerErr : error;                  (* tar.FileInfoHeader *)
  writeHeaderErr : error;             (* tarWriter.WriteHeader *)
  openErr : error;                    (* os.Open(cleanedPath) *)
  writeToErr : error;                 (* file.WriteTo(tarWriter) *)
  readerReturns : bool                (* the ReaderChan goroutine returns *)
}.

Record TarStreamResult := mkTarStreamResult {
  tarErrorsSent : list string;
  tarHandles : list HEvent
}.

Section TarStream.

Variable homeDir : string.

(** The goroutine that fills the pipe: the error responses it sends and
    the handles it opens. *)
Definition tarGoroutine (o : TarOutcomes) (cleanedPath : string)
           (finfo : fsFileInfo) (recursive : bool)
  : list string * list HEvent :=
  if fiIsDir finfo then
    if recursive then
      match addFSErr o with
      | Some e => (["cannot create tar stream: " +:+ e], [])
      | None => ([], [])
      end
    else (["cannot create tar stream: directory copy requires recursive option"], [])
  else
    match headerErr o with
    | Some e => (["cannot create tar header: " +:+ e], [])
    | None =>
        match writeHeaderErr o with
        | Some e => (["cannot write tar header: " +:+ e], [])
        | None =>
            match openErr o with
            | Some e => (["cannot open file: " +:+ e], [])
            | None =>
                let opened := [HOpen (HFile cleanedPath)] in
                match writeToErr o with
                | Some e => (["cannot write file to tar stream: " +:+ e], opened)
                | None => ([], opened)
                end
            end
        end
    end.

(** The cleanup callback handed to [ReaderChan]. *)
Definition tarCallback : list HEvent := [HClose HPipeReader; HClose HPipeWriter].

(** *** RemoteTarStreamCommand, as far as errors and handles go: the
    function body, the goroutine, and the callback once the reader
    goroutine returns. *)
Definition RemoteTarStreamCommand (o : TarOutcomes) (recursive : bool)
  : TarStreamResult :=
  match expandRes o with
  | inr e => mkTarStreamResult ["cannot expand path: " +:+ e] []
  | inl path =>
      let cleanedPath := filepath.Clean (ExpandHomeDirSafe homeDir path) in
      match statRes o with
      | StatNotExist e | StatError e =>
          mkTarStreamResult ["cannot stat file: " +:+ e] []
      | StatOk finfo =>
          let pipes := [HOpen HPipeReader; HOpen HPipeWriter] in
          let '(errs, opened) := tarGoroutine o cleanedPath finfo recursive in
          mkTarStreamResult
            errs
            (pipes ++ opened ++ (if readerReturns o then tarCallback else []))
      end
  end.

End TarStream.

(** ** The archive copy destination: RemoteFileCopyCommand *)

(** The operating system as the copy uses it: a file system state and the
    calls that read and change it. *)
Record OS := mkOS {
  FS : Type;
  sys_Stat : FS -> string -> StatResult;
  sys_Remove : FS -> string -> FS * error;
  sys_RemoveAll : FS -> string -> FS * error;
  sys_MkdirAll : FS -> string -> Z -> FS * error;
  sys_Create : FS -> string -> FS * error;
  io_Copy : FS -> string -> list Byte.byte -> FS * error;
  file_Chmod : FS -> string -> Z -> FS * error
}.

(** The calls the copy makes, as a log. *)
Inductive Call :=
| CallStat (path : string)
| CallRemove (path : string)
| CallRemoveAll (path : string)
| CallMkdirAll (path : string) (mode : Z)
| CallCreate (path : string)
| CallCopy (path : string) (payload : list Byte.byte)
| CallChmod (path : string) (mode : Z)
| CallClose (path : string).

(** One header of the incoming archive with the payload that follows it. *)
Record TarHeader := mkTarHeader {
  hdrName : string;
  hdrIsDir : bool;
  hdrMode : Z;
  hdrPayload : list Byte.byte
}.

(** The archive as [tarReader.Next()] delivers it: the headers in stream
    order, then io.EOF ([None]) or a read error. *)
Record TarStream := mkTarStream {
  tarEntries : list TarHeader;
  tarEnd : error
}.

Record FileCopyOpts := mkFileCopyOpts {
  Overwrite : bool;
  Recursive : bool;
  Merge : bool
}.

(** The errors [RemoteFileCopyCommand] returns, one constructor for each
    message. *)
Inductive CopyError :=
| ErrDestIsDirUseRecursive (path : string)
| ErrDestIsDirUseOverwrite (path : string)
| ErrDestExistsUseOverwrite (path : string)
| ErrCannotRemoveDirectory (path : string) (e : string)
| ErrCannotRemoveFile (path : string) (e : string)
| ErrCannotStat (path : string) (e : string)
| ErrFileExistsAtPath (path : string)
| ErrDirExistsNoOverwriteNoMerge (path : string)
| ErrDirExistsAtPath (path : string)
| ErrFileExistsNoOverwrite (path : string)
| ErrCannotCreateDirectory (path : string) (e : string)
| ErrCannotCreateFile (path : string) (e : string)
| ErrCannotWriteFile (path : string) (e : string)
| ErrCannotReadTarStream (e : string).

(** fmt's [%q] for a path without characters to escape. *)
Definition quoted (p : string) : string :=
  String (ascii_of_N 34) (p +:+ String (ascii_of_N 34) "").

Definition errorText (e : CopyError) : string :=
  match e with
  | ErrDestIsDirUseRecursive p =>
      "destination " +:+ quoted p +:+ " is a directory, use recursive option"
  | ErrDestIsDirUseOverwrite p =>
      "destination " +:+ quoted p +:+ " is a directory, use overwrite option"
  | ErrDestExistsUseOverwrite p =>
      "destination " +:+ quoted p +:+ " already exists, use overwrite option"
  | ErrCannotRemoveDirectory p e =>
      "cannot remove directory " +:+ quoted p +:+ ": " +:+ e
  | ErrCannotRemoveFile p e => "cannot remove file " +:+ quoted p +:+ ": " +:+ e
  | ErrCannotStat p e => "cannot stat file " +:+ quoted p +:+ ": " +:+ e
  | ErrFileExistsAtPath p =>
      "cannot create directory " +:+ quoted p
        +:+ ", file exists at path, overwrite not specified"
  | ErrDirExistsNoOverwriteNoMerge p =>
      "cannot create directory " +:+ quoted p
        +:+ ", directory exists at path, neither overwrite nor merge specified"
  | ErrDirExistsAtPath p =>
      "cannot create file " +:+ quoted p
        +:+ ", directory exists at path, overwrite not specified"
  | ErrFileExistsNoOverwrite p =>
      "cannot create file " +:+ quoted p
        +:+ ", file exists at path, overwrite not specified"
  | ErrCannotCreateDirectory p e =>
      "cannot create directory " +:+ quoted p +:+ ": " +:+ e
  | ErrCannotCreateFile p e => "cannot create new file " +:+ quoted p +:+ ": " +:+ e
  | ErrCannotWriteFile p e => "cannot write file " +:+ quoted p +:+ ": " +:+ e
  | ErrCannotReadTarStream e => "cannot read tar stream: " +:+ e
  end.

Section Copy.

Variable homeDir : string.
Variable sys : OS.

(** The world the copy runs in: the file system, the log of the calls
    made so far, the log of handles. *)
Record World := mkWorld {
  wfs : FS sys;
  wcalls : list Call;
  whandles : list HEvent
}.

Definition logged (w : World) (fs' : FS sys) (c : list Call) (h : list HEvent)
  : World :=
  mkWorld fs' (wcalls w ++ c) (whandles w ++ h).

Definition doStat (p : string) (w : World) : World * StatResult :=
  (logged w (wfs w) [CallStat p] [], sys_Stat sys (wfs w) p).

Definition doRemove (p : string) (w : World) : World * error :=
  let '(fs', e) := sys_Remove sys (wfs w) p in (logged w fs' [CallRemove p] [], e).

Definition doRemoveAll (p : string) (w : World) : World * error :=
  let '(fs', e) := sys_RemoveAll sys (wfs w) p in
  (logged w fs' [CallRemoveAll p] [], e).

Definition doMkdirAll (p : string) (mode : Z) (w : World) : World * error :=
  let '(fs', e) := sys_MkdirAll sys (wfs w) p mode in
  (logged w fs' [CallMkdirAll p mode] [], e).

(** os.Create: a handle is open once the call succeeds. *)
Definition doCreate (p : string) (w : World) : World * error :=
  let '(fs', e) := sys_Create sys (wfs w) p in
  (logged w fs' [CallCreate p]
          (match e with None => [HOpen (HFile p)] | Some _ => [] end), e).

Definition doCopy (p : string) (payload : list Byte.byte) (w : World)
  : World * error :=
  let '(fs', e) := io_Copy sys (wfs w) p payload in
  (logged w fs' [CallCopy p payload] [], e).

Definition doChmod (p : string) (mode : Z) (w : World) : World * error :=
  let '(fs', e) := file_Chmod sys (wfs w) p mode in
  (logged w fs' [CallChmod p mode] [], e).

Definition doClose (p : string) (w : World) : World :=
  logged w (wfs w) [CallClose p] [HClose (HFile p)].

(** How one pass through the body of the loop ends: the function returns
    an error, or the pass reaches the end of the body with this value in
    the loop's [err]. *)
Inductive BodyResult :=
| BodyReturn (e : CopyError)
| BodyEnd (loopErr : error).

Definition removeThen (rm : string -> World -> World * error)
           (mk : string -> string -> CopyError) (p : string) (w : World)
  : World * BodyResult :=
  let '(w', e) := rm p w in
  match e with
  | Some msg => (w', BodyReturn (mk p msg))
  | None => (w', BodyEnd None)
  end.

(** *** The body of the loop, lines 323 to 386: one evaluation of the
    conflict decision for the header [next]. *)
Definition copyEntry (merge overwrite : bool) (destPathCleaned : string)
           (next : TarHeader) (w : World) : World * BodyResult :=
  let finfoIsDir := hdrIsDir next in
  let nextPath := filepath.Clean (filepath.Join destPathCleaned (hdrName next)) in
  let '(w, sr) := doStat nextPath w in
  match sr with
  | StatError msg => (w, BodyReturn (ErrCannotStat nextPath msg))
  | StatOk destinfo =>
      if fiIsDir destinfo then
        if negb finfoIsDir then
          if negb overwrite then (w, BodyReturn (ErrFileExistsAtPath nextPath))
          else removeThen doRemove ErrCannotRemoveFile nextPath w
        else if negb merge && negb overwrite then
          (w, BodyReturn (ErrDirExistsNoOverwriteNoMerge nextPath))
        else if overwrite then
          removeThen doRemoveAll ErrCannotRemoveDirectory nextPath w
        else (w, BodyEnd None)
      else
        if finfoIsDir then
          if negb overwrite then (w, BodyReturn (ErrDirExistsAtPath nextPath))
          else removeThen doRemoveAll ErrCannotRemoveDirectory nextPath w
        else if negb overwrite then
          (w, BodyReturn (ErrFileExistsNoOverwrite nextPath))
        else removeThen doRemove ErrCannotRemoveFile nextPath w
  | StatNotExist notExist =>
      if finfoIsDir then
        let '(w, e) := doMkdirAll nextPath (hdrMode next) w in
        match e with
        | Some msg => (w, BodyReturn (ErrCannotCreateDirectory nextPath msg))
        | None => (w, BodyEnd (Some notExist))
        end
      else
        let '(w, e) := doCreate nextPath w in
        match e with
        | Some msg => (w, BodyReturn (ErrCannotCreateFile nextPath msg))
        | None =>
            let '(w, e) := doCopy nextPath (hdrPayload next) w in
            match e with
            | Some msg => (w, BodyReturn (ErrCannotWriteFile nextPath msg))
            | None =>
                let '(w, _) := doChmod nextPath (hdrMode next) w in
                (doClose nextPath w, BodyEnd (Some notExist))
            end
        end
  end.

(** *** The loop [for next, err := tarReader.Next(); err == nil; { ... }].

    The clause has no post statement: [next] stays the header the init
    statement read, and the [err] the condition tests is the one the body
    assigns from [os.Stat].  [None]: no return within [fuel] passes. *)
Fixpoint copyLoop (fuel : nat) (merge overwrite : bool)
         (destPathCleaned : string) (next : TarHeader) (loopErr : error)
         (w : World) : option (World * option CopyError) :=
  match loopErr with
  | Some _ => Some (w, None)
  | None =>
      match fuel with
      | O => None
      | S fuel' =>
          match copyEntry merge overwrite destPathCleaned next w with
          | (w', BodyReturn e) => Some (w', Some e)
          | (w', BodyEnd loopErr') =>
              copyLoop fuel' merge overwrite destPathCleaned next loopErr' w'
          end
      end
  end.

(** The check of the destination before the transfer starts. *)
Definition copyPrecheck (merge overwrite recursive : bool)
           (destPath destPathCleaned : string) (sr : StatResult) (w : World)
  : World * option CopyError :=
  match sr with
  | StatOk destinfo =>
      if fiIsDir destinfo then
        if negb recursive then (w, Some (ErrDestIsDirUseRecursive destPath))
        else if negb merge then
          if overwrite then
            let '(w', e) := doRemoveAll destPathCleaned w in
            match e with
            | Some msg => (w', Some (ErrCannotRemoveDirectory destPath msg))
            | None => (w', None)
            end
          else (w, Some (ErrDestIsDirUseOverwrite destPath))
        else (w, None)
      else
        if negb overwrite then (w, Some (ErrDestExistsUseOverwrite destPath))
        else
          let '(w', e) := doRemove destPathCleaned w in
          match e with
          | Some msg => (w', Some (ErrCannotRemoveFile destPath msg))
          | None => (w', None)
          end
  | _ => (w, None)
  end.

(** The deferred calls that run once the pipe exists. *)
Definition closePipes (w : World) : World :=
  logged w (wfs w) [] [HClose HPipeReader; HClose HPipeWriter].

(** *** RemoteFileCopyCommand

    [archive] is what the tar reader delivers from the stream of the
    source.  The [err] tested after the loop is the one of the function
    scope, assigned by the first [os.Stat] only. *)
Definition RemoteFileCopyCommand (fuel : nat) (opts : option FileCopyOpts)
           (destPath : string) (archive : TarStream) (w : World)
  : option (World * option CopyError) :=
  let merge := match opts with Some o => Merge o | None => false end in
  let overwrite := match opts with Some o => Overwrite o | None => false end in
  let recursive := match opts with Some o => Recursive o | None => false end in
  let destPathCleaned := filepath.Clean (ExpandHomeDirSafe homeDir destPath) in
  let '(w, sr) := doStat destPathCleaned w in
  let err := match sr with
             | StatOk _ => None
             | StatNotExist msg | StatError msg => Some msg
             end in
  match copyPrecheck merge overwrite recursive destPath destPathCleaned sr w with
  | (w, Some e) => Some (w, Some e)
  | (w, None) =>
      let w := logged w (wfs w) [] [HOpen HPipeReader; HOpen HPipeWriter] in
      let looped :=
        match tarEntries archive with
        | next :: _ => copyLoop fuel merge overwrite destPathCleaned next None w
        | [] => Some (w, None)
        end in
      match looped with
      | None => None
      | Some (w, Some e) => Some (closePipes w, Some e)
      | Some (w, None) =>
          Some (closePipes w,
                match err with
                | Some msg => Some (ErrCannotReadTarStream msg)
                | None => None
                end)
      end
  end.

End Copy.

(** ** A file system in memory

    An instance of [OS] on which the copy can be run: a finite map from
    cleaned paths to files and directories. *)
Module MemFS.

Inductive Node :=
| File (content : list Byte.byte) (mode : Z)
| Directory (mode : Z).

Definition isUnder (dir p : string) : bool := String.prefix (dir +:+ "/") p.

Definition baseName (p : string) : string :=
  List.last (filepath.splitSlash "" p) "".

Definition Stat (fs : gmap string Node) (p : string) : StatResult :=
  match fs !! p with
  | Some (File c m) =>
      StatOk (mkFsFileInfo (baseName p) (Z.of_nat (length c)) m 0 false)
  | Some (Directory m) => StatOk (mkFsFileInfo (baseName p) 0 m 0 true)
  | None => StatNotExist "no such file or directory"
  end.

Definition hasChildren (fs : gmap string Node) (p : string) : bool :=
  existsb (fun kv => isUnder p kv.1) (map_to_list fs).

Definition Remove (fs : gmap string Node) (p : string)
  : gmap string Node * error :=
  match fs !! p with
  | None => (fs, Some "no such file or directory")
  | Some (Directory _) =>
      if hasChildren fs p then (fs, Some "directory not empty")
      else (delete p fs, None)
  | Some (File _ _) => (delete p fs, None)
  end.

Definition RemoveAll (fs : gmap string Node) (p : string)
  : gmap string Node * error :=
  (filter (fun kv => negb (String.eqb kv.1 p || isUnder p kv.1) = true) fs, None).

(** The path itself and the directories above it, outermost first. *)
Fixpoint prefixesFrom (cur : string) (comps : list string) : list string :=
  match comps with
  | [] => []
  | c :: r =>
      let cur' := cur +:+ "/" +:+ c in
      cur' :: prefixesFrom cur' r
  end.

Definition prefixesOf (p : string) : list string :=
  match filepath.splitSlash "" p with
  | [] => []
  | c :: r => (if String.eqb c "" then [] else [c]) ++ prefixesFrom c r
  end.

Fixpoint mkdirEach (fs : gmap string Node) (mode : Z) (ps : list string)
  : gmap string Node * error :=
  match ps with
  | [] => (fs, None)
  | p :: r =>
      match fs !! p with
      | Some (File _ _) => (fs, Some "not a directory")
      | Some (Directory _) => mkdirEach fs mode r
      | None => mkdirEach (<[p := Directory mode]> fs) mode r
      end
  end.

Definition MkdirAll (fs : gmap string Node) (p : string) (mode : Z)
  : gmap string Node * error :=
  mkdirEach fs mode (prefixesOf p).

Definition parentIsDir (fs : gmap string Node) (p : string) : bool :=
  let parent := filepath.Dir p in
  if String.eqb parent "/" || String.eqb parent "." then true
  else match fs !! parent with
       | Some (Directory _) => true
       | _ => false
       end.

Definition Create (fs : gmap string Node) (p : string)
  : gmap string Node * error :=
  match fs !! p with
  | Some (Directory _) => (fs, Some "is a directory")
  | Some (File _ m) => (<[p := File [] m]> fs, None)
  | None =>
      if parentIsDir fs p then (<[p := File [] 438]> fs, None)
      else (fs, Some "no such file or directory")
  end.

Definition Copy (fs : gmap string Node) (p : string) (payload : list Byte.byte)
  : gmap string Node * error :=
  match fs !! p with
  | Some (File c m) => (<[p := File (c ++ payload) m]> fs, None)
  | _ => (fs, Some "bad file descriptor")
  end.

Definition Chmod (fs : gmap string Node) (p : string) (mode : Z)
  : gmap string Node * error :=
  match fs !! p with
  | Some (File c _) => (<[p := File c mode]> fs, None)
  | Some (Directory _) => (<[p := Directory mode]> fs, None)
  | None => (fs, Some "no such file or directory")
  end.

Definition os : OS :=
  mkOS (gmap string Node) Stat Remove RemoveAll MkdirAll Create Copy Chmod.

Definition world (fs : gmap string Node) : World os := mkWorld os fs [] [].

(** What is looked at after a run: the calls made, what the file system
    holds at some paths, the handles still open. *)
Definition snapshot (paths : list string) (w : World os)
  : list Call * list (option Node) * list Handle :=
  (wcalls os w, map (fun p => wfs os w !! p) paths, openAfter (whandles os w)).

Definition snapshotRun (paths : list string)
           (r : option (World os * option CopyError))
  : option (list Call * list (option Node) * list Handle * option CopyError) :=
  match r with
  | Some (w, e) => Some (snapshot paths w, e)
  | None => None
  end.

End MemFS.

(** ** encoding/base64: the standard encoding, with padding

    Go's base64.StdEncoding (RFC 4648), as far as [EncodeToString] and
    [Decode] go.  The decoder is the one of encoding/base64: it is not
    strict about the bits left over in the last quantum, it skips carriage
    returns and newlines, and it requires the padding. *)
Module base64.

Definition encodeStd : string :=
  "ABCDEFGHIJKLMNOPQRSTUVWXYZabcdefghijklmnopqrstuvwxyz0123456789+/".

Definition padChar : ascii := "="%char.

(** [enc.encode[v]] *)
Definition encode (v : Z) : ascii :=
  match String.get (Z.to_nat v) encodeStd with
  | Some c => c
  | None => padChar
  end.

(** [enc.decodeMap[c]], the inverse of the alphabet: 0xFF for a byte that
    is not in it. *)
Definition decodeMap (c : ascii) : Z :=
  match String.index 0 (String c "") encodeStd with
  | Some i => Z.of_nat i
  | None => 255
  end.

Definition byteVal (b : Byte.byte) : Z := Z.of_N (Byte.to_N b).

(** [byte(v)]: the low eight bits. *)
Definition toByte (v : Z) : Byte.byte :=
  default Byte.x00 (Byte.of_N (Z.to_N (Z.land v 255))).

(** *** EncodeToString: three bytes to four characters, the remaining one
    or two bytes to two or three characters and padding. *)
Fixpoint EncodeToString (src : list Byte.byte) : string :=
  match src with
  | b0 :: b1 :: b2 :: rest =>
      let val := Z.lor (Z.lor (Z.shiftl (byteVal b0) 16) (Z.shiftl (byteVal b1) 8))
                       (byteVal b2) in
      String (encode (Z.land (Z.shiftr val 18) 63))
        (String (encode (Z.land (Z.shiftr val 12) 63))
           (String (encode (Z.land (Z.shiftr val 6) 63))
              (String (encode (Z.land val 63)) (EncodeToString rest))))
  | [b0; b1] =>
      let val := Z.lor (Z.shiftl (byteVal b0) 16) (Z.shiftl (byteVal b1) 8) in
      String (encode (Z.land (Z.shiftr val 18) 63))
        (String (encode (Z.land (Z.shiftr val 12) 63))
           (String (encode (Z.land (Z.shiftr val 6) 63))
              (String padChar "")))
  | [b0] =>
      let val := Z.shiftl (byteVal b0) 16 in
      String (encode (Z.land (Z.shiftr val 18) 63))
        (String (encode (Z.land (Z.shiftr val 12) 63))
           (String padChar (String padChar "")))
  | [] => ""
  end.

Definition isCRLF (c : ascii) : bool :=
  Ascii.eqb c "010"%char || Ascii.eqb c "013"%char.

Fixpoint skipNewlines (s : string) : string :=
  match s with
  | String c r => if isCRLF c then skipNewlines r else s
  | EmptyString => EmptyString
  end.

(** The bytes of a quantum of [dlen] sextets ([dlen - 1] bytes): the
    sextets not read are zero. *)
Definition quantumBytes (dbuf : list Z) (dlen : nat) : list Byte.byte :=
  let d i := nth i dbuf 0 in
  let val := Z.lor (Z.lor (Z.lor (Z.shiftl (d 0%nat) 18) (Z.shiftl (d 1%nat) 12))
                          (Z.shiftl (d 2%nat) 6))
                   (d 3%nat) in
  take (dlen - 1) [toByte (Z.shiftr val 16); toByte (Z.shiftr val 8); toByte val].

(** *** Decode: the quanta of [decodeQuantum], one after the other.
    [dbuf] holds the sextets of the quantum being read.  [None] is a
    CorruptInputError. *)
Fixpoint decodeQuanta (src : string) (dbuf : list Z) : option (list Byte.byte) :=
  match src with
  | EmptyString =>
      match dbuf with
      | [] => Some []
      | _ => None                     (* the input ends within a quantum *)
      end
  | String c rest =>
      let out := decodeMap c in
      if negb (out =? 255) then
        let dbuf' := dbuf ++ [out] in
        if (length dbuf' =? 4)%nat
        then option_map (app (quantumBytes dbuf' 4)) (decodeQuanta rest [])
        else decodeQuanta rest dbuf'
      else if isCRLF c then decodeQuanta rest dbuf
      else if negb (Ascii.eqb c padChar) then None
      else
        match length dbuf with
        | 0%nat | 1%nat => None       (* incorrect padding *)
        | 2%nat =>
            match skipNewlines rest with
            | String c2 rest2 =>
                if Ascii.eqb c2 padChar then
                  match skipNewlines rest2 with
                  | EmptyString => Some (quantumBytes dbuf 2)
                  | _ => None         (* trailing garbage *)
                  end
                else None
            | EmptyString => None     (* not enough padding *)
            end
        | _ =>
            match skipNewlines rest with
            | EmptyString => Some (quantumBytes dbuf 3)
            | _ => None
            end
        end
  end.

Definition Decode (src : string) : option (list Byte.byte) :=
  decodeQuanta src [].

End base64.

(** ** Streaming a file or a directory: remoteStreamFileInternal and
    RemoteStreamFileCommand *)

(** One call of [dataCallback]. *)
Record StreamCallback := mkStreamCallback {
  cbFileInfo : list FileInfo;
  cbData : list Byte.byte;
  cbRange : ByteRangeType
}.

(** wshrpc.FileDataAt and wshrpc.FileData; a nil pointer is [None]. *)
Record FileDataAt := mkFileDataAt {
  atOffset : Z;
  atSize : Z
}.

Record FileData := mkFileData {
  fdInfo : option FileInfo;
  fdEntries : list FileInfo;
  fdData64 : string;
  fdAt : option FileDataAt
}.

(** The response that the callback of [RemoteStreamFileCommand] builds
    from one call. *)
Definition streamResponse (cb : StreamCallback) : FileData :=
  let fileInfo := cbFileInfo cb in
  let fileInfoLen := length fileInfo in
  let '(info, entries) :=
    if (1 <? fileInfoLen)%nat then (head fileInfo, fileInfo)
    else if (fileInfoLen =? 1)%nat then (head fileInfo, [])
    else (None, []) in
  if (0 <? length (cbData cb))%nat then
    mkFileData info entries (base64.EncodeToString (cbData cb))
               (Some (mkFileDataAt (Start (cbRange cb))
                                   (Z.of_nat (length (cbData cb)))))
  else mkFileData info entries "" None.

Section StreamFile.

Variable env : Env.
Variable MaxFileSize : Z.                       (* wshrpc.MaxFileSize *)
Variable FileChunkSize : nat.                   (* wshrpc.FileChunkSize *)
Variable os_Open : string -> OpenedFile + string.

(** *** The handles of the read-only probe

    [checkIsReadOnly] opens and closes a file of its own: for a directory
    or a path that does not exist, a temporary file that it creates in the
    parent directory and removes again; for any other path, the file
    itself, opened for appending.  A probe that cannot open its file has
    no handle. *)
Definition checkIsReadOnlyHandles (path : string) (fileInfo : option fsFileInfo)
           (exists_ : bool) : list HEvent :=
  if negb exists_ || match fileInfo with
                     | Some fi => fiIsDir fi
                     | None => false
                     end
  then
    let dirName := filepath.Dir path in
    match RandomHexString env 12 with
    | None => []
    | Some randHexStr =>
        let tmpFileName := filepath.Join dirName ("wsh-tmp-" +:+ randHexStr) in
        if os_CreateOk env tmpFileName
        then [HOpen (HFile tmpFileName); HClose (HFile tmpFileName)]
        else []
    end
  else
    if os_OpenAppendOk env path
    then [HOpen (HFile path); HClose (HFile path)]
    else [].

(** The handles of [fileInfoInternal]: the probe runs for a path that
    does not exist and, when [extended] is set, for a path that exists;
    it does not run when the stat fails otherwise. *)
Definition fileInfoInternalHandles (path : string) (extended : bool)
  : list HEvent :=
  let cleanedPath := filepath.Clean (ExpandHomeDirSafe (HomeDir env) path) in
  match os_Stat env cleanedPath with
  | StatNotExist _ => checkIsReadOnlyHandles cleanedPath None false
  | StatError _ => []
  | StatOk finfo =>
      if extended then checkIsReadOnlyHandles cleanedPath (Some finfo) true
      else []
  end.

(** The handles of [remoteStreamFileDir]: those of the metadata of the
    parent, which is fetched once the directory has been read and the
    byte range does not start beyond its entries. *)
Definition remoteStreamFileDirHandles (path : string) (byteRange : ByteRangeType)
  : list HEvent :=
  match os_ReadDir env path with
  | inr _ => []
  | inl innerFilesEntries =>
      if negb (All byteRange)
         && (Start byteRange >=? Z.of_nat (length innerFilesEntries))
      then []
      else fileInfoInternalHandles (filepath.Dir path) false
  end.

(** *** remoteStreamFileInternal

    The calls of [dataCallback] in order, the returned error and the log
    of the handles that the code of this file opens and closes: those of
    the read-only probe of the metadata ([os.Create], [os.OpenFile]), then
    those of the streamer ([os.Open]).  What the helpers of other packages
    open within themselves ([fileutil.DetectMimeType], [os.ReadDir]) is not
    part of the log.  [None]: the read loop has not returned within [fuel]
    iterations. *)
Definition remoteStreamFileInternal (fuel : nat) (ctx : Ctx)
           (dataPath dataByteRange : string)
  : option (list StreamCallback * error * list HEvent) :=
  match parseByteRange dataByteRange with
  | inr e => Some ([], Some e, [])
  | inl byteRange =>
      match ExpandHomeDir env dataPath with
      | inr e => Some ([], Some e, [])
      | inl path =>
          let probe := fileInfoInternalHandles path true in
          match fileInfoInternal env path true with
          | inr e =>
              Some ([], Some ("cannot stat file " +:+ quoted path +:+ ": " +:+ e),
                    probe)
          | inl finfo =>
              let first := mkStreamCallback [finfo] [] byteRange in
              if NotFound finfo then Some ([first], None, probe)
              else if Size finfo >? MaxFileSize then
                Some ([first],
                      Some ("file " +:+ quoted path
                              +:+ " is too large to read, use /wave/stream-file"),
                      probe)
              else if IsDir finfo then
                let '(batches, err) := remoteStreamFileDir env ctx path byteRange in
                Some (first :: map (fun b => mkStreamCallback b [] byteRange) batches,
                      err, probe ++ remoteStreamFileDirHandles path byteRange)
              else
                match remoteStreamFileRegular FileChunkSize os_Open fuel ctx path
                                              byteRange with
                | None => None
                | Some (chunks, err, log) =>
                    Some (first :: map (fun c => mkStreamCallback [] c byteRange) chunks,
                          err, probe ++ log)
                end
          end
      end
  end.

(** *** RemoteStreamFileCommand

    What is sent on the channel before it is closed: a response for every
    call of the callback, then the error if there is one. *)
Definition RemoteStreamFileCommand (fuel : nat) (ctx : Ctx)
           (dataPath dataByteRange : string)
  : option (list (FileData + string)) :=
  match remoteStreamFileInternal fuel ctx dataPath dataByteRange with
  | None => None
  | Some (calls, err, _) =>
      Some (map (fun cb => inl (streamResponse cb)) calls
            ++ match err with
               | Some e => [inr e]
               | None => []
               end)
  end.

End StreamFile.

(** ** The commands that change the file system *)
Section Mutators.

Variable homeDir : string.
Variable expandHomeDir : string -> string + string.   (* wavebase.ExpandHomeDir *)
Variable sys : OS.
Variable sys_WriteFile : FS sys -> string -> list Byte.byte -> Z -> FS sys * error.

(** *** RemoteFileTouchCommand *)
Definition RemoteFileTouchCommand (path : string) (fs : FS sys) : FS sys * error :=
  let cleanedPath := filepath.Clean (ExpandHomeDirSafe homeDir path) in
  match sys_Stat sys fs cleanedPath with
  | StatOk _ => (fs, Some ("file " +:+ quoted path +:+ " already exists"))
  | _ =>
      let '(fs1, e) := sys_MkdirAll sys fs (filepath.Dir cleanedPath) 493 in
      match e with
      | Some msg =>
          (fs1, Some ("cannot create directory "
                        +:+ quoted (filepath.Dir cleanedPath) +:+ ": " +:+ msg))
      | None =>
          let '(fs2, e) := sys_WriteFile fs1 cleanedPath [] 420 in
          match e with
          | Some msg =>
              (fs2, Some ("cannot create file " +:+ quoted cleanedPath
                            +:+ ": " +:+ msg))
          | None => (fs2, None)
          end
      end
  end.

(** *** RemoteMkdirCommand *)
Definition RemoteMkdirCommand (path : string) (fs : FS sys) : FS sys * error :=
  let cleanedPath := filepath.Clean (ExpandHomeDirSafe homeDir path) in
  match sys_Stat sys fs cleanedPath with
  | StatOk stat =>
      if fiIsDir stat
      then (fs, Some ("directory " +:+ quoted path +:+ " already exists"))
      else (fs, Some ("cannot create directory " +:+ quoted path
                        +:+ ", file exists at path"))
  | _ =>
      let '(fs1, e) := sys_MkdirAll sys fs cleanedPath 493 in
      match e with
      | Some msg =>
          (fs1, Some ("cannot create directory " +:+ quoted cleanedPath
                        +:+ ": " +:+ msg))
      | None => (fs1, None)
      end
  end.

(** *** RemoteWriteFileCommand

    The error of the decoder also names the offending input byte; the
    position is left out of the text here. *)
Definition RemoteWriteFileCommand (dataPath data64 : string) (createMode : Z)
           (fs : FS sys) : FS sys * error :=
  match expandHomeDir dataPath with
  | inr e => (fs, Some e)
  | inl path =>
      let createMode := if createMode =? 0 then 420 else createMode in
      match base64.Decode data64 with
      | None => (fs, Some "cannot decode base64 data: illegal base64 data")
      | Some dataBytes =>
          let '(fs1, e) := sys_WriteFile fs path dataBytes createMode in
          match e with
          | Some msg =>
              (fs1, Some ("cannot write file " +:+ quoted path +:+ ": " +:+ msg))
          | None => (fs1, None)
          end
      end
  end.

(** *** RemoteFileDeleteCommand *)
Definition RemoteFileDeleteCommand (path : string) (fs : FS sys) : FS sys * error :=
  match expandHomeDir path with
  | inr e => (fs, Some ("cannot delete file " +:+ quoted path +:+ ": " +:+ e))
  | inl expandedPath =>
      let cleanedPath := filepath.Clean expandedPath in
      let '(fs1, e) := sys_Remove sys fs cleanedPath in
      match e with
      | Some msg =>
          (fs1, Some ("cannot delete file " +:+ quoted path +:+ ": " +:+ msg))
      | None => (fs1, None)
      end
  end.

End Mutators.

(** ** The file system in memory, continued: writing and opening files *)
Module MemFSFiles.

(** os.WriteFile: the file is created with the permissions given if it
    does not exist (the umask is left out), and is otherwise truncated,
    its permissions unchanged.  As for the other calls, the name is a
    cleaned path. *)
Definition WriteFile (fs : gmap string MemFS.Node) (name : string)
           (data : list Byte.byte) (perm : Z) : gmap string MemFS.Node * error :=
  match fs !! name with
  | Some (MemFS.Directory _) => (fs, Some "is a directory")
  | Some (MemFS.File _ m) => (<[name := MemFS.File data m]> fs, None)
  | None =>
      if MemFS.parentIsDir fs name
      then (<[name := MemFS.File data perm]> fs, None)
      else (fs, Some "no such file or directory")
  end.

(** os.Open: a file that is read without faults, with reads of at most
    [readSize] bytes; a directory can be opened, reading it fails. *)
Definition Open (readSize : nat) (fs : gmap string MemFS.Node) (name : string)
  : OpenedFile + string :=
  match fs !! name with
  | Some (MemFS.File c _) =>
      inl (mkOpenedFile c (fun _ => readSize) (fun _ => false) false)
  | Some (MemFS.Directory _) =>
      inl (mkOpenedFile [] (fun _ => readSize) (fun _ => true) false)
  | None => inr "no such file or directory"
  end.

End MemFSFiles.

(** ** Vocabulary for the properties of the adapters, the listings and
    the copy *)

(** The chunks a reader script makes [ReaderChan] forward: the data of
    the reads that report no error, empty reads left out, up to the first
    turn that ends the loop (a cancellation, or a read that reports the end
    of the input or an error, whose own bytes are not forwarded). *)
Fixpoint readsBefore (script : list iochan.ReaderTick) : list (list Byte.byte) :=
  match script with
  | iochan.TickRead data None :: rest =>
      (if (0 <? length data)%nat then [data] else []) ++ readsBefore rest
  | _ => []
  end.

(** The events with which the goroutine of [ReaderChan] ends on a script,
    [sent] being the bytes hashed so far. *)
Fixpoint readerEnding (sha256 : list Byte.byte -> list Byte.byte)
         (script : list iochan.ReaderTick) (sent : list Byte.byte)
  : list iochan.ChanEvent :=
  match script with
  | [] => []
  | iochan.TickRead data None :: rest =>
      readerEnding sha256 rest (if (0 <? length data)%nat then sent ++ data else sent)
  | iochan.TickDone :: _ => iochan.readerExit
  | iochan.TickRead _ (Some EOF) :: _ =>
      iochan.EvSend (iochan.checksumResp (sha256 sent)) :: iochan.readerExit
  | iochan.TickRead _ (Some (ReadError msg)) :: _ =>
      iochan.EvSend (iochan.errorResp ("ReaderChan: read error: " +:+ msg))
        :: iochan.readerExit
  end.

(** The data fields of a sequence of packets. *)
Definition packetData (l : list iochan.Resp) : list (list Byte.byte) :=
  map (fun r => iochan.Data (iochan.Response r)) l.

(** The data fields of the packets a writer script delivers. *)
Definition receivedData (script : list iochan.WriterTick) : list (list Byte.byte) :=
  omap (fun t => match t with
                 | iochan.WRecv r => Some (iochan.Data (iochan.Response r))
                 | iochan.WDone => None
                 end) script.

Definition nonEmptyReads (reads : list (list Byte.byte)) : list (list Byte.byte) :=
  filter (fun d => (0 <? length d)%nat = true) reads.

(** Batches as the batching loop sends them with a chunk size [chunk]:
    every batch but the last holds [chunk] entries, and the last one, if it
    is not full, is not empty. *)
Definition wellBatched (chunk : Z) (batches : list (list FileInfo)) : Prop :=
  exists full last,
    batches = full ++ last /\
    Forall (fun b => Z.of_nat (length b) = chunk) full /\
    (last = [] \/ exists b, last = [b] /\ 1 <= Z.of_nat (length b) < chunk).

(** An entry reported as lying directly in the directory [path]: its path
    and directory part are those of [path] joined with its base name. *)
Definition flatPath (env : Env) (path : string) (fi : FileInfo) : Prop :=
  Path fi = ReplaceHomeDir env (filepath.Join path (Name fi)) /\
  Dir fi = computeDirPart env (filepath.Join path (Name fi)) (IsDir fi).

(** The calls that delete from the file system. *)
Definition isRemoval (c : Call) : bool :=
  match c with
  | CallRemove _ | CallRemoveAll _ => true
  | _ => false
  end.

(** What is looked at after a copy on any system: the calls made, the
    handles still open, the error returned. *)
Definition copyObserved (sys : OS) (r : option (World sys * option CopyError))
  : option (list Call * list Handle * option CopyError) :=
  match r with
  | Some (w, e) => Some (wcalls sys w, openAfter (whandles sys w), e)
  | None => None
  end.

(** The handles open while the transfer runs. *)
Definition pipesOpen : list Handle := [HPipeReader; HPipeWriter].

(** The bytes that the responses of a stream carry, decoded and put
    together in order. *)
Fixpoint decodedData (l : list FileData) : option (list Byte.byte) :=
  match l with
  | [] => Some []
  | r :: rest =>
      match base64.Decode (fdData64 r), decodedData rest with
      | Some d, Some ds => Some (d ++ ds)
      | _, _ => None
      end
  end.

(** A response of a stream as to its data: it carries none, or it carries
    a chunk that is not empty, with the start of the requested range for
    its offset and the length of the chunk for its size. *)
Definition dataResponse (byteRange : ByteRangeType) (r : FileData) : Prop :=
  (fdData64 r = "" /\ fdAt r = None) \/
  exists chunk,
    chunk <> [] /\
    base64.Decode (fdData64 r) = Some chunk /\
    fdAt r = Some (mkFileDataAt (Start byteRange) (Z.of_nat (length chunk))).

(** ** The decision table of the specification

    The actions that the table of the copy destination prescribes for an
    incoming entry, and the table itself, row by row: whether the
    destination exists, whether it is a directory, whether the incoming
    entry is a directory, merge, overwrite.  The reason of a conflict is
    the error of that name. *)
Inductive TableAction :=
| CreateEntry          (* create directory; create file, write payload, set mode *)
| FailWith (reason : CopyError)
| RemoveThenCreate     (* remove the existing destination, then create *)
| MergeNoOp.           (* merge into the existing directory *)

Definition decisionTable (destExists destIsDir incomingIsDir merge overwrite : bool)
           (p : string) : TableAction :=
  match destExists, destIsDir, incomingIsDir, merge, overwrite with
  | false, _, _, _, _ => CreateEntry                                (* rows 1, 2 *)
  | true, true, false, _, false => FailWith (ErrFileExistsAtPath p)        (* 3 *)
  | true, true, false, _, true => RemoveThenCreate                         (* 4 *)
  | true, true, true, false, false =>
      FailWith (ErrDirExistsNoOverwriteNoMerge p)                          (* 5 *)
  | true, true, true, _, true => RemoveThenCreate                          (* 6 *)
  | true, true, true, true, false => MergeNoOp                             (* 7 *)
  | true, false, true, _, false => FailWith (ErrDirExistsAtPath p)         (* 8 *)
  | true, false, true, _, true => RemoveThenCreate                         (* 9 *)
  | true, false, false, _, false => FailWith (ErrFileExistsNoOverwrite p)  (* 10 *)
  | true, false, false, _, true => RemoveThenCreate                        (* 11 *)
  end.

(** What the actions amount to in calls of the operating system.  To
    create the incoming entry at the path [p] is to make the directory with
    the mode of the header, or to create the file, write the payload, set
    the mode and close the file; [created] is the file system after these
    calls when each of them succeeds (the result of setting the mode is
    not looked at).  To remove the existing destination is to remove the
    tree at [p] when the incoming entry is a directory, and the one path
    when it is a file. *)
Definition creationCalls (p : string) (next : TarHeader) : list Call :=
  if hdrIsDir next then [CallMkdirAll p (hdrMode next)]
  else [CallCreate p; CallCopy p (hdrPayload next); CallChmod p (hdrMode next);
        CallClose p].

Definition creationHandles (p : string) (next : TarHeader) : list HEvent :=
  if hdrIsDir next then [] else [HOpen (HFile p); HClose (HFile p)].

Definition created (sys : OS) (fs : FS sys) (p : string) (next : TarHeader)
  : option (FS sys) :=
  if hdrIsDir next then
    match sys_MkdirAll sys fs p (hdrMode next) with
    | (fs1, None) => Some fs1
    | (_, Some _) => None
    end
  else
    match sys_Create sys fs p with
    | (fs1, None) =>
        match io_Copy sys fs1 p (hdrPayload next) with
        | (fs2, None) => Some (fst (file_Chmod sys fs2 p (hdrMode next)))
        | (_, Some _) => None
        end
    | (_, Some _) => None
    end.

Definition removalCall (p : string) (next : TarHeader) : Call :=
  if hdrIsDir next then CallRemoveAll p else CallRemove p.

Definition removed (sys : OS) (fs : FS sys) (p : string) (next : TarHeader)
  : FS sys * error :=
  if hdrIsDir next then sys_RemoveAll sys fs p else sys_Remove sys fs p.

(** ** Sample data to run the operations on *)

Definition sampleInfo (name : string) (isDir : bool) : fsFileInfo :=
  mkFsFileInfo name 1 420 0 isDir.

(** The tree [. / a, d / (b, c), e], five files and directories under the
    root. *)
Definition sampleTree : FsNode :=
  NDir "." (inl (sampleInfo "." true)) None
       [NFile "a" (inl (sampleInfo "a" false));
        NDir "d" (inl (sampleInfo "d" true)) None
             [NFile "b" (inl (sampleInfo "b" false));
              NFile "c" (inl (sampleInfo "c" false))];
        NFile "e" (inl (sampleInfo "e" false))].

Definition sampleEntries : list DirEntry :=
  [mkDirEntry "a" false (inl (sampleInfo "a" false));
   mkDirEntry "d" true (inl (sampleInfo "d" true));
   mkDirEntry "e" false (inl (sampleInfo "e" false))].

Definition sampleEnv : Env :=
  {| MaxDirSize := 1024;
     DirChunkSize := 2;
     HomeDir := "/home/u";
     ReplaceHomeDir := fun p => p;
     DetectMimeType := fun _ _ _ => "";
     ModeString := fun _ => "";
     os_Stat := fun p => StatOk (sampleInfo p true);
     os_ReadDir := fun _ => inl sampleEntries;
     RandomHexString := fun _ => Some "00";
     os_CreateOk := fun _ => true;
     os_OpenAppendOk := fun _ => true;
     ExpandHomeDir := fun p => inl p;
     os_DirFS := fun _ => inl sampleTree |}.

(** The tree [. / d, e, f] in which the directory [d] cannot be read,
    and the sample environment over it. *)
Definition lockedTree : FsNode :=
  NDir "." (inl (sampleInfo "." true)) None
       [NDir "d" (inl (sampleInfo "d" true)) (Some "permission denied") [];
        NFile "e" (inl (sampleInfo "e" false));
        NFile "f" (inl (sampleInfo "f" false))].

Definition lockedEnv : Env :=
  {| MaxDirSize := 1024;
     DirChunkSize := 2;
     HomeDir := "/home/u";
     ReplaceHomeDir := fun p => p;
     DetectMimeType := fun _ _ _ => "";
     ModeString := fun _ => "";
     os_Stat := fun p => StatOk (sampleInfo p true);
     os_ReadDir := fun _ => inl sampleEntries;
     RandomHexString := fun _ => Some "00";
     os_CreateOk := fun _ => true;
     os_OpenAppendOk := fun _ => true;
     ExpandHomeDir := fun p => inl p;
     os_DirFS := fun _ => inl lockedTree |}.

(** The sample environment in which the stat of [/srv] fails with an
    input/output error. *)
Definition parentDeniedEnv : Env :=
  {| MaxDirSize := 1024;
     DirChunkSize := 2;
     HomeDir := "/home/u";
     ReplaceHomeDir := fun p => p;
     DetectMimeType := fun _ _ _ => "";
     ModeString := fun _ => "";
     os_Stat := fun p => if String.eqb p "/srv"
                         then StatError "input/output error"
                         else StatOk (sampleInfo p true);
     os_ReadDir := fun _ => inl sampleEntries;
     RandomHexString := fun _ => Some "00";
     os_CreateOk := fun _ => true;
     os_OpenAppendOk := fun _ => true;
     ExpandHomeDir := fun p => inl p;
     os_DirFS := fun _ => inl sampleTree |}.

(** Two files of an incoming archive, a directory of one, and file systems
    for the destination: an empty directory [/dst], the same holding a
    file [a], the same holding a directory [a]. *)
Definition fileA : TarHeader := mkTarHeader "a" false 420 [Byte.x61].
Definition fileB : TarHeader := mkTarHeader "b" false 420 [Byte.x62].
Definition dirA : TarHeader := mkTarHeader "a" true 493 [].

Definition fsEmptyDst : gmap string MemFS.Node :=
  <["/dst" := MemFS.Directory 493]> ∅.
Definition fsWithFileA : gmap string MemFS.Node :=
  <["/dst/a" := MemFS.File [Byte.x7a] 420]> fsEmptyDst.
Definition fsWithDirA : gmap string MemFS.Node :=
  <["/dst/a" := MemFS.Directory 493]> fsEmptyDst.

Definition optsMerge : option FileCopyOpts :=
  Some (mkFileCopyOpts false true true).
Definition optsOverwrite : option FileCopyOpts :=
  Some (mkFileCopyOpts true true false).

(** A call of the archive source on a regular file in which every step
    succeeds and the reader goroutine returns. *)
Definition tarAllGood : TarOutcomes :=
  {| expandRes := inl "/srv/f";
     statRes := StatOk (sampleInfo "f" false);
     addFSErr := None; headerErr := None; writeHeaderErr := None;
     openErr := None; writeToErr := None;
     readerReturns := true |}.

(** The environment of the reading operations over a file system in
    memory, as far as [os.Stat] goes. *)
Definition memEnv (fs : gmap string MemFS.Node) : Env :=
  {| MaxDirSize := 1024;
     DirChunkSize := 128;
     HomeDir := "/home/u";
     ReplaceHomeDir := fun p => p;
     DetectMimeType := fun _ _ _ => "";
     ModeString := fun _ => "";
     os_Stat := MemFS.Stat fs;
     os_ReadDir := fun _ => inr "not a directory";
     RandomHexString := fun _ => Some "00";
     os_CreateOk := fun _ => true;
     os_OpenAppendOk := fun _ => true;
     ExpandHomeDir := fun p => inl p;
     os_DirFS := fun _ => inr "not a directory" |}.

(** A file system that holds the directory [/srv] and in it the file
    [f] of three bytes. *)
Definition fsSrv : gmap string MemFS.Node :=
  <["/srv/f" := MemFS.File [Byte.x61; Byte.x62; Byte.x63] 420]>
    (<["/srv" := MemFS.Directory 493]> ∅).

(** * Properties *)

(** ** Sanity checks of the path functions and the parser *)

Example Clean_dots : filepath.Clean "/a/./b/../c//" = "/a/c".
Proof. reflexivity. Qed.
Example Clean_climbs : filepath.Clean "a/../.." = "..".
Proof. reflexivity. Qed.
Example Clean_empty : filepath.Clean "" = ".".
Proof. reflexivity. Qed.
Example Clean_root_parent : filepath.Clean "/.." = "/".
Proof. reflexivity. Qed.
Example Dir_of_file : filepath.Dir "/a/b" = "/a".
Proof. reflexivity. Qed.
Example Dir_of_root : filepath.Dir "/" = "/".
Proof. reflexivity. Qed.
Example Join_relative : filepath.Join "/a" "b/c" = "/a/b/c".
Proof. reflexivity. Qed.
Example parse_plain : parseByteRange "10-20" = inl (mkByteRange false 10 20).
Proof. reflexivity. Qed.
Example parse_reversed : parseByteRange "20-10" = inr ErrInvalidByteRange.
Proof. reflexivity. Qed.
Example parse_negative : parseByteRange "-1-5" = inr ErrInvalidByteRange.
Proof. reflexivity. Qed.
Example parse_no_dash : parseByteRange "15" = inr ErrInvalidByteRange.
Proof. reflexivity. Qed.
Example parse_overflow :
  parseByteRange "1-9223372036854775808" = inr ErrInvalidByteRange.
Proof. reflexivity. Qed.
Example itoa_sample : itoa 1234567890123 = "1234567890123".
Proof. reflexivity. Qed.
Example parse_space_before_dash : parseByteRange "1 -2" = inr ErrInvalidByteRange.
Proof. reflexivity. Qed.
Example parse_space_after_dash :
  parseByteRange "1- 2" = inl (mkByteRange false 1 2).
Proof. reflexivity. Qed.
Example parse_missing_end : parseByteRange "1-" = inr ErrInvalidByteRange.
Proof. reflexivity. Qed.
Example parse_max :
  parseByteRange "0-9223372036854775807"
  = inl (mkByteRange false 0 9223372036854775807).
Proof. reflexivity. Qed.

(** ** parseByteRange *)

(** *** Decimal digits *)

Lemma digit_cases (d : Z) :
  0 <= d <= 9 ->
  d = 0 \/ d = 1 \/ d = 2 \/ d = 3 \/ d = 4 \/ d = 5 \/ d = 6 \/ d = 7 \/
  d = 8 \/ d = 9.
Proof. lia. Qed.

Ltac each_digit d H :=
  destruct (digit_cases d H) as
    [-> | [-> | [-> | [-> | [-> | [-> | [-> | [-> | [-> | ->]]]]]]]]].

Lemma digitChar_isDigit (d : Z) :
  0 <= d <= 9 -> Sscanf.isDigit (digitChar d) = true.
Proof. intros H. each_digit d H; reflexivity. Qed.

Lemma digitChar_value (d : Z) :
  0 <= d <= 9 -> Sscanf.digitVal (digitChar d) = d.
Proof. intros H. each_digit d H; reflexivity. Qed.

Lemma digitChar_no_space (d : Z) (r : string) :
  0 <= d <= 9 -> Sscanf.spaceLen (String (digitChar d) r) = 0%nat.
Proof.
  intros H.
  each_digit d H; destruct r as [|b [|c r']]; reflexivity.
Qed.

Lemma digitChar_not_newline (d : Z) :
  0 <= d <= 9 -> Sscanf.isNewline (digitChar d) = false.
Proof. intros H. each_digit d H; reflexivity. Qed.

Lemma digitChar_no_sign (d : Z) (r : string) :
  0 <= d <= 9 ->
  Sscanf.acceptSign (String (digitChar d) r) = (false, String (digitChar d) r).
Proof. intros H. each_digit d H; reflexivity. Qed.

Lemma append_cons (c : ascii) (s t : string) :
  String c s +:+ t = String c (s +:+ t).
Proof. reflexivity. Qed.

Lemma append_nil (t : string) : "" +:+ t = t.
Proof. reflexivity. Qed.

Lemma digitString_app (a b : list Z) :
  digitString (a ++ b) = digitString a +:+ digitString b.
Proof.
  induction a as [|d a IH]; simpl; [reflexivity |].
  now rewrite append_cons, IH.
Qed.

Lemma scanNumber_digits (ds : list Z) (r : string) :
  Forall (fun d => 0 <= d <= 9) ds ->
  match r with
  | EmptyString => True
  | String c _ => Sscanf.isDigit c = false
  end ->
  Sscanf.scanNumber (digitString ds +:+ r) = (digitString ds, r).
Proof.
  intros Hds Hr. induction Hds as [|d ds Hd _ IH]; simpl.
  - destruct r as [|c r']; [reflexivity | simpl; now rewrite Hr].
  - rewrite digitChar_isDigit by assumption.
    change (String.app (digitString ds) r) with (digitString ds +:+ r).
    now rewrite IH.
Qed.

Lemma digitsValue_snoc (ds : list Z) (d a : Z) :
  Sscanf.digitsValue a (digitString (ds ++ [d]))
  = 10 * Sscanf.digitsValue a (digitString ds) + Sscanf.digitVal (digitChar d).
Proof.
  revert a. induction ds as [|x ds IH]; intros a; simpl; [reflexivity | apply IH].
Qed.

Lemma append_snoc (s : string) (c : ascii) (acc : string) :
  s +:+ String c acc = (s +:+ String c "") +:+ acc.
Proof.
  induction s as [|x s IH]; [reflexivity |].
  now rewrite !append_cons, IH.
Qed.

Lemma append_empty (s : string) : s +:+ "" = s.
Proof.
  induction s as [|x s IH]; [reflexivity |].
  now rewrite !append_cons, IH.
Qed.

(** The digits of [itoa]. *)
Lemma itoa_aux_digits (fuel : nat) :
  forall n acc, 0 <= n < 10 ^ Z.of_nat fuel ->
    exists ds, itoa_aux fuel n acc = digitString ds +:+ acc /\
               Forall (fun d => 0 <= d <= 9) ds /\
               (fuel <> 0%nat -> ds <> []) /\
               Sscanf.digitsValue 0 (digitString ds) = n.
Proof.
  induction fuel as [|fuel IH]; intros n acc Hn.
  - exists []. simpl in *. split; [reflexivity | split; [constructor | split; [congruence | lia]]].
  - simpl itoa_aux. 
    assert (Hd : 0 <= n mod 10 <= 9) by (pose proof (Z.mod_pos_bound n 10); lia).
    destruct (n <? 10) eqn:Hlt.
    + apply Z.ltb_lt in Hlt. exists [n mod 10]. simpl.
      split; [reflexivity | split; [| split]].
      * constructor; [assumption | constructor].
      * intros _. discriminate.
      * rewrite digitChar_value by assumption. rewrite Z.mod_small; lia.
    + apply Z.ltb_ge in Hlt.
      assert (Hq : 0 <= n / 10 < 10 ^ Z.of_nat fuel).
      { split; [apply Z.div_pos; lia |].
        apply Z.div_lt_upper_bound; [lia |].
        replace (Z.of_nat (S fuel)) with (Z.succ (Z.of_nat fuel)) in Hn by lia.
        rewrite Z.pow_succ_r in Hn by lia. lia. }
      destruct (IH (n / 10) (String (digitChar (n mod 10)) acc) Hq)
        as (ds & Heq & Hall & _ & Hval).
      exists (ds ++ [n mod 10]). split; [| split; [| split]].
      * rewrite Heq, digitString_app. simpl. apply append_snoc.
      * apply Forall_app; split; [assumption | constructor; [assumption | constructor]].
      * intros _. destruct ds; discriminate.
      * rewrite digitsValue_snoc, Hval, digitChar_value by assumption.
        pose proof (Z.div_mod n 10). lia.
Qed.

Lemma itoa_digits (n : Z) :
  0 <= n ->
  exists d ds, itoa n = digitString (d :: ds) /\
               Forall (fun d => 0 <= d <= 9) (d :: ds) /\
               Sscanf.digitsValue 0 (digitString (d :: ds)) = n.
Proof.
  intros Hn. unfold itoa.
  destruct (itoa_aux_digits (S (Z.to_nat (Z.log2 n))) n "") as (ds & Heq & Hall & Hne & Hval).
  { split; [assumption |].
    destruct (Z.eq_dec n 0) as [-> | Hnz]; [reflexivity |].
    pose proof (Z.log2_spec n ltac:(lia)) as [_ Hub].
    pose proof (Z.log2_nonneg n).
    replace (Z.of_nat (S (Z.to_nat (Z.log2 n)))) with (Z.succ (Z.log2 n)) by lia.
    eapply Z.lt_le_trans; [exact Hub |].
    apply Z.pow_le_mono_l. lia. }
  destruct ds as [|d ds]; [exfalso; now apply Hne |].
  exists d, ds. split; [| split; assumption].
  rewrite Heq. apply append_empty.
Qed.

(** Scanning a digit string that is followed by no digit. *)
Lemma scanInt_digits (d : Z) (ds : list Z) (r : string) :
  Forall (fun d => 0 <= d <= 9) (d :: ds) ->
  match r with
  | EmptyString => True
  | String c _ => Sscanf.isDigit c = false
  end ->
  Sscanf.digitsValue 0 (digitString (d :: ds)) <= int64_max ->
  0 <= Sscanf.digitsValue 0 (digitString (d :: ds)) ->
  Sscanf.scanInt (digitString (d :: ds) +:+ r)
  = Some (Sscanf.digitsValue 0 (digitString (d :: ds)), r).
Proof.
  intros Hall Hr Hmax Hmin.
  assert (Hd : 0 <= d <= 9) by (inversion Hall; assumption).
  unfold Sscanf.scanInt, Sscanf.SkipSpace.
  change (digitString (d :: ds) +:+ r)
    with (String (digitChar d) (digitString ds +:+ r)).
  cbn [String.length Sscanf.SkipSpace_fuel].
  rewrite digitChar_not_newline, digitChar_no_space by assumption.
  rewrite digitChar_no_sign by assumption.
  change (String (digitChar d) (digitString ds +:+ r))
    with (digitString (d :: ds) +:+ r).
  rewrite scanNumber_digits by assumption.
  cbn [digitString]. unfold Sscanf.ParseInt.
  change (String (digitChar d) (digitString ds)) with (digitString (d :: ds)).
  set (v := Sscanf.digitsValue 0 (digitString (d :: ds))) in *.
  assert (Hlo : int64_min <= v) by (unfold int64_min; lia).
  apply Z.leb_le in Hlo, Hmax. now rewrite Hlo, Hmax.
Qed.

Lemma parseByteRange_itoa (s e : Z) :
  0 <= s -> s <= e -> e <= int64_max ->
  parseByteRange (itoa s +:+ "-" +:+ itoa e) = inl (mkByteRange false s e).
Proof.
  intros Hs Hse He.
  destruct (itoa_digits s Hs) as (d1 & ds1 & E1 & A1 & V1).
  destruct (itoa_digits e ltac:(lia)) as (d2 & ds2 & E2 & A2 & V2).
  unfold parseByteRange, Sscanf.Sscanf_d_dash_d.
  rewrite E1, E2.
  replace (String.eqb (digitString (d1 :: ds1) +:+ "-" +:+ digitString (d2 :: ds2)) "")
    with false by reflexivity.
  rewrite (scanInt_digits d1 ds1 ("-" +:+ digitString (d2 :: ds2)));
    [| assumption | reflexivity | lia | lia].
  change (Sscanf.literalDash ("-" +:+ digitString (d2 :: ds2)))
    with (Some (digitString (d2 :: ds2))).
  cbv iota beta.
  rewrite <- (append_empty (digitString (d2 :: ds2))).
  rewrite (scanInt_digits d2 ds2 ""); [| assumption | exact I | lia | lia].
  rewrite V1, V2.
  assert (H1 : (s <? 0) = false) by (apply Z.ltb_ge; lia).
  assert (H2 : (e <? 0) = false) by (apply Z.ltb_ge; lia).
  assert (H3 : (s >? e) = false) by (rewrite Z.gtb_ltb; apply Z.ltb_ge; lia).
  now rewrite H1, H2, H3.
Qed.

Lemma parseByteRange_accepted (str : string) (r : ByteRangeType) :
  str <> "" -> parseByteRange str = inl r ->
  All r = false /\ 0 <= Start r <= End_ r /\
  Sscanf.Sscanf_d_dash_d str = Some (Start r, End_ r).
Proof.
  intros Hne. unfold parseByteRange.
  destruct (String.eqb_spec str "") as [-> | _]; [congruence |].
  destruct (Sscanf.Sscanf_d_dash_d str) as [[a b]|]; [| discriminate].
  destruct ((a <? 0) || (b <? 0) || (a >? b)) eqn:Hbad; [discriminate |].
  intros [= <-]. cbn [All Start End_].
  apply orb_false_iff in Hbad as [Hbad Hgt].
  apply orb_false_iff in Hbad as [Ha Hb].
  apply Z.ltb_ge in Ha, Hb. rewrite Z.gtb_ltb in Hgt. apply Z.ltb_ge in Hgt.
  repeat split; try reflexivity; lia.
Qed.

Lemma parseByteRange_rejected (str : string) :
  str <> "" ->
  (Sscanf.Sscanf_d_dash_d str = None \/
   exists a b, Sscanf.Sscanf_d_dash_d str = Some (a, b) /\
               (a < 0 \/ b < 0 \/ a > b)) ->
  parseByteRange str = inr ErrInvalidByteRange.
Proof.
  intros Hne Hbad. unfold parseByteRange.
  destruct (String.eqb_spec str "") as [-> | _]; [congruence |].
  destruct Hbad as [-> | (a & b & -> & Hab)]; [reflexivity |].
  replace ((a <? 0) || (b <? 0) || (a >? b)) with true; [reflexivity |].
  symmetry. rewrite !orb_true_iff, !Z.ltb_lt, Z.gtb_ltb, Z.ltb_lt. lia.
Qed.

(** C6, as amended.  The empty string is the whole-file range.  A string
    written as <start>-<end> in decimal with [0 <= start <= end] within
    int64 parses to exactly these bounds.  Whatever other string is
    accepted yields bounds with [0 <= start <= end], namely the two
    integers that Sscanf reads from it; and a string from which Sscanf
    reads no two integers, or reads a negative one, or reads a start above
    the end, yields the malformed-range error.  (That only strings exactly
    of the form are accepted does not hold: see
    [parseByteRange_trailing_text].) *)
Theorem parseByteRange_amended :
  parseByteRange "" = inl (mkByteRange true 0 0) /\
  (forall s e, 0 <= s -> s <= e -> e <= int64_max ->
     parseByteRange (itoa s +:+ "-" +:+ itoa e) = inl (mkByteRange false s e)) /\
  (forall str r, str <> "" -> parseByteRange str = inl r ->
     All r = false /\ 0 <= Start r <= End_ r /\
     Sscanf.Sscanf_d_dash_d str = Some (Start r, End_ r)) /\
  (forall str, str <> "" ->
     (Sscanf.Sscanf_d_dash_d str = None \/
      exists a b, Sscanf.Sscanf_d_dash_d str = Some (a, b) /\
                  (a < 0 \/ b < 0 \/ a > b)) ->
     parseByteRange str = inr ErrInvalidByteRange).
Proof.
  split; [reflexivity |].
  split; [exact parseByteRange_itoa |].
  split; [exact parseByteRange_accepted | exact parseByteRange_rejected].
Qed.

(** The theorem at the range 3-7 and at the string "7-3". *)
Lemma parseByteRange_amended_witness :
  parseByteRange (itoa 3 +:+ "-" +:+ itoa 7) = inl (mkByteRange false 3 7) /\
  parseByteRange "7-3" = inr ErrInvalidByteRange.
Proof.
  split.
  - apply (proj1 (proj2 parseByteRange_amended)); unfold int64_max; lia.
  - apply (proj2 (proj2 (proj2 parseByteRange_amended))).
    + discriminate.
    + right. exists 7, 3. split; [reflexivity | lia].
Defined.

(** C6, counterexample: the string 1-2x is not of the form <start>-<end>,
    and it is accepted, as the range 1-2; so are a string with a leading
    blank and one with an explicit plus sign. *)
Lemma parseByteRange_trailing_text :
  exactRangeForm "1-2x" = false /\
  parseByteRange "1-2x" = inl (mkByteRange false 1 2) /\
  exactRangeForm " 1-2" = false /\
  parseByteRange " 1-2" = inl (mkByteRange false 1 2) /\
  exactRangeForm "+1-2" = false /\
  parseByteRange "+1-2" = inl (mkByteRange false 1 2).
Proof. repeat split; reflexivity. Qed.

(** ** Streaming a regular file *)

Section StreamRegularFacts.

Variable FileChunkSize : nat.
Variable os_Open : string -> OpenedFile + string.
Hypothesis chunk_pos : (0 < FileChunkSize)%nat.

(** What a read that does not fail delivers. *)
Lemma fdRead_ok (f : OpenedFile) (off : nat) :
  readFails f off = false ->
  exists n : nat,
    (n <= length (fileBytes f) - off)%nat /\
    (n = 0%nat <-> (length (fileBytes f) <= off)%nat) /\
    fdRead FileChunkSize f off
    = (take n (drop off (fileBytes f)),
       if (n =? 0)%nat then Some EOF else None).
Proof.
  intros Hok. unfold fdRead. rewrite Hok.
  set (want := Nat.min FileChunkSize (Nat.max 1 (readLen f off))).
  assert (Hw : (1 <= want)%nat) by (unfold want; lia).
  exists (Nat.min want (length (fileBytes f) - off)).
  split; [lia |]. split; [lia |].
  destruct (Nat.min want (length (fileBytes f) - off)) as [|k] eqn:E.
  - replace (FileChunkSize =? 0)%nat with false
      by (symmetry; apply Nat.eqb_neq; lia).
    reflexivity.
  - reflexivity.
Qed.

(** The loop from offset [off], the position it accounts being [off] too:
    it returns, and what it emits from there on is the file from [off] up
    to the end of the range, end excluded. *)
Lemma streamRegularLoop_range (f : OpenedFile) (start end_ : Z) :
  (forall off, readFails f off = false) ->
  forall (fuel poll off : nat) (out : list (list Byte.byte)),
    Z.of_nat off <= end_ ->
    (length (fileBytes f) - off < fuel)%nat ->
    exists out',
      streamRegularLoop FileChunkSize fuel None f (mkByteRange false start end_)
                        poll off (Z.of_nat off) out
      = Some (out', None) /\
      concat out'
      = concat out ++ take (Z.to_nat end_ - off) (drop off (fileBytes f)).
Proof.
  intros Hok. induction fuel as [|fuel IH]; intros poll off out Hle Hfuel; [lia |].
  cbn [streamRegularLoop ctxErr].
  destruct (fdRead_ok f off (Hok off)) as (n & Hn & Hz & ->).
  assert (Hlen : length (take n (drop off (fileBytes f))) = n)
    by (rewrite length_take, length_drop; lia).
  rewrite Hlen. cbn [All End_ negb andb].
  destruct n as [|k].
  - (* end of file *)
    cbn [Nat.eqb]. change (Z.of_nat 0 >? 0) with false. cbv iota.
    assert (Hdrop : drop off (fileBytes f) = []) by (apply drop_ge; lia).
    exists out. rewrite Hdrop, take_nil, app_nil_r.
    split; [| reflexivity].
    destruct (Z.of_nat off >=? end_); reflexivity.
  - set (n := S k) in *.
    replace (Z.of_nat n >? 0) with true by (symmetry; apply Z.gtb_lt; lia).
    cbv iota.
    replace (n =? 0)%nat with false by (symmetry; apply Nat.eqb_neq; lia).
    destruct (Z.of_nat off + Z.of_nat n >? end_) eqn:Hclip.
    + (* the read reaches past the end of the range: clipped *)
      apply Z.gtb_lt in Hclip.
      replace (Z.of_nat off + (end_ - Z.of_nat off) >=? end_) with true
        by (symmetry; apply Z.geb_le; lia).
      eexists. split; [reflexivity |].
      rewrite concat_app. cbn [concat]. rewrite app_nil_r.
      rewrite take_take. f_equal. f_equal. lia.
    + rewrite Z.gtb_ltb in Hclip. apply Z.ltb_ge in Hclip.
      rewrite Nat2Z.id.
      assert (Hbuf : take n (take n (drop off (fileBytes f)))
                     = take n (drop off (fileBytes f))) by apply take_idemp.
      rewrite Hbuf.
      destruct (Z.of_nat off + Z.of_nat n >=? end_) eqn:Hend.
      * apply Z.geb_le in Hend.
        eexists. split; [reflexivity |].
        rewrite concat_app. cbn [concat]. rewrite app_nil_r.
        f_equal. f_equal. lia.
      * rewrite Z.geb_leb in Hend. apply Z.leb_gt in Hend.
        replace (Z.of_nat off + Z.of_nat n) with (Z.of_nat (off + n)) by lia.
        destruct (IH (S poll) (off + n)%nat
                     (out ++ [take n (drop off (fileBytes f))]))
          as (out' & Hrun & Hcat); [lia | lia |].
        exists out'. split; [exact Hrun |].
        rewrite Hcat, concat_app. cbn [concat]. rewrite app_nil_r, <- app_assoc.
        f_equal.
        replace (drop (off + n) (fileBytes f))
          with (drop n (drop off (fileBytes f)))
          by (rewrite drop_drop; reflexivity).
        rewrite take_take_drop. f_equal. lia.
Qed.

(** C4, as amended.  A byte-range request {start, end} on a regular file
    that is read without faults, under a context that is not cancelled,
    returns without error, having closed the file it opened; the chunks it
    emits, concatenated in order, are exactly the bytes of the file at the
    offsets [start <= i < end] (clipped at the end of the file): the byte
    at offset [end] itself is not emitted, and none past it. *)
Theorem remoteStreamFileRegular_range (path : string) (f : OpenedFile)
        (start end_ : Z) (fuel : nat) :
  os_Open path = inl f ->
  (forall off, readFails f off = false) ->
  seekFails f = false ->
  0 <= start <= end_ ->
  (length (fileBytes f) < fuel)%nat ->
  exists out,
    remoteStreamFileRegular FileChunkSize os_Open fuel None path
                            (mkByteRange false start end_)
    = Some (out, None, [HOpen (HFile path); HClose (HFile path)]) /\
    concat out = spanHalfOpen start end_ (fileBytes f) /\
    (Z.of_nat (length (concat out)) <= end_ - start).
Proof.
  intros Hopen Hok Hseek Hrange Hfuel.
  unfold remoteStreamFileRegular. rewrite Hopen. cbn [All Start negb andb].
  assert (Hloop : exists out,
             streamRegularLoop FileChunkSize fuel None f
                               (mkByteRange false start end_) 0
                               (Z.to_nat start) start []
             = Some (out, None) /\
             concat out = spanHalfOpen start end_ (fileBytes f)).
  { destruct (streamRegularLoop_range f start end_ Hok fuel 0%nat
                                      (Z.to_nat start) [])
      as (out & Hrun & Hcat); [lia | lia |].
    rewrite Z2Nat.id in Hrun by lia.
    exists out. split; [exact Hrun |].
    rewrite Hcat. cbn [concat app]. unfold spanHalfOpen. f_equal. lia. }
  destruct Hloop as (out & Hrun & Hcat).
  exists out.
  assert (Hlen : Z.of_nat (length (concat out)) <= end_ - start).
  { rewrite Hcat. unfold spanHalfOpen. rewrite length_take. lia. }
  destruct (start >? 0) eqn:Hpos.
  - rewrite Hseek, Hrun. repeat split; assumption.
  - rewrite Z.gtb_ltb in Hpos. apply Z.ltb_ge in Hpos.
    assert (start = 0) as -> by lia.
    change (Z.to_nat 0) with 0%nat in Hrun. rewrite Hrun.
    repeat split; assumption.
Qed.

End StreamRegularFacts.

(** The theorem at the three-byte file and the range 1-2. *)
Lemma remoteStreamFileRegular_range_witness :
  exists out,
    remoteStreamFileRegular 16 (fun _ => inl abcFile) 4 None "f"
                            (mkByteRange false 1 2)
    = Some (out, None, [HOpen (HFile "f"); HClose (HFile "f")]) /\
    concat out = spanHalfOpen 1 2 (fileBytes abcFile) /\
    (Z.of_nat (length (concat out)) <= 2 - 1).
Proof.
  apply (remoteStreamFileRegular_range 16 (fun _ => inl abcFile)).
  - lia.
  - reflexivity.
  - intros off. reflexivity.
  - reflexivity.
  - lia.
  - simpl. lia.
Defined.

(** C4, counterexample: for the range 0-1 on a file of three bytes the
    chunks emitted hold the first byte only, not the two bytes of the
    span [0, 1]. *)
Lemma remoteStreamFileRegular_end_excluded :
  remoteStreamFileRegular 16 (fun _ => inl abcFile) 4 None "f"
                          (mkByteRange false 0 1)
  = Some ([[Byte.x61]], None, [HOpen (HFile "f"); HClose (HFile "f")]) /\
  spanClosed 0 1 (fileBytes abcFile) = [Byte.x61; Byte.x62] /\
  concat [[Byte.x61]] <> spanClosed 0 1 (fileBytes abcFile).
Proof. repeat split; try reflexivity. discriminate. Qed.

(** ** Directory streaming and recursive listing *)

(** *** Walking a tree *)

(** Induction over trees, with the property available for every child. *)
Fixpoint FsNode_forest_ind (P : FsNode -> Prop)
         (Hfile : forall name info, P (NFile name info))
         (Hdir : forall name info readErr children,
             Forall P children -> P (NDir name info readErr children))
         (n : FsNode) {struct n} : P n :=
  match n with
  | NFile name info => Hfile name info
  | NDir name info readErr children =>
      Hdir name info readErr children
           ((fix all (l : list FsNode) : Forall P l :=
               match l with
               | [] => @List.Forall_nil _ P
               | c :: r =>
                   @List.Forall_cons _ P c r (FsNode_forest_ind P Hfile Hdir c) (all r)
               end) children)
  end.

Section WalkFacts.

Variable fn : WalkState -> option DirEntry -> option WalkErr
              -> WalkState * option WalkErr.

Lemma visitAll_app (l1 l2 : list DirEntry) (st : WalkState) :
  visitAll fn (l1 ++ l2) st
  = match visitAll fn l1 st with
    | (st', Some e) => (st', Some e)
    | (st', None) => visitAll fn l2 st'
    end.
Proof.
  revert st. induction l1 as [|d l1 IH]; intros st; cbn [visitAll app].
  - reflexivity.
  - destruct (fn st (Some d) None) as [st' [e|]]; [reflexivity | apply IH].
Qed.

Lemma walkDir_visitAll (n : FsNode) :
  readable n = true ->
  forall st, walkDir fn n st = visitAll fn (visitOrder n) st.
Proof.
  induction n as [name info | name info readErr children IH]
    using FsNode_forest_ind; intros Hr st.
  - cbn [walkDir visitOrder visitAll].
    destruct (fn st (Some (entryOf (NFile name info))) None) as [st' [e|]];
      reflexivity.
  - cbn [readable] in Hr. destruct readErr as [msg|]; [discriminate |].
    cbn [walkDir visitOrder visitAll].
    destruct (fn st (Some (entryOf (NDir name info None children))) None)
      as [st1 [e|]]; [reflexivity |].
    clear st. revert st1.
    induction children as [|c r IHr]; intros st1; cbn [flat_map visitAll].
    + reflexivity.
    + cbn [forallb] in Hr. apply andb_true_iff in Hr as [Hc Hrest].
      inversion IH as [|? ? IHc IHrest]; subst.
      rewrite visitAll_app, (IHc Hc st1).
      destruct (visitAll fn (visitOrder c) st1) as [st' [e|]]; [reflexivity |].
      apply IHr; assumption.
Qed.

End WalkFacts.

Lemma wrap64_small (z : Z) : 0 <= z <= int64_max -> wrap64 z = z.
Proof.
  unfold wrap64, int64_max. intros H.
  rewrite Z.mod_small; lia.
Qed.

Lemma listCallback_visit (Offset Limit k : Z) (acc : list DirEntry)
      (d : DirEntry) :
  wrap64 (Offset + Limit) = Offset + Limit ->
  listCallback Offset Limit (mkWalkState k acc) (Some d) None
  = if k <? Offset then (mkWalkState (k + 1) acc, None)
    else if k >=? Offset + Limit then (mkWalkState (k + 1) acc, Some WalkEOF)
    else if deIsDir d then (mkWalkState (k + 1) acc, None)
    else (mkWalkState (k + 1) (acc ++ [d]), None).
Proof. intros Hw. unfold listCallback. now rewrite Hw. Qed.

(** The callback of the lister over a sequence of entries: the files
    whose visit index lies in the window are gathered, and the visits end
    with the entry whose index is the end of the window. *)
Lemma visitAll_window (Offset Limit : Z) :
  0 <= Offset -> 0 <= Limit -> Offset + Limit <= int64_max ->
  forall (l : list DirEntry) (k : Z) (acc : list DirEntry) st' e,
    0 <= k <= Offset + Limit ->
    visitAll (listCallback Offset Limit) l (mkWalkState k acc) = (st', e) ->
    innerFilesEntries st'
    = acc ++ filter (fun d => isFileEntry d = true)
                    (take (Z.to_nat (Offset + Limit - Z.max Offset k))
                          (drop (Z.to_nat (Offset - k)) l)) /\
    seen st' = Z.min (k + Z.of_nat (length l)) (Offset + Limit + 1).
Proof.
  intros HO HL Hmax.
  assert (Hw : wrap64 (Offset + Limit) = Offset + Limit)
    by (apply wrap64_small; lia).
  induction l as [|d l IH]; intros k acc st' e Hk Hrun.
  - cbn [visitAll] in Hrun. injection Hrun as <- <-.
    cbn [innerFilesEntries seen length].
    rewrite drop_nil, take_nil. cbn. rewrite app_nil_r. split; [reflexivity | lia].
  - cbn [visitAll] in Hrun. rewrite (listCallback_visit _ _ _ _ _ Hw) in Hrun.
    cbn [length].
    destruct (k <? Offset) eqn:Hlo.
    + apply Z.ltb_lt in Hlo.
      destruct (IH (k + 1) acc st' e ltac:(lia) Hrun) as [IHe IHs].
      rewrite IHe, IHs. split; [| lia].
      f_equal.
      replace (Z.to_nat (Offset - k)) with (S (Z.to_nat (Offset - (k + 1)))) by lia.
      cbn [drop]. do 2 f_equal. lia.
    + apply Z.ltb_ge in Hlo.
      destruct (k >=? Offset + Limit) eqn:Hhi.
      * apply Z.geb_le in Hhi. injection Hrun as <- <-.
        cbn [innerFilesEntries seen].
        replace (Z.to_nat (Offset + Limit - Z.max Offset k)) with 0%nat by lia.
        rewrite take_0. cbn. rewrite app_nil_r. split; [reflexivity | lia].
      * rewrite Z.geb_leb in Hhi. apply Z.leb_gt in Hhi.
        replace (Z.to_nat (Offset - k)) with 0%nat by lia. cbn [drop].
        replace (Z.to_nat (Offset + Limit - Z.max Offset k))
          with (S (Z.to_nat (Offset + Limit - Z.max Offset (k + 1)))) by lia.
        cbn [take].
        destruct (deIsDir d) eqn:Hd.
        -- destruct (IH (k + 1) acc st' e ltac:(lia) Hrun) as [IHe IHs].
           rewrite IHe, IHs.
           replace (Z.to_nat (Offset - (k + 1))) with 0%nat by lia. cbn [drop].
           split; [| lia].
           rewrite filter_cons_False; [reflexivity |].
           unfold isFileEntry. rewrite Hd. discriminate.
        -- destruct (IH (k + 1) (acc ++ [d]) st' e ltac:(lia) Hrun) as [IHe IHs].
           rewrite IHe, IHs.
           replace (Z.to_nat (Offset - (k + 1))) with 0%nat by lia. cbn [drop].
           split; [| lia].
           rewrite filter_cons_True by (unfold isFileEntry; now rewrite Hd).
           now rewrite <- app_assoc.
Qed.

Section ListingFacts.

Variable env : Env.

Lemma childInfos_cons (path : string) (e : DirEntry) (entries : list DirEntry) :
  childInfos env path (e :: entries)
  = match deInfo e with
    | inl fi =>
        statToFileInfo env (filepath.Join path (fiName fi)) fi false
          :: childInfos env path entries
    | inr _ => childInfos env path entries
    end.
Proof. unfold childInfos. simpl. destruct (deInfo e); reflexivity. Qed.

(** Without cancellation the batching loop hands on every entry whose
    metadata can be read, in order, after those it was given. *)
Lemma streamEntries_all (path : string) :
  forall (entries : list DirEntry) (poll : nat) (arr : list FileInfo)
         (sent : list (list FileInfo)),
  exists sent' arr',
    streamEntries env None path poll entries arr sent = (sent', arr', None) /\
    concat sent' ++ arr' = concat sent ++ arr ++ childInfos env path entries.
Proof.
  induction entries as [|e entries IH]; intros poll arr sent.
  - exists sent, arr. split; [reflexivity |].
    unfold childInfos. simpl. now rewrite app_nil_r.
  - cbn [streamEntries ctxErr]. rewrite childInfos_cons.
    destruct (deInfo e) as [fi | msg].
    + set (info := statToFileInfo env (filepath.Join path (fiName fi)) fi false).
      destruct (Z.of_nat (length (arr ++ [info])) >=? DirChunkSize env).
      * destruct (IH (S poll) [] (sent ++ [arr ++ [info]]))
          as (sent' & arr' & Hrun & Hcat).
        exists sent', arr'. split; [exact Hrun |].
        rewrite Hcat, concat_app. cbn [concat app].
        rewrite app_nil_r, <- !app_assoc. reflexivity.
      * destruct (IH (S poll) (arr ++ [info]) sent)
          as (sent' & arr' & Hrun & Hcat).
        exists sent', arr'. split; [exact Hrun |].
        rewrite Hcat, <- !app_assoc. reflexivity.
    + apply IH.
Qed.

Lemma flushEntries_all (path : string) (entries : list DirEntry)
      (arr : list FileInfo) :
  exists batches,
    flushEntries (streamEntries env None path 0 entries arr [])
    = (batches, None) /\
    concat batches = arr ++ childInfos env path entries.
Proof.
  destruct (streamEntries_all path entries 0%nat arr [])
    as (sent' & arr' & Hrun & Hcat).
  rewrite Hrun. cbn [flushEntries concat app] in *.
  destruct arr' as [|x arr'].
  - exists sent'. split; [reflexivity |]. now rewrite app_nil_r in Hcat.
  - exists (sent' ++ [x :: arr']). split.
    + cbn [length]. replace (0 <? Z.of_nat (S (length arr'))) with true
        by (symmetry; apply Z.ltb_lt; lia).
      reflexivity.
    + rewrite concat_app. cbn [concat]. now rewrite app_nil_r.
Qed.

(** C8, as amended.  Streaming a directory of N children whose read
    succeeds, under a context that is not cancelled.  With a byte range
    whose start is N or more the result is empty and no error.  Otherwise
    there is no error and the entries returned, in order over the batches,
    are: first the synthesized parent entry, named ".." with size -1, when
    the parent differs from the path and the stat of the parent does not
    fail with an error other than not-exist; then the children selected,
    which without a byte range are the children truncated to the maximum
    directory size, and with a byte range the children at indices
    [start, min(end, N)).  When the parent equals the path, or the stat of
    the parent fails with another error, there is no parent entry and the
    children are returned all the same. *)
Theorem remoteStreamFileDir_listing (path : string)
        (byteRange : ByteRangeType) (entries : list DirEntry) :
  os_ReadDir env path = inl entries ->
  0 <= MaxDirSize env ->
  (All byteRange = false -> 0 <= Start byteRange <= End_ byteRange) ->
  let N := Z.of_nat (length entries) in
  let children := childInfos env path (selectedChildren env byteRange entries) in
  let parent := filepath.Dir path in
  let parentStat :=
    os_Stat env (filepath.Clean (ExpandHomeDirSafe (HomeDir env) parent)) in
  (All byteRange = false -> N <= Start byteRange ->
   remoteStreamFileDir env None path byteRange = ([], None)) /\
  (All byteRange = true \/ Start byteRange < N ->
   exists batches,
     remoteStreamFileDir env None path byteRange = (batches, None) /\
     (parent <> path ->
      (forall msg, parentStat <> StatError msg) ->
      exists up, Name up = ".." /\ Size up = -1 /\
                 concat batches = up :: children) /\
     (parent = path \/ (exists msg, parentStat = StatError msg) ->
      concat batches = children)).
Proof.
  intros Hread Hmax Hrange N children parent parentStat.
  unfold remoteStreamFileDir. rewrite Hread. fold N. split.
  - intros Hall Hstart. rewrite Hall.
    replace (Start byteRange >=? N) with true
      by (symmetry; apply Z.geb_le; lia).
    reflexivity.
  - intros Hsel.
    set (sliced := if All byteRange then _ else _).
    assert (Hsl : sliced = Some (selectedChildren env byteRange entries)).
    { unfold sliced, selectedChildren. destruct (All byteRange) eqn:Hall.
      - f_equal. destruct (N >? MaxDirSize env) eqn:Hbig; [reflexivity |].
        rewrite Z.gtb_ltb in Hbig. apply Z.ltb_ge in Hbig.
        symmetry. apply take_ge. unfold N in Hbig. lia.
      - destruct Hsel as [? | Hlt]; [discriminate |].
        replace (Start byteRange >=? N) with false
          by (symmetry; rewrite Z.geb_leb; apply Z.leb_gt; lia).
        fold N. f_equal. f_equal.
        destruct (End_ byteRange >? N) eqn:Hend.
        + apply Z.gtb_lt in Hend. rewrite Z.min_r by lia. reflexivity.
        + rewrite Z.gtb_ltb in Hend. apply Z.ltb_ge in Hend.
          rewrite Z.min_l by lia. reflexivity. }
    rewrite Hsl. fold parent.
    set (arr := match fileInfoInternal env parent false with
                | inl _ => _ | inr _ => _ end).
    destruct (flushEntries_all path (selectedChildren env byteRange entries) arr)
      as (batches & Hrun & Hcat).
    exists batches. split; [exact Hrun |]. fold children in Hcat.
    assert (Hinfo : match parentStat with
                    | StatError _ =>
                        exists e, fileInfoInternal env parent false = inr e
                    | _ => exists parentInfo,
                        fileInfoInternal env parent false = inl parentInfo
                    end).
    { unfold fileInfoInternal. fold parentStat.
      destruct parentStat; eexists; reflexivity. }
    split.
    + intros Hne Hstat.
      destruct parentStat as [fi | msg | msg];
        [| | now destruct (Hstat msg)];
        destruct Hinfo as (parentInfo & Hparent);
        exists (setNameSize parentInfo ".." (-1));
        (split; [reflexivity |]); (split; [reflexivity |]);
        rewrite Hcat; unfold arr; rewrite Hparent;
        (destruct (String.eqb_spec parent path) as [Heq | _];
         [contradiction | reflexivity]).
    + intros [Heq | (msg & Hstat)].
      * rewrite Hcat. unfold arr.
        destruct (fileInfoInternal env parent false); [| reflexivity].
        rewrite Heq, String.eqb_refl. reflexivity.
      * rewrite Hstat in Hinfo. destruct Hinfo as (e & Hparent).
        rewrite Hcat. unfold arr. rewrite Hparent. reflexivity.
Qed.

(** The recursive lister on a tree that is read without faults.  Listing
    with all=true a tree in which every directory can be read, with
    an offset and a limit that are not negative (a limit of 0 standing for
    the maximum directory size): the entries gathered are exactly the
    non-directory entries among the nodes whose visit index lies in
    [offset, offset+limit), in visit order; the callback runs for no node
    beyond the one with index offset+limit, where the walk is cut short;
    and under a context that is not cancelled the entries sent are the
    metadata of the gathered ones, in order. *)
Theorem listEntries_recursive_window (path : string) (t : FsNode)
        (Offset Limit : Z) :
  os_DirFS env path = inl t ->
  readable t = true ->
  0 <= Offset -> 0 <= Limit -> 0 <= MaxDirSize env ->
  let L := if Limit =? 0 then MaxDirSize env else Limit in
  let window :=
    filter (fun d => isFileEntry d = true)
           (take (Z.to_nat L) (drop (Z.to_nat Offset) (visitOrder t))) in
  Offset + L <= int64_max ->
  listGather env path (mkFileListOpts true Offset Limit) = inl window /\
  seen (fst (WalkDir (listCallback Offset L) (inl t) (mkWalkState 0 [])))
  = Z.min (Z.of_nat (length (visitOrder t))) (Offset + L + 1) /\
  (forall dataPath, ExpandHomeDir env dataPath = inl path ->
     exists batches,
       RemoteListEntriesCommand env None dataPath
                                (mkFileListOpts true Offset Limit)
       = (batches, None) /\
       concat batches = childInfos env path window).
Proof.
  intros Htree Hread HO HL HM L window Hmax.
  assert (HL' : 0 <= L) by (unfold L; destruct (Limit =? 0); lia).
  destruct (WalkDir (listCallback Offset L) (inl t) (mkWalkState 0 []))
    as [st' e] eqn:Hwalk.
  cbn [WalkDir] in Hwalk. rewrite walkDir_visitAll in Hwalk by assumption.
  destruct (visitAll_window Offset L HO HL' Hmax (visitOrder t) 0 [] st' e
                            ltac:(lia) Hwalk) as [Hent Hseen].
  assert (Hgather : listGather env path (mkFileListOpts true Offset Limit)
                    = inl window).
  { unfold listGather. cbn [optAll optLimit optOffset]. fold L.
    rewrite Htree. cbn [WalkDir]. rewrite walkDir_visitAll by assumption.
    rewrite Hwalk. cbn [fst]. rewrite Hent. cbn [app]. unfold window.
    replace (Offset + L - Z.max Offset 0) with L by lia.
    replace (Offset - 0) with Offset by lia. reflexivity. }
  split; [exact Hgather |]. split.
  - cbn [fst]. rewrite Hseen. lia.
  - intros dataPath Hexp. unfold RemoteListEntriesCommand.
    rewrite Hexp, Hgather.
    destruct (flushEntries_all path window []) as (batches & Hrun & Hcat).
    exists batches. split; assumption.
Qed.

End ListingFacts.

(** ** The channel adapters *)

Section ReaderChanFacts.

Import iochan.

Variable sha256 : list Byte.byte -> list Byte.byte.

Lemma dataResp_not_terminal (d : list Byte.byte) :
  isTerminal (dataResp d) = false.
Proof. reflexivity. Qed.

(** A trace that is [pre ++ ev :: post] and has three events at most. *)
Ltac split_trace H pre :=
  destruct pre as [|? [|? [|? pre]]]; simplify_eq/=;
  try (destruct pre; simplify_eq/=).

Lemma ReaderChan_one_terminal (script : list ReaderTick) (h : HashState) :
  (length (filter (fun r => isTerminal r = true)
                  (sentPackets (ReaderChan sha256 script h))) <= 1)%nat.
Proof.
  revert h. induction script as [|t script IH]; intros h; [simpl; lia |].
  destruct t as [|data [[|msg]|]]; cbn [ReaderChan]; try (simpl; lia).
  destruct (0 <? length data)%nat; [| apply IH].
  cbn [hashWrite]. apply IH.
Qed.

Lemma ReaderChan_after_terminal (script : list ReaderTick) (h : HashState) :
  forall pre r post,
    ReaderChan sha256 script h = pre ++ EvSend r :: post ->
    isTerminal r = true ->
    post = [EvClose; EvCallback].
Proof.
  revert h. induction script as [|t script IH]; intros h pre r post Htr Hterm.
  - destruct pre; discriminate.
  - destruct t as [|data [[|msg]|]]; cbn [ReaderChan] in Htr.
    + unfold readerExit in Htr. split_trace Htr pre.
    + unfold readerExit in Htr. split_trace Htr pre. reflexivity.
    + unfold readerExit in Htr. split_trace Htr pre. reflexivity.
    + destruct (0 <? length data)%nat; [| eapply IH; eassumption].
      cbn [hashWrite] in Htr. destruct pre as [|ev pre].
      * injection Htr as <- _. discriminate.
      * injection Htr as _ Htr. eapply IH; eassumption.
Qed.

Lemma ReaderChan_after_close (script : list ReaderTick) (h : HashState) :
  forall pre post,
    ReaderChan sha256 script h = pre ++ EvClose :: post ->
    post = [EvCallback].
Proof.
  revert h. induction script as [|t script IH]; intros h pre post Htr.
  - destruct pre; discriminate.
  - destruct t as [|data [[|msg]|]]; cbn [ReaderChan] in Htr.
    + unfold readerExit in Htr. split_trace Htr pre. reflexivity.
    + unfold readerExit in Htr. split_trace Htr pre. reflexivity.
    + unfold readerExit in Htr. split_trace Htr pre. reflexivity.
    + destruct (0 <? length data)%nat; [| eapply IH; eassumption].
      cbn [hashWrite] in Htr. destruct pre as [|ev pre]; [discriminate |].
      injection Htr as _ Htr. eapply IH; eassumption.
Qed.

Lemma ReaderChan_cancelled (pre rest : list ReaderTick) (h : HashState) :
  forallb continues pre = true ->
  exists sent,
    ReaderChan sha256 (pre ++ TickDone :: rest) h
    = sent ++ [EvClose; EvCallback] /\
    filter (fun r => isTerminal r = true) (sentPackets sent) = [] /\
    sentPackets [EvClose; EvCallback] = [].
Proof.
  revert h. induction pre as [|t pre IH]; intros h Hpre.
  - exists []. repeat split; reflexivity.
  - cbn [forallb] in Hpre. apply andb_true_iff in Hpre as [Ht Hpre].
    destruct t as [|data [e|]]; try discriminate.
    cbn [app ReaderChan].
    destruct (0 <? length data)%nat; [| apply IH; assumption].
    cbn [hashWrite].
    destruct (IH (h ++ data) Hpre) as (sent & Htr & Hnone & Hexit).
    exists (EvSend (dataResp data) :: sent). rewrite Htr.
    repeat split; try reflexivity.
    cbn [sentPackets omap]. simpl.
    rewrite filter_cons_False by (rewrite dataResp_not_terminal; discriminate).
    exact Hnone.
Qed.

Lemma ReaderChan_returns (script : list ReaderTick) (h : HashState) :
  forallb continues script = false ->
  exists sent, ReaderChan sha256 script h = sent ++ [EvClose; EvCallback].
Proof.
  revert h. induction script as [|t script IH]; intros h Hstop; [discriminate |].
  destruct t as [|data [[|msg]|]]; cbn [ReaderChan].
  - exists []. reflexivity.
  - eexists [_]. reflexivity.
  - eexists [_]. reflexivity.
  - cbn [forallb continues andb] in Hstop.
    destruct (0 <? length data)%nat; [| apply IH; assumption].
    cbn [hashWrite]. destruct (IH (h ++ data) Hstop) as (sent & ->).
    exists (EvSend (dataResp data) :: sent). reflexivity.
Qed.

(** C5.  Over every course of reads and cancellation, the events of the
    goroutine of ReaderChan are such that: at most one terminal packet
    (checksum or error) is sent; after a terminal packet nothing is sent,
    what follows is the close of the channel and the cleanup callback;
    nothing is sent once the channel is closed, the callback alone
    follows; when the select finds the context done, the goroutine ends
    with the close and the callback and has sent no terminal packet; and
    whenever the loop returns, by cancellation, end of input or error,
    the trace ends with the close of the channel and the callback. *)
Theorem ReaderChan_protocol (script : list ReaderTick) (h : HashState) :
  let tr := ReaderChan sha256 script h in
  (length (filter (fun r => isTerminal r = true) (sentPackets tr)) <= 1)%nat /\
  (forall pre r post,
      tr = pre ++ EvSend r :: post -> isTerminal r = true ->
      post = [EvClose; EvCallback]) /\
  (forall pre post, tr = pre ++ EvClose :: post -> post = [EvCallback]) /\
  (forall pre rest,
      script = pre ++ TickDone :: rest -> forallb continues pre = true ->
      exists sent,
        tr = sent ++ [EvClose; EvCallback] /\
        filter (fun r => isTerminal r = true) (sentPackets sent) = []) /\
  (forallb continues script = false ->
   exists sent, tr = sent ++ [EvClose; EvCallback]).
Proof.
  cbn zeta. split; [apply ReaderChan_one_terminal |].
  split; [apply ReaderChan_after_terminal |].
  split; [apply ReaderChan_after_close |].
  split; [| apply ReaderChan_returns].
  intros pre rest -> Hpre.
  destruct (ReaderChan_cancelled pre rest h Hpre) as (sent & Htr & Hnone & _).
  exists sent. split; assumption.
Qed.

End ReaderChanFacts.

(** The theorem at a read of two bytes followed by a cancellation, and at
    a read of two bytes followed by the end of the input. *)
Lemma ReaderChan_protocol_witness :
  (exists sent,
      iochan.ReaderChan sumDigest
        [iochan.TickRead [Byte.x61; Byte.x62] None; iochan.TickDone] []
      = sent ++ [iochan.EvClose; iochan.EvCallback] /\
      filter (fun r => iochan.isTerminal r = true) (iochan.sentPackets sent) = []) /\
  (exists sent,
      iochan.ReaderChan sumDigest
        [iochan.TickRead [Byte.x61; Byte.x62] None; iochan.TickRead [] (Some EOF)] []
      = sent ++ [iochan.EvClose; iochan.EvCallback]).
Proof.
  split.
  - apply (proj1 (proj2 (proj2 (proj2
             (ReaderChan_protocol sumDigest
                [iochan.TickRead [Byte.x61; Byte.x62] None; iochan.TickDone] []))))
             [iochan.TickRead [Byte.x61; Byte.x62] None] []);
      reflexivity.
  - apply (proj2 (proj2 (proj2 (proj2
             (ReaderChan_protocol sumDigest
                [iochan.TickRead [Byte.x61; Byte.x62] None;
                 iochan.TickRead [] (Some EOF)] []))))).
    reflexivity.
Defined.

Section WriterChanFacts.

Import iochan.

Variable sha256 : list Byte.byte -> list Byte.byte.
Variable W : Type.
Variable wWrite : W -> list Byte.byte -> W * error.

Lemma bytes_Equal_spec (a b : list Byte.byte) :
  bytes_Equal a b = true <-> a = b.
Proof.
  revert b. induction a as [|x a IH]; intros [|y b]; cbn [bytes_Equal];
    try (split; [discriminate | congruence]); [tauto |].
  rewrite andb_true_iff, IH. split.
  - intros [Hxy ->]. f_equal. now apply Byte.byte_dec_bl.
  - intros [= -> ->]. split; [now apply Byte.byte_dec_lb | reflexivity].
Qed.

(** Data packets whose writes succeed take the loop to the packets after
    them, with everything received so far in the digest. *)
Lemma WriterChan_loop_data (chunks : list (list Byte.byte))
      (tail : list WriterTick) :
  forall (h : HashState) (w : W),
    snd (writeAll W wWrite w chunks) = None ->
    WriterChan_loop sha256 W wWrite
                    (map (fun d => WRecv (dataResp d)) chunks ++ tail) h w
    = WriterChan_loop sha256 W wWrite tail (h ++ concat chunks)
                      (fst (writeAll W wWrite w chunks)).
Proof.
  induction chunks as [|d chunks IH]; intros h w Hok.
  - cbn [map app concat writeAll fst]. now rewrite app_nil_r.
  - cbn [map app concat writeAll WriterChan_loop dataResp Error Response
             Data Checksum hashWrite] in *.
    destruct (wWrite w d) as [w' [e|]]; [discriminate |].
    rewrite IH by assumption. now rewrite <- app_assoc.
Qed.

(** C3.  When WriterChan, having received data chunks that it wrote
    without failure, receives the terminal checksum packet, it passes a
    checksum-mismatch error to the failure callback exactly when the
    checksum received differs from the digest of the data received (the
    chunks, and the data field of the terminal packet itself); when the
    two agree the failure callback is not invoked; either way the
    completion callback runs once and the packets still in the channel
    are drained.  So data received with a digest other than the one the
    sender put in the checksum is never accepted in silence. *)
Theorem WriterChan_checksum (chunks : list (list Byte.byte))
        (d c : list Byte.byte) (rest : list WriterTick) (w : W) :
  snd (writeAll W wWrite w chunks) = None ->
  let script := map (fun d => WRecv (dataResp d)) chunks
                ++ WRecv (mkResp (mkPacket d (Some c)) None) :: rest in
  let res := WriterChan sha256 W wWrite script w in
  let received := sha256 (concat chunks ++ d) in
  (errCallbackCalls W res = [ErrChecksumMismatch] <-> c <> received) /\
  (c = received -> errCallbackCalls W res = []) /\
  callbackCalls W res = 1%nat /\
  drained W res = drainChannel rest /\
  writerAfter W res = fst (writeAll W wWrite w chunks).
Proof.
  intros Hok script res received.
  unfold res, script, WriterChan.
  rewrite WriterChan_loop_data by assumption.
  cbn [WriterChan_loop Error Response Data Checksum hashWrite hashNew app].
  unfold hashSum. fold received.
  destruct (bytes_Equal received c) eqn:Heq; cbn [negb].
  - apply bytes_Equal_spec in Heq.
    cbn [errCallbackCalls callbackCalls drained writerAfter].
    split; [split; [intros H; discriminate H | intros H; congruence] |].
    repeat split; reflexivity.
  - assert (Hne : c <> received).
    { intros ->. rewrite (proj2 (bytes_Equal_spec received received) eq_refl) in Heq.
      discriminate. }
    cbn [errCallbackCalls callbackCalls drained writerAfter].
    split; [split; [intros _; exact Hne | reflexivity] |].
    split; [intros ->; contradiction |].
    repeat split; reflexivity.
Qed.

End WriterChanFacts.

(** The theorem at two chunks followed by the digest of three other bytes:
    the mismatch is reported. *)
Lemma WriterChan_checksum_witness :
  iochan.errCallbackCalls (list Byte.byte)
    (iochan.WriterChan sumDigest (list Byte.byte) bufferWrite
       (map (fun d => iochan.WRecv (iochan.dataResp d))
            [[Byte.x61]; [Byte.x62; Byte.x63]]
        ++ iochan.WRecv
             (iochan.mkResp
                (iochan.mkPacket [] (Some (sumDigest [Byte.x61; Byte.x62; Byte.x64])))
                None) :: [])
       [])
  = [iochan.ErrChecksumMismatch].
Proof.
  apply (proj1 (WriterChan_checksum sumDigest (list Byte.byte) bufferWrite
                  [[Byte.x61]; [Byte.x62; Byte.x63]] []
                  (sumDigest [Byte.x61; Byte.x62; Byte.x64]) [] []
                  eq_refl)).
  discriminate.
Defined.

(** ** resolvePaths *)

Section ResolvePathsFacts.

Variable homeDir : string.

Lemma resolvePaths_loop_snoc (paths : list string) (s base : string) :
  resolvePaths_loop homeDir base (paths ++ [s])
  = let e := ExpandHomeDirSafe homeDir s in
    if filepath.IsAbs e then e
    else filepath.Join (resolvePaths_loop homeDir base paths) e.
Proof.
  revert base. induction paths as [|p paths IH]; intros base; cbn [app resolvePaths_loop].
  - cbn zeta. destruct (filepath.IsAbs (ExpandHomeDirSafe homeDir s)); reflexivity.
  - destruct (filepath.IsAbs (ExpandHomeDirSafe homeDir p)); apply IH.
Qed.

Lemma ExpandHomeDirSafe_absolute (a : string) :
  filepath.IsAbs a = true -> ExpandHomeDirSafe homeDir a = a.
Proof.
  destruct a as [|c a]; [discriminate |].
  unfold filepath.IsAbs. intros H.
  destruct (Ascii.eqb_spec c "/") as [-> | Hne]; [reflexivity |].
  destruct c as [[] [] [] [] [] [] [] []]; try discriminate; congruence.
Qed.

(** C10.  The joined path of no segments is the home directory; that of
    one segment is the segment, home-expanded; a further segment is
    home-expanded and, when it is then absolute, replaces what has been
    accumulated, and is otherwise joined onto it; so for every prefix [p]
    and every absolute segment [a] the segments [p, a] resolve to [a]
    itself. *)
Theorem resolvePaths_spec :
  resolvePaths homeDir [] = homeDir /\
  (forall p, resolvePaths homeDir [p] = ExpandHomeDirSafe homeDir p) /\
  (forall p paths s,
      resolvePaths homeDir ((p :: paths) ++ [s])
      = let e := ExpandHomeDirSafe homeDir s in
        if filepath.IsAbs e then e
        else filepath.Join (resolvePaths homeDir (p :: paths)) e) /\
  (forall p a, filepath.IsAbs a = true -> resolvePaths homeDir [p; a] = a).
Proof.
  split; [reflexivity |]. split; [reflexivity |]. split.
  - intros p paths s. cbn [app resolvePaths]. apply resolvePaths_loop_snoc.
  - intros p a Habs. cbn [resolvePaths resolvePaths_loop].
    rewrite ExpandHomeDirSafe_absolute by assumption. now rewrite Habs.
Qed.

End ResolvePathsFacts.

(** The theorem at the segments [~/docs, /etc]. *)
Lemma resolvePaths_spec_witness :
  resolvePaths "/home/u" ["~/docs"; "/etc"] = "/etc".
Proof.
  apply (proj2 (proj2 (proj2 (resolvePaths_spec "/home/u")))).
  reflexivity.
Defined.

Example resolvePaths_relative :
  resolvePaths "/home/u" ["~"; "x"; "../y"] = "/home/u/y".
Proof. reflexivity. Qed.
Example resolvePaths_absolute_inside :
  resolvePaths "/home/u" ["~"; "x"; "/etc"; "y"] = "/etc/y".
Proof. reflexivity. Qed.
Example resolvePaths_home_segment :
  resolvePaths "/home/u" ["/srv"; "~/x"] = "/home/u/x".
Proof. reflexivity. Qed.

(** ** Witnesses for the listings *)

(** The recursive listing of the sample tree with offset 1 and limit 3:
    the nodes visited at the indices 1, 2, 3 are a, d, b, of which a and b
    are files. *)
Lemma listEntries_recursive_window_witness :
  listGather sampleEnv "/srv" (mkFileListOpts true 1 3)
  = inl [mkDirEntry "a" false (inl (sampleInfo "a" false));
         mkDirEntry "b" false (inl (sampleInfo "b" false))].
Proof.
  apply (proj1 (listEntries_recursive_window sampleEnv "/srv" sampleTree 1 3
                  eq_refl eq_refl ltac:(lia) ltac:(lia) ltac:(simpl; lia)
                  ltac:(unfold int64_max; simpl; lia))).
Defined.

(** C7, the evaluation at the failing input.  The tree [. / d, e, f], in
    which the directory [d] cannot be read, is listed with all=true.  The
    nodes are visited in the order [., d, e, f].  With offset 0 and no
    limit the files whose visit index lies in the window are [e] and [f]:
    the lister gathers none and sends neither an entry nor an error, for
    the callback returns the read error of [d], which ends the walk, and
    the result of the walk is not looked at.  With offset 3 the window
    holds [f] alone: the lister returns [e] and [f], for the callback has
    run twice for [d] and has counted it twice. *)
Theorem listEntries_recursive_unreadable_dir :
  map deName (visitOrder lockedTree) = ["."; "d"; "e"; "f"] /\
  map deName
      (filter (fun d => isFileEntry d = true)
              (take (Z.to_nat (MaxDirSize lockedEnv))
                    (drop 0 (visitOrder lockedTree))))
  = ["e"; "f"] /\
  listGather lockedEnv "/srv" (mkFileListOpts true 0 0) = inl [] /\
  RemoteListEntriesCommand lockedEnv None "/srv" (mkFileListOpts true 0 0)
  = ([], None) /\
  map deName
      (filter (fun d => isFileEntry d = true)
              (take (Z.to_nat (MaxDirSize lockedEnv))
                    (drop 3 (visitOrder lockedTree))))
  = ["f"] /\
  map (map Name)
      (fst (RemoteListEntriesCommand lockedEnv None "/srv" (mkFileListOpts true 3 0)))
  = [["e"; "f"]] /\
  snd (RemoteListEntriesCommand lockedEnv None "/srv" (mkFileListOpts true 3 0))
  = None.
Proof. repeat split; vm_compute; reflexivity. Qed.

(** Streaming the sample directory with the byte range 1-2: the parent
    entry, then the child at index 1. *)
Lemma remoteStreamFileDir_listing_witness :
  exists batches up,
    remoteStreamFileDir sampleEnv None "/srv/x" (mkByteRange false 1 2)
    = (batches, None) /\
    Name up = ".." /\ Size up = -1 /\
    concat batches
    = [up; statToFileInfo sampleEnv "/srv/x/d" (sampleInfo "d" true) false].
Proof.
  destruct (proj2 (remoteStreamFileDir_listing sampleEnv "/srv/x"
                     (mkByteRange false 1 2) sampleEntries eq_refl
                     ltac:(simpl; lia) ltac:(intros _; simpl; lia))
                  ltac:(right; simpl; lia))
    as (batches & Hrun & Hparent & _).
  destruct (Hparent ltac:(discriminate) ltac:(discriminate))
    as (up & Hname & Hsize & Hcat).
  exists batches, up. repeat split; assumption.
Defined.

(** C8, counterexample: the parent of [/srv/x] is [/srv], which differs
    from the path, and its stat fails with an input/output error: the
    listing is sent without error and its first entry is the child [a],
    not an entry named "..". *)
Lemma remoteStreamFileDir_parent_unavailable :
  filepath.Dir "/srv/x" <> "/srv/x" /\
  (exists batches,
      remoteStreamFileDir parentDeniedEnv None "/srv/x" (mkByteRange true 0 0)
      = (batches, None) /\
      map Name (concat batches) = ["a"; "d"; "e"]) /\
  (forall batches up rest,
      remoteStreamFileDir parentDeniedEnv None "/srv/x" (mkByteRange true 0 0)
      = (batches, None) ->
      concat batches = up :: rest ->
      Name up <> "..").
Proof.
  split; [discriminate |]. split.
  - eexists. split; reflexivity.
  - intros batches up rest Hrun Hcat.
    vm_compute in Hrun. injection Hrun as <-.
    injection Hcat as <- _. discriminate.
Qed.

Example stream_dir_sample :
  remoteStreamFileDir sampleEnv None "/srv/x" (mkByteRange true 0 0)
  = ([[setNameSize (statToFileInfo sampleEnv "/srv" (sampleInfo "/srv" true) false)
                   ".." (-1);
       statToFileInfo sampleEnv "/srv/x/a" (sampleInfo "a" false) false];
      [statToFileInfo sampleEnv "/srv/x/d" (sampleInfo "d" true) false;
       statToFileInfo sampleEnv "/srv/x/e" (sampleInfo "e" false) false]],
     None).
Proof. reflexivity. Qed.

Example stream_dir_out_of_range :
  remoteStreamFileDir sampleEnv None "/srv/x" (mkByteRange false 3 9)
  = ([], None).
Proof. reflexivity. Qed.

Example stream_dir_cancelled :
  snd (remoteStreamFileDir sampleEnv (Some 1%nat) "/srv/x" (mkByteRange true 0 0))
  = Some "context canceled".
Proof. reflexivity. Qed.

(** ** The archive copy destination *)

Section CopyFacts.

Variable homeDir : string.
Variable sys : OS.

(** With overwrite set and the destination present, one evaluation of the
    decision makes two calls, the stat and the removal, and reaches the
    end of the body: nothing is created in that evaluation. *)
Lemma copyEntry_overwrite_calls (merge : bool) (destPathCleaned : string)
      (next : TarHeader) (w : World sys) (destinfo : fsFileInfo) :
  let nextPath := filepath.Clean (filepath.Join destPathCleaned (hdrName next)) in
  sys_Stat sys (wfs sys w) nextPath = StatOk destinfo ->
  exists w' r,
    copyEntry sys merge true destPathCleaned next w = (w', r) /\
    wcalls sys w'
    = wcalls sys w ++ [CallStat nextPath;
                       if hdrIsDir next then CallRemoveAll nextPath
                       else CallRemove nextPath] /\
    (r = BodyEnd None \/ exists e, r = BodyReturn e).
Proof.
  intros nextPath Hstat. unfold copyEntry. fold nextPath.
  unfold doStat. cbn [wfs]. rewrite Hstat. cbn [negb andb].
  unfold removeThen, doRemove, doRemoveAll, logged. cbn [wfs wcalls whandles].
  destruct (fiIsDir destinfo), (hdrIsDir next), merge; cbn [negb andb];
    repeat match goal with
           | |- context [sys_Remove sys ?fs ?p] =>
               destruct (sys_Remove sys fs p) as [? [?|]]
           | |- context [sys_RemoveAll sys ?fs ?p] =>
               destruct (sys_RemoveAll sys fs p) as [? [?|]]
           end;
    eexists; eexists; (split; [reflexivity |]);
    cbn [wcalls]; rewrite <- app_assoc;
    (split; [reflexivity | eauto]).
Qed.

(** Without overwrite and with the destination present, the evaluation
    makes the stat call only: it returns the conflict that the kinds of
    the destination and of the incoming entry determine, except for a
    directory onto a directory with merge, where it does nothing and
    reaches the end of the body. *)
Lemma copyEntry_conflict_rows (merge : bool) (destPathCleaned : string)
      (next : TarHeader) (w : World sys) (destinfo : fsFileInfo) :
  let nextPath := filepath.Clean (filepath.Join destPathCleaned (hdrName next)) in
  sys_Stat sys (wfs sys w) nextPath = StatOk destinfo ->
  copyEntry sys merge false destPathCleaned next w
  = (logged sys w (wfs sys w) [CallStat nextPath] [],
     match fiIsDir destinfo, hdrIsDir next, merge with
     | true, false, _ => BodyReturn (ErrFileExistsAtPath nextPath)
     | true, true, false => BodyReturn (ErrDirExistsNoOverwriteNoMerge nextPath)
     | true, true, true => BodyEnd None
     | false, true, _ => BodyReturn (ErrDirExistsAtPath nextPath)
     | false, false, _ => BodyReturn (ErrFileExistsNoOverwrite nextPath)
     end).
Proof.
  intros nextPath Hstat. unfold copyEntry. fold nextPath.
  unfold doStat. cbn [wfs]. rewrite Hstat.
  destruct (fiIsDir destinfo), (hdrIsDir next), merge; reflexivity.
Qed.

(** With the destination absent the evaluation creates the incoming
    directory, or creates the incoming file, writes its payload, sets its
    mode and closes it. *)
Lemma copyEntry_absent_rows (merge overwrite : bool) (destPathCleaned : string)
      (next : TarHeader) (w : World sys) (notExist : string) :
  let nextPath := filepath.Clean (filepath.Join destPathCleaned (hdrName next)) in
  sys_Stat sys (wfs sys w) nextPath = StatNotExist notExist ->
  (forall fs1,
      hdrIsDir next = true ->
      sys_MkdirAll sys (wfs sys w) nextPath (hdrMode next) = (fs1, None) ->
      copyEntry sys merge overwrite destPathCleaned next w
      = (logged sys w fs1 [CallStat nextPath; CallMkdirAll nextPath (hdrMode next)] [],
         BodyEnd (Some notExist))) /\
  (forall fs1 fs2 fs3 chmodErr,
      hdrIsDir next = false ->
      sys_Create sys (wfs sys w) nextPath = (fs1, None) ->
      io_Copy sys fs1 nextPath (hdrPayload next) = (fs2, None) ->
      file_Chmod sys fs2 nextPath (hdrMode next) = (fs3, chmodErr) ->
      copyEntry sys merge overwrite destPathCleaned next w
      = (logged sys w fs3
                [CallStat nextPath; CallCreate nextPath;
                 CallCopy nextPath (hdrPayload next);
                 CallChmod nextPath (hdrMode next); CallClose nextPath]
                [HOpen (HFile nextPath); HClose (HFile nextPath)],
         BodyEnd (Some notExist))).
Proof.
  intros nextPath Hstat. split.
  - intros fs1 Hdir Hmk. unfold copyEntry. fold nextPath.
    unfold doStat. cbn [wfs]. rewrite Hstat, Hdir.
    unfold doMkdirAll, logged. cbn [wfs wcalls whandles]. rewrite Hmk.
    f_equal. f_equal; rewrite <- ?app_assoc, ?app_nil_r; reflexivity.
  - intros fs1 fs2 fs3 chmodErr Hfile Hcreate Hcopy Hchmod.
    unfold copyEntry. fold nextPath.
    unfold doStat. cbn [wfs]. rewrite Hstat, Hfile.
    unfold doCreate, logged. cbn [wfs wcalls whandles]. rewrite Hcreate.
    unfold doCopy, logged. cbn [wfs wcalls whandles]. rewrite Hcopy.
    unfold doChmod, logged. cbn [wfs wcalls whandles]. rewrite Hchmod.
    unfold doClose, logged. cbn [wfs wcalls whandles].
    f_equal. f_equal; rewrite <- ?app_assoc, ?app_nil_r; reflexivity.
Qed.

(** The reasons of the four conflicts, as the messages give them. *)
Example conflict_reason_texts :
  String.index 0 "file exists at path, overwrite not specified"
               (errorText (ErrFileExistsAtPath "/dst/a")) <> None /\
  String.index 0 "directory exists at path, neither overwrite nor merge specified"
               (errorText (ErrDirExistsNoOverwriteNoMerge "/dst/a")) <> None /\
  String.index 0 "directory exists at path, overwrite not specified"
               (errorText (ErrDirExistsAtPath "/dst/a")) <> None /\
  String.index 0 "file exists at path, overwrite not specified"
               (errorText (ErrFileExistsNoOverwrite "/dst/a")) <> None.
Proof. repeat split; vm_compute; discriminate. Qed.

(** The loop looks at the header it is given and at no other: whatever
    follows the first header in the archive, and however the archive ends,
    the copy does the same. *)
Lemma RemoteFileCopyCommand_ignores_tail (fuel : nat)
      (opts : option FileCopyOpts) (destPath : string) (first : TarHeader)
      (rest rest' : list TarHeader) (tarEnd tarEnd' : error) (w : World sys) :
  RemoteFileCopyCommand homeDir sys fuel opts destPath
                        (mkTarStream (first :: rest) tarEnd) w
  = RemoteFileCopyCommand homeDir sys fuel opts destPath
                          (mkTarStream (first :: rest') tarEnd') w.
Proof. reflexivity. Qed.

(** A file whose payload cannot be written stays open: the function
    returns between [os.Create] and [file.Close()]. *)
Lemma copyEntry_write_failure_leaks (merge overwrite : bool)
      (destPathCleaned : string) (next : TarHeader) (w : World sys)
      (notExist msg : string) (fs1 fs2 : FS sys) :
  let nextPath := filepath.Clean (filepath.Join destPathCleaned (hdrName next)) in
  hdrIsDir next = false ->
  sys_Stat sys (wfs sys w) nextPath = StatNotExist notExist ->
  sys_Create sys (wfs sys w) nextPath = (fs1, None) ->
  io_Copy sys fs1 nextPath (hdrPayload next) = (fs2, Some msg) ->
  exists w',
    copyEntry sys merge overwrite destPathCleaned next w
    = (w', BodyReturn (ErrCannotWriteFile nextPath msg)) /\
    whandles sys w' = whandles sys w ++ [HOpen (HFile nextPath)].
Proof.
  intros nextPath Hfile Hstat Hcreate Hcopy. unfold copyEntry. fold nextPath.
  unfold doStat. cbn [wfs]. rewrite Hstat, Hfile.
  unfold doCreate, logged. cbn [wfs wcalls whandles]. rewrite Hcreate.
  unfold doCopy, logged. cbn [wfs wcalls whandles]. rewrite Hcopy.
  eexists. split; [reflexivity |]. cbn [whandles].
  now rewrite !app_nil_r.
Qed.

End CopyFacts.

(** Merging into a directory that exists: the pass changes nothing, the
    loop condition holds again, the header is the same; the loop does not
    return, whatever the number of passes allowed. *)
Lemma copyLoop_merge_never_returns (fuel : nat) :
  forall w : World MemFS.os,
    wfs MemFS.os w = fsWithDirA ->
    copyLoop MemFS.os fuel true false "/dst" dirA None w = None.
Proof.
  induction fuel as [|fuel IH]; intros w Hfs; [reflexivity |].
  cbn [copyLoop]. unfold copyEntry, doStat. cbn [wfs hdrName hdrIsDir dirA].
  rewrite Hfs.
  change (sys_Stat MemFS.os fsWithDirA
                   (filepath.Clean (filepath.Join "/dst" "a")))
    with (StatOk (mkFsFileInfo "a" 0 493 0 true)).
  cbn [fiIsDir negb andb]. apply IH. reflexivity.
Qed.

(** One pass with overwrite set, outside the loop.  The destination holds
    a file [a], the incoming header is the file [a]: the pass stats the
    path, removes the file and reaches the end of the body with the
    condition of the loop still true; the pass that follows for the same
    header finds the path absent and creates the file. *)
Example copyEntry_overwrite_first_pass :
  (let '(w, r) := copyEntry MemFS.os false true "/dst" fileA
                            (MemFS.world fsWithFileA) in
   (MemFS.snapshot ["/dst/a"] w, r))
  = ([CallStat "/dst/a"; CallRemove "/dst/a"], [None], [], BodyEnd None).
Proof. vm_compute. reflexivity. Qed.

(** C2, the evaluation at the failing input.  An archive of the two files
    [a] and [b] is copied into the empty directory [/dst] with merge set:
    the copy returns success after six calls, all of them for [a]; [b] is
    never looked at and does not exist afterwards. *)
Theorem RemoteFileCopyCommand_second_entry_ignored :
  MemFS.snapshotRun ["/dst/a"; "/dst/b"]
    (RemoteFileCopyCommand "/home/u" MemFS.os 8 optsMerge "/dst"
                           (mkTarStream [fileA; fileB] None)
                           (MemFS.world fsEmptyDst))
  = Some ([CallStat "/dst"; CallStat "/dst/a"; CallCreate "/dst/a";
           CallCopy "/dst/a" [Byte.x61]; CallChmod "/dst/a" 420;
           CallClose "/dst/a"],
          [Some (MemFS.File [Byte.x61] 420); None], [], None).
Proof. vm_compute. reflexivity. Qed.

(** With overwrite the decision is evaluated twice for the one header:
    the first pass removes, the second creates. *)
Example RemoteFileCopyCommand_overwrite_two_passes :
  MemFS.snapshotRun ["/dst/a"; "/dst/b"]
    (RemoteFileCopyCommand "/home/u" MemFS.os 8
                           (Some (mkFileCopyOpts true true true)) "/dst"
                           (mkTarStream [fileA; fileB] None)
                           (MemFS.world fsWithFileA))
  = Some ([CallStat "/dst"; CallStat "/dst/a"; CallRemove "/dst/a";
           CallStat "/dst/a"; CallCreate "/dst/a";
           CallCopy "/dst/a" [Byte.x61]; CallChmod "/dst/a" 420;
           CallClose "/dst/a"],
          [Some (MemFS.File [Byte.x61] 420); None], [], None).
Proof. vm_compute. reflexivity. Qed.

(** The error tested after the loop is the one of the first stat: when
    the destination did not exist at the start and the first entry has
    been created, the copy returns that stale error. *)
Example RemoteFileCopyCommand_stale_error :
  MemFS.snapshotRun ["/new/a"; "/new/b"]
    (RemoteFileCopyCommand "/home/u" MemFS.os 8 optsMerge "/new"
                           (mkTarStream [dirA; fileB] None)
                           (MemFS.world fsEmptyDst))
  = Some ([CallStat "/new"; CallStat "/new/a"; CallMkdirAll "/new/a" 493],
          [Some (MemFS.Directory 493); None], [],
          Some (ErrCannotReadTarStream "no such file or directory")).
Proof. vm_compute. reflexivity. Qed.

(** A conflict returns at once, with the reason. *)
Example RemoteFileCopyCommand_conflict :
  MemFS.snapshotRun ["/dst/a"; "/dst/b"]
    (RemoteFileCopyCommand "/home/u" MemFS.os 8 optsMerge "/dst"
                           (mkTarStream [fileA; fileB] None)
                           (MemFS.world fsWithFileA))
  = Some ([CallStat "/dst"; CallStat "/dst/a"],
          [Some (MemFS.File [Byte.x7a] 420); None], [],
          Some (ErrFileExistsNoOverwrite "/dst/a")).
Proof. vm_compute. reflexivity. Qed.

(** ** The decision table *)

Section DecisionTableFacts.

Variable sys : OS.

Lemma logged_logged (w : World sys) (fs1 fs2 : FS sys) (c1 c2 : list Call)
      (h1 h2 : list HEvent) :
  logged sys (logged sys w fs1 c1 h1) fs2 c2 h2
  = logged sys w fs2 (c1 ++ c2) (h1 ++ h2).
Proof. unfold logged. cbn [wcalls whandles]. now rewrite <- !app_assoc. Qed.

(** A pass that finds the destination present with overwrite set: the
    stat, the removal, and the end of the body with the condition of the
    loop still true. *)
Lemma copyEntry_overwrite_pass (merge : bool) (destPathCleaned : string)
      (next : TarHeader) (w : World sys) (destinfo : fsFileInfo) (fs1 : FS sys) :
  let nextPath := filepath.Clean (filepath.Join destPathCleaned (hdrName next)) in
  sys_Stat sys (wfs sys w) nextPath = StatOk destinfo ->
  removed sys (wfs sys w) nextPath next = (fs1, None) ->
  copyEntry sys merge true destPathCleaned next w
  = (logged sys w fs1 [CallStat nextPath; removalCall nextPath next] [],
     BodyEnd None).
Proof.
  intros nextPath Hstat Hrm. unfold copyEntry. fold nextPath.
  unfold doStat. cbn [wfs]. rewrite Hstat. cbn [negb andb].
  unfold removed, removalCall in *.
  unfold removeThen, doRemove, doRemoveAll.
  destruct (fiIsDir destinfo), (hdrIsDir next), merge; cbn [negb andb];
    cbn [wfs logged]; rewrite Hrm; rewrite logged_logged; reflexivity.
Qed.

(** The loop on a header whose path is absent: one pass creates the
    entry and the loop ends. *)
Lemma copyLoop_absent (fuel : nat) (merge overwrite : bool)
      (destPathCleaned : string) (next : TarHeader) (w : World sys)
      (notExist : string) (fs' : FS sys) :
  let nextPath := filepath.Clean (filepath.Join destPathCleaned (hdrName next)) in
  sys_Stat sys (wfs sys w) nextPath = StatNotExist notExist ->
  created sys (wfs sys w) nextPath next = Some fs' ->
  copyLoop sys (S fuel) merge overwrite destPathCleaned next None w
  = Some (logged sys w fs' (CallStat nextPath :: creationCalls nextPath next)
                 (creationHandles nextPath next), None).
Proof.
  intros nextPath Hstat Hmk. cbn [copyLoop].
  unfold created, creationCalls, creationHandles in *.
  destruct (hdrIsDir next) eqn:Hd.
  - destruct (sys_MkdirAll sys (wfs sys w) nextPath (hdrMode next))
      as [fs1 [msg|]] eqn:Hm; [discriminate |].
    injection Hmk as <-.
    rewrite (proj1 (copyEntry_absent_rows sys merge overwrite destPathCleaned next w
                      notExist Hstat) fs1 Hd Hm).
    destruct fuel; reflexivity.
  - destruct (sys_Create sys (wfs sys w) nextPath) as [fs1 [msg|]] eqn:Hc;
      [discriminate |].
    destruct (io_Copy sys fs1 nextPath (hdrPayload next)) as [fs2 [msg|]] eqn:Hp;
      [discriminate |].
    destruct (file_Chmod sys fs2 nextPath (hdrMode next)) as [fs3 chmodErr] eqn:Hch.
    injection Hmk as <-.
    rewrite (proj2 (copyEntry_absent_rows sys merge overwrite destPathCleaned next w
                      notExist Hstat) fs1 fs2 fs3 chmodErr Hd Hc Hp Hch).
    destruct fuel; reflexivity.
Qed.


End DecisionTableFacts.


(** ** Handles *)

(** The regular-file streamer closes the file it opened, however it
    returns. *)
Lemma remoteStreamFileRegular_closes (FileChunkSize : nat)
      (os_Open : string -> OpenedFile + string) (fuel : nat) (ctx : Ctx)
      (path : string) (byteRange : ByteRangeType)
      (out : list (list Byte.byte)) (err : error) (log : list HEvent) :
  remoteStreamFileRegular FileChunkSize os_Open fuel ctx path byteRange
  = Some (out, err, log) ->
  openAfter log = [].
Proof.
  unfold remoteStreamFileRegular.
  destruct (os_Open path) as [fd | msg]; [| intros [= <- <- <-]; reflexivity].
  match goal with
  | |- match ?body with _ => _ end = _ -> _ => destruct body as [[o e]|]
  end; [| discriminate].
  intros [= <- <- <-]. unfold openAfter. cbn [fold_left app removeFirst Handle_eqb].
  now rewrite String.eqb_refl.
Qed.

(** The archive source on a regular file: whenever the file is opened, it
    is still open when the goroutine has ended and the cleanup callback
    has run. *)
Lemma RemoteTarStreamCommand_file_stays_open (homeDir : string)
      (o : TarOutcomes) (recursive : bool) (path : string)
      (finfo : fsFileInfo) :
  expandRes o = inl path ->
  statRes o = StatOk finfo ->
  fiIsDir finfo = false ->
  headerErr o = None -> writeHeaderErr o = None -> openErr o = None ->
  In (HFile (filepath.Clean (ExpandHomeDirSafe homeDir path)))
     (openAfter (tarHandles (RemoteTarStreamCommand homeDir o recursive))).
Proof.
  intros Hexp Hstat Hdir Hh Hwh Hop.
  unfold RemoteTarStreamCommand, tarGoroutine.
  rewrite Hexp, Hstat, Hdir, Hh, Hwh, Hop.
  destruct (writeToErr o), (readerReturns o); cbn; auto.
Qed.

(** C9, the evaluation at the failing input.  The archive source is
    called on a regular file, every step succeeds, the reader goroutine
    returns and runs the cleanup callback: both pipe ends are closed, the
    file opened for the archive is not. *)
Theorem RemoteTarStreamCommand_leaks_file :
  tarHandles (RemoteTarStreamCommand "/home/u" tarAllGood false)
  = [HOpen HPipeReader; HOpen HPipeWriter; HOpen (HFile "/srv/f");
     HClose HPipeReader; HClose HPipeWriter] /\
  openAfter (tarHandles (RemoteTarStreamCommand "/home/u" tarAllGood false))
  = [HFile "/srv/f"].
Proof. split; reflexivity. Qed.

(** * Further properties of the layer *)

(** ** The channel adapters, end to end *)

Section AdapterFacts.

Import iochan.

Variable sha256 : list Byte.byte -> list Byte.byte.
Variable W : Type.
Variable wWrite : W -> list Byte.byte -> W * error.

(** The trace of [ReaderChan]: a data packet for every forwarded read,
    then the ending. *)
Lemma ReaderChan_trace (script : list ReaderTick) (h : HashState) :
  ReaderChan sha256 script h
  = map (fun d => EvSend (dataResp d)) (readsBefore script)
    ++ readerEnding sha256 script h.
Proof.
  revert h. induction script as [|t script IH]; intros h; [reflexivity |].
  destruct t as [|data [[|msg]|]]; cbn [ReaderChan readsBefore readerEnding map app];
    try reflexivity.
  destruct (0 <? length data)%nat.
  - cbn [hashWrite app map]. now rewrite IH.
  - cbn [app]. apply IH.
Qed.

Lemma sentPackets_data (l : list (list Byte.byte)) (tail : list ChanEvent) :
  sentPackets (map (fun d => EvSend (dataResp d)) l ++ tail)
  = map dataResp l ++ sentPackets tail.
Proof.
  induction l as [|d l IH]; [reflexivity |].
  simpl. f_equal. exact IH.
Qed.

Lemma readerEnding_terminal (script : list ReaderTick) (h : HashState) :
  Forall (fun r => isTerminal r = true) (sentPackets (readerEnding sha256 script h)) /\
  (length (sentPackets (readerEnding sha256 script h)) <= 1)%nat.
Proof.
  revert h. induction script as [|t script IH]; intros h.
  - split; [constructor | simpl; lia].
  - destruct t as [|data [[|msg]|]]; cbn [readerEnding];
      try (split; [repeat constructor | simpl; lia]).
    apply IH.
Qed.

Lemma readsBefore_nonempty (script : list ReaderTick) :
  Forall (fun d => d <> []) (readsBefore script).
Proof.
  induction script as [|t script IH]; [constructor |].
  destruct t as [|data [e|]]; cbn [readsBefore]; try constructor.
  destruct (0 <? length data)%nat eqn:E; [| exact IH].
  cbn [app]. constructor; [| exact IH].
  intros ->. discriminate.
Qed.

(** X1.  Whatever the reads and the cancellation, the packets [ReaderChan]
    sends are: one data packet for every read that delivers bytes and
    reports no error, in order, with exactly the bytes read, up to the
    first turn that ends the loop; then at most one packet more, a terminal
    one.  No data packet is empty: a read of no bytes sends nothing.  The
    bytes that a read delivers together with the end of the input or with
    an error are not forwarded. *)
Theorem ReaderChan_sends_reads (script : list ReaderTick) (h : HashState) :
  exists ending,
    sentPackets (ReaderChan sha256 script h)
    = map dataResp (readsBefore script) ++ ending /\
    Forall (fun r => isTerminal r = true) ending /\
    (length ending <= 1)%nat /\
    Forall (fun d => d <> []) (readsBefore script).
Proof.
  exists (sentPackets (readerEnding sha256 script h)).
  split; [rewrite ReaderChan_trace; apply sentPackets_data |].
  split; [apply readerEnding_terminal |].
  split; [apply readerEnding_terminal | apply readsBefore_nonempty].
Qed.

(** X2.  A checksum packet that [ReaderChan] sends carries the digest of
    exactly the bytes it sent before it: the packets sent before the
    checksum are data packets, and the checksum is the digest of their
    data, concatenated in order. *)
Theorem ReaderChan_checksum_digest (script : list ReaderTick) :
  forall pre r post c,
    ReaderChan sha256 script hashNew = pre ++ EvSend r :: post ->
    Checksum (Response r) = Some c ->
    c = sha256 (concat (packetData (sentPackets pre))) /\
    Forall (fun p => isTerminal p = false) (sentPackets pre).
Proof.
  assert (G : forall (h : HashState) pre r post c,
             ReaderChan sha256 script h = pre ++ EvSend r :: post ->
             Checksum (Response r) = Some c ->
             c = sha256 (h ++ concat (packetData (sentPackets pre))) /\
             Forall (fun p => isTerminal p = false) (sentPackets pre)).
  { induction script as [|t script IH]; intros h pre r post c Htr Hc.
    - destruct pre; discriminate.
    - destruct t as [|data [[|msg]|]]; cbn [ReaderChan] in Htr;
        try (unfold readerExit in Htr;
             destruct pre as [|? [|? [|? pre]]]; simplify_eq/=;
             try (destruct pre; simplify_eq/=);
             try (split; [now rewrite app_nil_r | constructor]); fail).
      destruct (0 <? length data)%nat; [| eapply IH; eassumption].
      cbn [hashWrite] in Htr. destruct pre as [|ev pre].
      + injection Htr as <- _. discriminate.
      + injection Htr as <- Htr.
        destruct (IH _ _ _ _ _ Htr Hc) as [-> Hall].
        split.
        * cbn. now rewrite app_assoc.
        * cbn. constructor; [reflexivity | exact Hall]. }
  intros pre r post c Htr Hc. apply (G hashNew pre r post c Htr Hc).
Qed.

Lemma readsBefore_reads (reads : list (list Byte.byte)) (tail : list ReaderTick) :
  readsBefore (map (fun d => TickRead d None) reads ++ tail)
  = nonEmptyReads reads ++ readsBefore tail.
Proof.
  induction reads as [|d reads IH]; [reflexivity |].
  cbn [map app readsBefore]. rewrite IH. unfold nonEmptyReads.
  destruct (0 <? length d)%nat eqn:E.
  - rewrite filter_cons_True by exact E. reflexivity.
  - rewrite filter_cons_False by (rewrite E; discriminate). reflexivity.
Qed.

Lemma readerEnding_reads (reads : list (list Byte.byte)) (tail : list ReaderTick)
      (h : HashState) :
  readerEnding sha256 (map (fun d => TickRead d None) reads ++ tail) h
  = readerEnding sha256 tail (h ++ concat (nonEmptyReads reads)).
Proof.
  revert h. induction reads as [|d reads IH]; intros h.
  - cbn. now rewrite app_nil_r.
  - cbn [map app readerEnding]. rewrite IH. unfold nonEmptyReads.
    destruct (0 <? length d)%nat eqn:E.
    + rewrite filter_cons_True by exact E. cbn [concat]. now rewrite app_assoc.
    + rewrite filter_cons_False by (rewrite E; discriminate). reflexivity.
Qed.

(** X3.  [ReaderChan] into [WriterChan], the input read to its end.  When
    the reader delivers chunks and then the end of the input, and the
    writer takes every write, the packets sent are the chunks that are not
    empty and one checksum packet; [WriterChan] writes exactly these chunks,
    in order, finds the checksum to agree, so the failure callback is not
    invoked; the completion callback runs once and nothing is left in the
    channel. *)
Theorem ReaderChan_WriterChan_transfer (reads : list (list Byte.byte))
        (last : list Byte.byte) (rest : list ReaderTick) (w : W) :
  snd (writeAll W wWrite w (nonEmptyReads reads)) = None ->
  let script := map (fun d => TickRead d None) reads
                ++ TickRead last (Some EOF) :: rest in
  let packets := sentPackets (ReaderChan sha256 script hashNew) in
  let res := WriterChan sha256 W wWrite (map WRecv packets) w in
  packets = map dataResp (nonEmptyReads reads)
            ++ [checksumResp (sha256 (concat (nonEmptyReads reads)))] /\
  writerAfter W res = fst (writeAll W wWrite w (nonEmptyReads reads)) /\
  errCallbackCalls W res = [] /\
  callbackCalls W res = 1%nat /\
  drained W res = [].
Proof.
  intros Hok script packets res.
  assert (Hp : packets = map dataResp (nonEmptyReads reads)
                         ++ [checksumResp (sha256 (concat (nonEmptyReads reads)))]).
  { unfold packets, script. rewrite ReaderChan_trace, readsBefore_reads,
      readerEnding_reads.
    cbn [readsBefore readerEnding hashNew app]. rewrite app_nil_r.
    rewrite sentPackets_data. reflexivity. }
  split; [exact Hp |].
  unfold res. rewrite Hp, map_app, map_map. unfold WriterChan.
  rewrite WriterChan_loop_data by assumption.
  cbn [map WriterChan_loop checksumResp Error Response Data Checksum hashWrite
           hashNew app].
  rewrite app_nil_r. unfold hashSum.
  rewrite (proj2 (bytes_Equal_spec _ _) eq_refl). cbn [negb].
  repeat split; reflexivity.
Qed.

(** X4.  [ReaderChan] into [WriterChan], the reader cancelled.  When the
    context of the reader is done after some chunks, the reader sends the
    chunks and closes the channel without a terminal packet; [WriterChan]
    writes the chunks, finds the channel closed and returns: the failure
    callback is not invoked, the completion callback runs once.  To the
    callbacks of the writer a transfer cut short by the cancellation of the
    reader looks like one that ended well. *)
Theorem ReaderChan_WriterChan_cancelled (reads : list (list Byte.byte))
        (rest : list ReaderTick) (w : W) :
  snd (writeAll W wWrite w (nonEmptyReads reads)) = None ->
  let script := map (fun d => TickRead d None) reads ++ TickDone :: rest in
  let packets := sentPackets (ReaderChan sha256 script hashNew) in
  let res := WriterChan sha256 W wWrite (map WRecv packets) w in
  packets = map dataResp (nonEmptyReads reads) /\
  writerAfter W res = fst (writeAll W wWrite w (nonEmptyReads reads)) /\
  errCallbackCalls W res = [] /\
  callbackCalls W res = 1%nat.
Proof.
  intros Hok script packets res.
  assert (Hp : packets = map dataResp (nonEmptyReads reads)).
  { unfold packets, script. rewrite ReaderChan_trace, readsBefore_reads,
      readerEnding_reads.
    cbn [readsBefore readerEnding hashNew app]. rewrite app_nil_r.
    rewrite sentPackets_data. cbn. now rewrite app_nil_r. }
  split; [exact Hp |].
  unfold res. rewrite Hp, map_map. unfold WriterChan.
  rewrite <- (app_nil_r (map _ (nonEmptyReads reads))).
  rewrite WriterChan_loop_data by assumption.
  cbn [WriterChan_loop]. repeat split; reflexivity.
Qed.

(** What the loop of [WriterChan] keeps, whatever it receives. *)
Lemma WriterChan_loop_invariants (script : list WriterTick) :
  forall (h : HashState) (w : W),
    let '(w', errs, rest) := WriterChan_loop sha256 W wWrite script h w in
    (length errs <= 1)%nat /\
    exists n : nat,
      w' = fst (writeAll W wWrite w (take n (receivedData script))).
Proof.
  induction script as [|t script IH]; intros h w0.
  - cbn. split; [lia | exists 0%nat; reflexivity].
  - destruct t as [|resp]; cbn [WriterChan_loop].
    + split; [simpl; lia | exists 0%nat; reflexivity].
    + destruct (Error resp) as [e|] eqn:He.
      { split; [simpl; lia | exists 0%nat; reflexivity]. }
      cbn [hashWrite].
      destruct (Checksum (Response resp)) as [c|] eqn:Hc.
      { destruct (negb (bytes_Equal (hashSum sha256 (h ++ Data (Response resp))) c));
          (split; [simpl; lia | exists 0%nat; reflexivity]). }
      destruct (wWrite w0 (Data (Response resp))) as [w1 [msg|]] eqn:Hw.
      { split; [simpl; lia |]. exists 1%nat. simpl. now rewrite Hw. }
      specialize (IH (h ++ Data (Response resp)) w1).
      destruct (WriterChan_loop sha256 W wWrite script (h ++ Data (Response resp)) w1)
        as [[w' errs] rest'].
      destruct IH as (Hlen & n & Hn).
      split; [exact Hlen |]. exists (S n). simpl. rewrite Hw. exact Hn.
Qed.

(** X5.  Whatever [WriterChan] receives and whenever its context is done:
    the failure callback is invoked once at most, the completion callback
    exactly once, and what has been written to the writer is the data of
    the first packets received, in order, each written once: no packet is
    written out of order, twice, or after the loop has stopped. *)
Theorem WriterChan_invariants (script : list WriterTick) (w : W) :
  let res := WriterChan sha256 W wWrite script w in
  (length (errCallbackCalls W res) <= 1)%nat /\
  callbackCalls W res = 1%nat /\
  exists n : nat,
    writerAfter W res
    = fst (writeAll W wWrite w (take n (receivedData script))).
Proof.
  cbn zeta. unfold WriterChan.
  pose proof (WriterChan_loop_invariants script hashNew w) as G.
  destruct (WriterChan_loop sha256 W wWrite script hashNew w) as [[w' errs] rest].
  destruct G as (Hlen & n & Hn).
  cbn [errCallbackCalls callbackCalls writerAfter].
  split; [exact Hlen |]. split; [reflexivity |]. exists n. exact Hn.
Qed.

(** X6.  When [WriterChan], having written the chunks received so far,
    receives a packet that carries an error, it passes exactly that error
    to the failure callback and stops: the data field of the error packet
    and all the packets after it are not written, the packets after it are
    drained, and the completion callback runs once. *)
Theorem WriterChan_remote_error (chunks : list (list Byte.byte))
        (pkt : Packet) (e : string) (rest : list WriterTick) (w : W) :
  snd (writeAll W wWrite w chunks) = None ->
  let script := map (fun d => WRecv (dataResp d)) chunks
                ++ WRecv (mkResp pkt (Some e)) :: rest in
  let res := WriterChan sha256 W wWrite script w in
  errCallbackCalls W res = [ErrRemote e] /\
  writerAfter W res = fst (writeAll W wWrite w chunks) /\
  drained W res = drainChannel rest /\
  callbackCalls W res = 1%nat.
Proof.
  intros Hok script res. unfold res, script, WriterChan.
  rewrite WriterChan_loop_data by assumption.
  cbn [WriterChan_loop Error]. repeat split; reflexivity.
Qed.

End AdapterFacts.

(** The checksum of a read of two bytes followed by the end of the input. *)
Lemma ReaderChan_checksum_digest_witness :
  sumDigest [Byte.x61; Byte.x62]
  = sumDigest
      (concat (packetData
                 (iochan.sentPackets
                    [iochan.EvSend (iochan.dataResp [Byte.x61; Byte.x62])]))) /\
  Forall (fun p => iochan.isTerminal p = false)
         (iochan.sentPackets [iochan.EvSend (iochan.dataResp [Byte.x61; Byte.x62])]).
Proof.
  apply (ReaderChan_checksum_digest sumDigest
           [iochan.TickRead [Byte.x61; Byte.x62] None;
            iochan.TickRead [] (Some EOF)]
           [iochan.EvSend (iochan.dataResp [Byte.x61; Byte.x62])]
           (iochan.checksumResp (sumDigest [Byte.x61; Byte.x62]))
           [iochan.EvClose; iochan.EvCallback]
           (sumDigest [Byte.x61; Byte.x62]));
    reflexivity.
Defined.

(** A transfer of the chunks [a], [], [b c] into a buffer. *)
Lemma ReaderChan_WriterChan_transfer_witness :
  iochan.writerAfter (list Byte.byte)
    (iochan.WriterChan sumDigest (list Byte.byte) bufferWrite
       (map iochan.WRecv
            (iochan.sentPackets
               (iochan.ReaderChan sumDigest
                  (map (fun d => iochan.TickRead d None)
                       [[Byte.x61]; []; [Byte.x62; Byte.x63]]
                   ++ iochan.TickRead [] (Some EOF) :: [])
                  iochan.hashNew)))
       [])
  = fst (iochan.writeAll (list Byte.byte) bufferWrite []
           (nonEmptyReads [[Byte.x61]; []; [Byte.x62; Byte.x63]])).
Proof.
  apply (proj1 (proj2 (ReaderChan_WriterChan_transfer sumDigest (list Byte.byte)
                         bufferWrite [[Byte.x61]; []; [Byte.x62; Byte.x63]] [] [] []
                         eq_refl))).
Defined.

(** The same chunks, the reader cancelled after them. *)
Lemma ReaderChan_WriterChan_cancelled_witness :
  iochan.errCallbackCalls (list Byte.byte)
    (iochan.WriterChan sumDigest (list Byte.byte) bufferWrite
       (map iochan.WRecv
            (iochan.sentPackets
               (iochan.ReaderChan sumDigest
                  (map (fun d => iochan.TickRead d None)
                       [[Byte.x61]; []; [Byte.x62; Byte.x63]]
                   ++ iochan.TickDone :: [])
                  iochan.hashNew)))
       [])
  = [].
Proof.
  apply (proj1 (proj2 (proj2 (ReaderChan_WriterChan_cancelled sumDigest
                                (list Byte.byte) bufferWrite
                                [[Byte.x61]; []; [Byte.x62; Byte.x63]] [] []
                                eq_refl)))).
Defined.

(** One chunk, then an error packet, then a packet that is drained. *)
Lemma WriterChan_remote_error_witness :
  iochan.errCallbackCalls (list Byte.byte)
    (iochan.WriterChan sumDigest (list Byte.byte) bufferWrite
       (map (fun d => iochan.WRecv (iochan.dataResp d)) [[Byte.x61]]
        ++ iochan.WRecv (iochan.mkResp (iochan.mkPacket [Byte.x62] None)
                                       (Some "remote failure"))
           :: [iochan.WRecv (iochan.dataResp [Byte.x63])])
       [])
  = [iochan.ErrRemote "remote failure"].
Proof.
  apply (proj1 (WriterChan_remote_error sumDigest (list Byte.byte) bufferWrite
                  [[Byte.x61]] (iochan.mkPacket [Byte.x62] None) "remote failure"
                  [iochan.WRecv (iochan.dataResp [Byte.x63])] [] eq_refl)).
Defined.

(** ** Streaming a regular file: every course of events, and the whole file *)

Section StreamRegularMore.

Variable FileChunkSize : nat.
Variable os_Open : string -> OpenedFile + string.

(** What any read delivers: bytes of the file from the offset on, no more
    of them than the buffer holds. *)
Lemma fdRead_shape (f : OpenedFile) (off : nat) :
  exists n : nat,
    fst (fdRead FileChunkSize f off) = take n (drop off (fileBytes f)) /\
    length (fst (fdRead FileChunkSize f off)) = n /\
    (n <= FileChunkSize)%nat.
Proof.
  unfold fdRead. destruct (readFails f off).
  - exists 0%nat. rewrite take_0. split; [reflexivity | split; [reflexivity | lia]].
  - set (want := Nat.min FileChunkSize (Nat.max 1 (readLen f off))).
    destruct (Nat.min want (length (fileBytes f) - off)) as [|k] eqn:E.
    + exists 0%nat. rewrite take_0.
      destruct (FileChunkSize =? 0)%nat;
        (split; [reflexivity | split; [reflexivity | lia]]).
    + exists (S k). cbn [fst]. split; [reflexivity |]. split.
      * rewrite length_take, length_drop. lia.
      * unfold want in E. lia.
Qed.

(** The loop from offset [off], however it ends: what it has emitted from
    there on is a run of bytes of the file that starts at [off] and does not
    reach past the end of the range. *)
Lemma streamRegularLoop_prefix (f : OpenedFile) (byteRange : ByteRangeType)
      (ctx : Ctx) :
  forall (fuel poll off : nat) (out out' : list (list Byte.byte)) (err : error),
    (All byteRange = false -> Z.of_nat off <= End_ byteRange) ->
    streamRegularLoop FileChunkSize fuel ctx f byteRange poll off (Z.of_nat off) out
    = Some (out', err) ->
    exists (n : nat) (new : list (list Byte.byte)),
      out' = out ++ new /\
      concat new = take n (drop off (fileBytes f)) /\
      (All byteRange = false -> Z.of_nat (off + n) <= End_ byteRange) /\
      Forall (fun c => (length c <= FileChunkSize)%nat) new.
Proof.
  induction fuel as [|fuel IH]; intros poll off out out' err Hle Hrun;
    [discriminate |].
  cbn [streamRegularLoop] in Hrun.
  destruct (ctxErr ctx poll) as [e|].
  { injection Hrun as <- <-. exists 0%nat, []. rewrite app_nil_r, take_0.
    repeat split; [| constructor]. intros Hall. specialize (Hle Hall). lia. }
  destruct (fdRead_shape f off) as (n & Hbuf & Hlen & Hn).
  destruct (fdRead FileChunkSize f off) as [buf rerr]. cbn [fst] in Hbuf, Hlen.
  rewrite Hlen in Hrun.
  destruct (Z.of_nat n >? 0) eqn:Hpos.
  - apply Z.gtb_lt in Hpos.
    destruct (negb (All byteRange) && (Z.of_nat off + Z.of_nat n >? End_ byteRange))
      eqn:Hclip.
    + (* the read reaches past the end of the range: clipped, the loop ends *)
      apply andb_true_iff in Hclip as [Hall Hgt].
      apply negb_true_iff in Hall. apply Z.gtb_lt in Hgt.
      specialize (Hle Hall).
      rewrite Hall in Hrun. cbn [negb andb] in Hrun.
      replace (Z.of_nat off + (End_ byteRange - Z.of_nat off) >=? End_ byteRange)
        with true in Hrun by (symmetry; apply Z.geb_le; lia).
      injection Hrun as <- <-.
      exists (Z.to_nat (End_ byteRange - Z.of_nat off)),
        [take (Z.to_nat (End_ byteRange - Z.of_nat off)) buf].
      split; [reflexivity |]. split.
      * cbn [concat]. rewrite app_nil_r, Hbuf, take_take. f_equal. lia.
      * split; [intros _; lia |].
        constructor; [| constructor]. rewrite length_take. lia.
    + rewrite Nat2Z.id in Hrun.
      assert (Htk : take n buf = buf) by (apply take_ge; lia).
      rewrite Htk in Hrun.
      assert (Hin : All byteRange = false ->
                    Z.of_nat off + Z.of_nat n <= End_ byteRange).
      { intros Hall. rewrite Hall in Hclip. cbn [negb andb] in Hclip.
        rewrite Z.gtb_ltb in Hclip. apply Z.ltb_ge in Hclip. exact Hclip. }
      assert (Hstop : forall e', Some (out ++ [buf], e') = Some (out', err) ->
                exists (n0 : nat) (new : list (list Byte.byte)),
                  out' = out ++ new /\
                  concat new = take n0 (drop off (fileBytes f)) /\
                  (All byteRange = false -> Z.of_nat (off + n0) <= End_ byteRange) /\
                  Forall (fun c => (length c <= FileChunkSize)%nat) new).
      { intros e' [= <- <-]. exists n, [buf]. split; [reflexivity |]. split.
        - cbn [concat]. now rewrite app_nil_r.
        - split; [intros Hall; specialize (Hin Hall); lia |].
          constructor; [lia | constructor]. }
      destruct (negb (All byteRange) && (Z.of_nat off + Z.of_nat n >=? End_ byteRange));
        [exact (Hstop _ Hrun) |].
      destruct rerr as [[|msg]|]; [exact (Hstop _ Hrun) | exact (Hstop _ Hrun) |].
      replace (Z.of_nat off + Z.of_nat n) with (Z.of_nat (off + n)) in Hrun by lia.
      assert (Hin' : All byteRange = false ->
                     Z.of_nat (off + n) <= End_ byteRange)
        by (intros Hall; specialize (Hin Hall); lia).
      destruct (IH (S poll) (off + n)%nat (out ++ [buf]) out' err Hin' Hrun)
        as (m & new & -> & Hcat & Hend & Hall).
      exists (n + m)%nat, (buf :: new). split; [now rewrite <- app_assoc |]. split.
      * cbn [concat]. rewrite Hcat, Hbuf.
        replace (drop (off + n) (fileBytes f))
          with (drop n (drop off (fileBytes f)))
          by (rewrite drop_drop; reflexivity).
        now rewrite take_take_drop.
      * split; [intros Ha; specialize (Hend Ha); lia |].
        constructor; [lia | exact Hall].
  - rewrite Z.gtb_ltb in Hpos. apply Z.ltb_ge in Hpos.
    assert (n = 0%nat) as -> by lia.
    assert (Hstop : forall e', Some (out, e') = Some (out', err) ->
              exists (n0 : nat) (new : list (list Byte.byte)),
                out' = out ++ new /\
                concat new = take n0 (drop off (fileBytes f)) /\
                (All byteRange = false -> Z.of_nat (off + n0) <= End_ byteRange) /\
                Forall (fun c => (length c <= FileChunkSize)%nat) new).
    { intros e' [= <- <-]. exists 0%nat, []. rewrite app_nil_r, take_0.
      repeat split; [| constructor]. intros Hall. specialize (Hle Hall). lia. }
    destruct (negb (All byteRange) && (Z.of_nat off >=? End_ byteRange));
      [exact (Hstop _ Hrun) |].
    destruct rerr as [[|msg]|]; [exact (Hstop _ Hrun) | exact (Hstop _ Hrun) |].
    replace (off + 0)%nat with off in Hrun by lia.
    apply (IH _ _ _ _ _ Hle Hrun).
Qed.

(** X7.  Whatever happens while a regular file is streamed (short reads,
    a read that fails, a seek that fails, the context cancelled, the range
    ending before or after the end of the file), whenever the function
    returns, with or without an error, the chunks it has emitted are,
    concatenated in order, a run of consecutive bytes of the file that
    begins at the start of the request (offset 0 without a byte range):
    nothing is emitted twice, out of order, or from elsewhere; with a byte
    range the run holds at most [end - start] bytes; and no chunk is longer
    than the chunk size. *)
Theorem remoteStreamFileRegular_emits_prefix (path : string) (f : OpenedFile)
        (byteRange : ByteRangeType) (fuel : nat) (ctx : Ctx)
        (out : list (list Byte.byte)) (err : error) (log : list HEvent) :
  os_Open path = inl f ->
  (All byteRange = false -> 0 <= Start byteRange <= End_ byteRange) ->
  remoteStreamFileRegular FileChunkSize os_Open fuel ctx path byteRange
  = Some (out, err, log) ->
  let start := if All byteRange then 0 else Start byteRange in
  exists n : nat,
    concat out = take n (drop (Z.to_nat start) (fileBytes f)) /\
    (All byteRange = false ->
     Z.of_nat n <= End_ byteRange - Start byteRange) /\
    Forall (fun c => (length c <= FileChunkSize)%nat) out.
Proof.
  intros Hopen Hrange Hrun start. unfold remoteStreamFileRegular in Hrun.
  rewrite Hopen in Hrun.
  destruct (negb (All byteRange) && (Start byteRange >? 0)) eqn:Hseek.
  - apply andb_true_iff in Hseek as [Hall Hpos].
    apply negb_true_iff in Hall. apply Z.gtb_lt in Hpos.
    specialize (Hrange Hall). unfold start. rewrite Hall.
    destruct (seekFails f).
    + injection Hrun as <- <- <-. exists 0%nat. rewrite take_0.
      split; [reflexivity |]. split; [intros _; lia | constructor].
    + destruct (streamRegularLoop FileChunkSize fuel ctx f byteRange 0
                  (Z.to_nat (Start byteRange)) (Start byteRange) [])
        as [[o e]|] eqn:Hloop; [| discriminate].
      injection Hrun as <- <- <-.
      rewrite <- (Z2Nat.id (Start byteRange)) in Hloop at 2 by lia.
      assert (Hle : All byteRange = false ->
                    Z.of_nat (Z.to_nat (Start byteRange)) <= End_ byteRange)
        by (intros _; lia).
      destruct (streamRegularLoop_prefix f byteRange ctx _ _ _ _ _ _ Hle Hloop)
        as (n & new & -> & Hcat & Hend & Hsz).
      exists n. cbn [app]. split; [exact Hcat |].
      split; [intros _; specialize (Hend Hall); lia | exact Hsz].
  - destruct (streamRegularLoop FileChunkSize fuel ctx f byteRange 0 0 0 [])
      as [[o e]|] eqn:Hloop; [| discriminate].
    injection Hrun as <- <- <-.
    assert (Hst : start = 0).
    { unfold start. destruct (All byteRange) eqn:Hall; [reflexivity |].
      specialize (Hrange eq_refl). cbn [negb andb] in Hseek.
      rewrite Z.gtb_ltb in Hseek. apply Z.ltb_ge in Hseek. lia. }
    rewrite Hst. change (Z.to_nat 0) with 0%nat.
    change 0 with (Z.of_nat 0) in Hloop.
    assert (Hle : All byteRange = false -> Z.of_nat 0 <= End_ byteRange)
      by (intros Ha; specialize (Hrange Ha); lia).
    destruct (streamRegularLoop_prefix f byteRange ctx _ _ _ _ _ _ Hle Hloop)
      as (n & new & -> & Hcat & Hend & Hsz).
    exists n. cbn [app]. split; [exact Hcat |].
    split; [| exact Hsz].
    intros Ha. specialize (Hend Ha). specialize (Hrange Ha).
    unfold start in Hst. rewrite Ha in Hst. lia.
Qed.

Hypothesis chunk_pos : (0 < FileChunkSize)%nat.

(** Without a byte range the loop runs to the end of the file. *)
Lemma streamRegularLoop_all (f : OpenedFile) (s e : Z) :
  (forall off, readFails f off = false) ->
  forall (fuel poll off : nat) (filePos : Z) (out : list (list Byte.byte)),
    (length (fileBytes f) - off < fuel)%nat ->
    exists new,
      streamRegularLoop FileChunkSize fuel None f (mkByteRange true s e)
                        poll off filePos out
      = Some (out ++ new, None) /\
      concat new = drop off (fileBytes f) /\
      Forall (fun c => (1 <= length c <= FileChunkSize)%nat) new.
Proof.
  intros Hok. induction fuel as [|fuel IH]; intros poll off filePos out Hfuel;
    [lia |].
  cbn [streamRegularLoop ctxErr].
  destruct (fdRead_ok FileChunkSize chunk_pos f off (Hok off)) as (n & Hn & Hz & Hrd).
  destruct (fdRead_shape f off) as (m & _ & Hm & Hmle).
  rewrite Hrd in *. cbn [fst] in Hm.
  assert (Hlen : length (take n (drop off (fileBytes f))) = n)
    by (rewrite length_take, length_drop; lia).
  rewrite Hlen in *. subst m. cbn [All negb andb].
  destruct n as [|k].
  - cbn [Nat.eqb]. change (Z.of_nat 0 >? 0) with false. cbv iota.
    exists []. rewrite app_nil_r. split; [reflexivity |].
    split; [| constructor].
    symmetry. apply drop_ge. lia.
  - set (n := S k) in *.
    replace (Z.of_nat n >? 0) with true by (symmetry; apply Z.gtb_lt; lia).
    cbv iota.
    replace (n =? 0)%nat with false by (symmetry; apply Nat.eqb_neq; lia).
    rewrite Nat2Z.id, take_idemp.
    destruct (IH (S poll) (off + n)%nat (filePos + Z.of_nat n)
                 (out ++ [take n (drop off (fileBytes f))]))
      as (new & Hrun & Hcat & Hsz); [lia |].
    exists (take n (drop off (fileBytes f)) :: new).
    split; [rewrite Hrun, <- app_assoc; reflexivity |]. split.
    + cbn [concat]. rewrite Hcat.
      replace (drop (off + n) (fileBytes f))
        with (drop n (drop off (fileBytes f)))
        by (rewrite drop_drop; reflexivity).
      apply take_drop.
    + constructor; [rewrite Hlen; lia | exact Hsz].
Qed.

(** X8.  A request without a byte range on a regular file that is read
    without faults, under a context that is not cancelled, returns without
    error, having closed the file it opened; the chunks it emits are,
    concatenated in order, the whole content of the file, and every chunk
    holds at least one byte and at most the chunk size: an empty file
    yields no chunk at all. *)
Theorem remoteStreamFileRegular_whole_file (path : string) (f : OpenedFile)
        (s e : Z) (fuel : nat) :
  os_Open path = inl f ->
  (forall off, readFails f off = false) ->
  (length (fileBytes f) < fuel)%nat ->
  exists out,
    remoteStreamFileRegular FileChunkSize os_Open fuel None path
                            (mkByteRange true s e)
    = Some (out, None, [HOpen (HFile path); HClose (HFile path)]) /\
    concat out = fileBytes f /\
    Forall (fun c => (1 <= length c <= FileChunkSize)%nat) out.
Proof.
  intros Hopen Hok Hfuel. unfold remoteStreamFileRegular.
  rewrite Hopen. cbn [All negb andb].
  destruct (streamRegularLoop_all f s e Hok fuel 0%nat 0%nat 0 [])
    as (new & Hrun & Hcat & Hsz); [lia |].
  rewrite Hrun. exists new. cbn [app]. split; [reflexivity |].
  split; [exact Hcat | exact Hsz].
Qed.

End StreamRegularMore.

(** The three-byte file streamed in chunks of one byte under a context
    that is cancelled at the third poll: two chunks, then the error. *)
Lemma remoteStreamFileRegular_emits_prefix_witness :
  exists n : nat,
    concat [[Byte.x61]; [Byte.x62]] = take n (drop (Z.to_nat 0) (fileBytes abcFile)) /\
    (All (mkByteRange true 0 0) = false -> Z.of_nat n <= 0 - 0) /\
    Forall (fun c => (length c <= 1)%nat) [[Byte.x61]; [Byte.x62]].
Proof.
  apply (remoteStreamFileRegular_emits_prefix 1 (fun _ => inl abcFile) "f" abcFile
           (mkByteRange true 0 0) 8 (Some 2%nat)
           [[Byte.x61]; [Byte.x62]] (Some "context canceled")
           [HOpen (HFile "f"); HClose (HFile "f")]).
  - reflexivity.
  - discriminate.
  - reflexivity.
Defined.

(** The three-byte file streamed whole in chunks of two bytes at most. *)
Lemma remoteStreamFileRegular_whole_file_witness :
  exists out,
    remoteStreamFileRegular 2 (fun _ => inl abcFile) 4 None "f"
                            (mkByteRange true 0 0)
    = Some (out, None, [HOpen (HFile "f"); HClose (HFile "f")]) /\
    concat out = fileBytes abcFile /\
    Forall (fun c => (1 <= length c <= 2)%nat) out.
Proof.
  apply (remoteStreamFileRegular_whole_file 2 (fun _ => inl abcFile)).
  - lia.
  - reflexivity.
  - intros off. reflexivity.
  - simpl. lia.
Defined.

(** ** The listings: batches, cancellation, the plain and the recursive lister *)

Section ListingMore.

Variable env : Env.

(** The batching loop sends full batches only, and what it is still
    filling is less than a batch. *)
Lemma streamEntries_batches (ctx : Ctx) (path : string) :
  forall (entries : list DirEntry) (poll : nat) (arr : list FileInfo)
         (sent sent' : list (list FileInfo)) (arr' : list FileInfo) (e : error),
    Z.of_nat (length arr) < DirChunkSize env ->
    streamEntries env ctx path poll entries arr sent = (sent', arr', e) ->
    exists new,
      sent' = sent ++ new /\
      Forall (fun b => Z.of_nat (length b) = DirChunkSize env) new /\
      Z.of_nat (length arr') < DirChunkSize env.
Proof.
  induction entries as [|d entries IH]; intros poll arr sent sent' arr' e Harr Hrun.
  - injection Hrun as <- <- <-. exists []. rewrite app_nil_r.
    split; [reflexivity |]. split; [constructor | exact Harr].
  - cbn [streamEntries] in Hrun. destruct (ctxErr ctx poll).
    { injection Hrun as <- <- <-. exists []. rewrite app_nil_r.
      split; [reflexivity |]. split; [constructor | exact Harr]. }
    destruct (deInfo d) as [fi | msg]; [| eapply IH; eassumption].
    set (info := statToFileInfo env (filepath.Join path (fiName fi)) fi false) in *.
    destruct (Z.of_nat (length (arr ++ [info])) >=? DirChunkSize env) eqn:Hfull.
    + apply Z.geb_le in Hfull.
      assert (Hlen : Z.of_nat (length (arr ++ [info])) = DirChunkSize env)
        by (rewrite length_app in *; cbn [length] in *; lia).
      assert (H0 : Z.of_nat (length (@nil FileInfo)) < DirChunkSize env)
        by (cbn [length]; lia).
      destruct (IH _ _ _ _ _ _ H0 Hrun) as (new & -> & Hall & Harr').
      exists ((arr ++ [info]) :: new).
      split; [now rewrite <- app_assoc |].
      split; [constructor; assumption | exact Harr'].
    + rewrite Z.geb_leb in Hfull. apply Z.leb_gt in Hfull.
      eapply IH; eassumption.
Qed.

Lemma flushEntries_batches (ctx : Ctx) (path : string)
      (entries : list DirEntry) (arr : list FileInfo)
      (batches : list (list FileInfo)) (e : error) :
  Z.of_nat (length arr) < DirChunkSize env ->
  flushEntries (streamEntries env ctx path 0 entries arr []) = (batches, e) ->
  wellBatched (DirChunkSize env) batches.
Proof.
  intros Harr Hrun.
  destruct (streamEntries env ctx path 0 entries arr []) as [[sent' arr'] e'] eqn:Hs.
  destruct (streamEntries_batches ctx path _ _ _ _ _ _ _ Harr Hs)
    as (new & -> & Hall & Harr').
  cbn [app] in Hrun. unfold flushEntries in Hrun.
  destruct e' as [msg|].
  - injection Hrun as <- <-. exists new, []. rewrite app_nil_r.
    split; [reflexivity |]. split; [exact Hall | now left].
  - destruct (0 <? Z.of_nat (length arr')) eqn:Hne; injection Hrun as <- <-.
    + apply Z.ltb_lt in Hne. exists new, [arr'].
      split; [reflexivity |]. split; [exact Hall |].
      right. exists arr'. split; [reflexivity | lia].
    + exists new, []. rewrite app_nil_r.
      split; [reflexivity |]. split; [exact Hall | now left].
Qed.

(** X9.  The batches in which a listing is sent.  Whatever the directory,
    the request and the context: every batch that the directory streamer
    hands to its callback but the last holds exactly [DirChunkSize]
    entries, and the last holds at least one and fewer than [DirChunkSize]
    if it is not full, provided [DirChunkSize] is 2 or more (the parent
    entry is put in the batch before the first test of its length); the
    same holds of the responses of the lister for a [DirChunkSize] of 1 or
    more.  So no empty batch is sent, and no batch larger than the chunk
    size. *)
Theorem listing_batches_bounded (ctx : Ctx) (path dataPath : string)
        (byteRange : ByteRangeType) (opts : FileListOpts) :
  (2 <= DirChunkSize env ->
   wellBatched (DirChunkSize env)
               (fst (remoteStreamFileDir env ctx path byteRange))) /\
  (1 <= DirChunkSize env ->
   wellBatched (DirChunkSize env)
               (fst (RemoteListEntriesCommand env ctx dataPath opts))).
Proof.
  assert (Hnil : wellBatched (DirChunkSize env) []).
  { exists [], []. split; [reflexivity |]. split; [constructor | now left]. }
  split; intros Hchunk.
  - unfold remoteStreamFileDir.
    destruct (os_ReadDir env path) as [entries | msg]; [| exact Hnil].
    match goal with
    | |- context [match ?s with Some _ => _ | None => _ end] =>
        destruct s as [sel|]; [| exact Hnil]
    end.
    match goal with
    | |- context [flushEntries (streamEntries env ctx path 0 sel ?a [])] =>
        set (arr := a)
    end.
    destruct (flushEntries (streamEntries env ctx path 0 sel arr []))
      as [batches e] eqn:Hrun.
    cbn [fst]. eapply flushEntries_batches; [| exact Hrun].
    unfold arr. destruct (fileInfoInternal env (filepath.Dir path) false);
      [destruct (negb _) |]; cbn [length]; lia.
  - unfold RemoteListEntriesCommand.
    destruct (ExpandHomeDir env dataPath) as [p | msg]; [| exact Hnil].
    destruct (listGather env p opts) as [entries | msg]; [| exact Hnil].
    destruct (flushEntries (streamEntries env ctx p 0 entries [] []))
      as [batches e] eqn:Hrun.
    cbn [fst]. eapply flushEntries_batches; [| exact Hrun].
    cbn [length]. lia.
Qed.

Lemma streamEntries_sent_grows (ctx : Ctx) (path : string) :
  forall (entries : list DirEntry) (poll : nat) (arr : list FileInfo)
         (sent : list (list FileInfo)),
  exists new, fst (fst (streamEntries env ctx path poll entries arr sent)) = sent ++ new.
Proof.
  induction entries as [|d entries IH]; intros poll arr sent.
  - exists []. now rewrite app_nil_r.
  - cbn [streamEntries]. destruct (ctxErr ctx poll).
    { exists []. now rewrite app_nil_r. }
    destruct (deInfo d) as [fi | msg]; [| apply IH].
    destruct (Z.of_nat _ >=? DirChunkSize env); [| apply IH].
    match goal with
    | |- context [streamEntries env ctx path (S poll) entries [] (sent ++ [?b])] =>
        destruct (IH (S poll) [] (sent ++ [b])) as (new & ->)
    end.
    eexists. now rewrite <- app_assoc.
Qed.

(** A run of the batching loop against the run that is never cancelled. *)
Lemma streamEntries_cancelled (ctx : Ctx) (path : string) :
  forall (entries : list DirEntry) (poll poll0 : nat) (arr : list FileInfo)
         (sent sent' : list (list FileInfo)) (arr' : list FileInfo) (e : error),
    streamEntries env ctx path poll entries arr sent = (sent', arr', e) ->
    match e with
    | None => streamEntries env None path poll0 entries arr sent = (sent', arr', None)
    | Some _ =>
        exists more,
          fst (fst (streamEntries env None path poll0 entries arr sent))
          = sent' ++ more
    end.
Proof.
  induction entries as [|d entries IH];
    intros poll poll0 arr sent sent' arr' e Hrun.
  - injection Hrun as <- <- <-. reflexivity.
  - cbn [streamEntries] in Hrun. destruct (ctxErr ctx poll) as [msg|].
    { injection Hrun as <- <- <-.
      apply (streamEntries_sent_grows None path (d :: entries) poll0 arr sent). }
    cbn [streamEntries ctxErr].
    destruct (deInfo d) as [fi | msg]; [| eapply IH; eassumption].
    destruct (Z.of_nat _ >=? DirChunkSize env); eapply IH; eassumption.
Qed.

(** X10.  Cancellation of the directory streamer.  The batches handed to
    the callback under any context are the first batches of those handed
    over when the context is never cancelled, the very same batches in the
    same order: cancellation cuts the listing short at a batch boundary
    (the batch being filled is dropped, not sent in part) and changes
    nothing in what was sent before; and a run that returns no error has
    sent all of them. *)
Theorem remoteStreamFileDir_cancelled_prefix (ctx : Ctx) (path : string)
        (byteRange : ByteRangeType) (batches : list (list FileInfo))
        (err : error) :
  remoteStreamFileDir env ctx path byteRange = (batches, err) ->
  (err = None ->
   remoteStreamFileDir env None path byteRange = (batches, None)) /\
  exists more,
    fst (remoteStreamFileDir env None path byteRange) = batches ++ more.
Proof.
  unfold remoteStreamFileDir.
  destruct (os_ReadDir env path) as [entries | msg].
  2: { intros [= <- <-]. split; [discriminate |]. exists []. reflexivity. }
  match goal with
  | |- context [match ?s with Some _ => _ | None => _ end] =>
      destruct s as [sel|]
  end.
  2: { intros [= <- <-]. split; [reflexivity |]. exists []. reflexivity. }
  match goal with
  | |- context [flushEntries (streamEntries env ctx path 0 sel ?a [])] =>
      set (arr := a)
  end.
  destruct (streamEntries env ctx path 0 sel arr []) as [[s a] e] eqn:Hs.
  pose proof (streamEntries_cancelled ctx path _ _ 0%nat _ _ _ _ _ Hs) as Hc.
  destruct e as [msg|]; cbn [flushEntries].
  - intros [= <- <-]. split; [discriminate |].
    destruct Hc as (more & Hmore).
    destruct (streamEntries env None path 0 sel arr []) as [[s0 a0] e0].
    cbn [fst] in Hmore. subst s0. unfold flushEntries.
    destruct e0; [exists more; reflexivity |].
    destruct (0 <? Z.of_nat (length a0)); cbn [fst].
    + exists (more ++ [a0]). now rewrite app_assoc.
    + exists more. reflexivity.
  - intros [= <- <-]. rewrite Hc. cbn [flushEntries].
    split; [reflexivity |]. exists []. now rewrite app_nil_r.
Qed.

(** X11.  The lister with all=false.  The offset and the limit of the
    request are not looked at, and the maximum directory size does not
    apply: whatever their values, a directory that can be read is listed
    in full, the responses carrying, in order, the metadata of every entry
    whose metadata can be had. *)
Theorem listEntries_plain_ignores_window (dataPath path : string)
        (entries : list DirEntry) (Offset Limit : Z) :
  ExpandHomeDir env dataPath = inl path ->
  os_ReadDir env path = inl entries ->
  exists batches,
    RemoteListEntriesCommand env None dataPath (mkFileListOpts false Offset Limit)
    = (batches, None) /\
    concat batches = childInfos env path entries.
Proof.
  intros Hexp Hread. unfold RemoteListEntriesCommand, listGather.
  rewrite Hexp. cbn [optAll]. rewrite Hread.
  destruct (flushEntries_all env path entries []) as (batches & Hrun & Hcat).
  exists batches. split; assumption.
Qed.

Lemma listCallback_error_keeps (Offset Limit : Z) (st : WalkState)
      (d : option DirEntry) (e : WalkErr) :
  innerFilesEntries (fst (listCallback Offset Limit st d (Some e)))
  = innerFilesEntries st.
Proof.
  unfold listCallback.
  destruct (seen st <? Offset); [reflexivity |].
  destruct (seen st >=? wrap64 (Offset + Limit)); reflexivity.
Qed.

(** X12.  Errors of the recursive lister.  With all=true the outcome of
    the walk is not looked at: under a context that is not cancelled the
    lister sends no error response, whatever the tree and whatever fails
    while it is walked; and when the root itself cannot be opened it sends
    nothing at all, neither an entry nor an error.  With all=false a
    directory that cannot be read is reported by an error response, with
    no entry before it. *)
Theorem listEntries_recursive_swallows_errors (dataPath path : string)
        (Offset Limit : Z) :
  ExpandHomeDir env dataPath = inl path ->
  (exists batches,
      RemoteListEntriesCommand env None dataPath (mkFileListOpts true Offset Limit)
      = (batches, None)) /\
  (forall msg ctx,
      os_DirFS env path = inr msg ->
      RemoteListEntriesCommand env ctx dataPath (mkFileListOpts true Offset Limit)
      = ([], None)) /\
  (forall msg ctx,
      os_ReadDir env path = inr msg ->
      exists e,
        RemoteListEntriesCommand env ctx dataPath (mkFileListOpts false Offset Limit)
        = ([], Some e)).
Proof.
  intros Hexp. split; [| split].
  - unfold RemoteListEntriesCommand, listGather. rewrite Hexp. cbn [optAll].
    match goal with
    | |- context [streamEntries env None path 0 ?l [] []] =>
        destruct (flushEntries_all env path l []) as (batches & Hrun & _)
    end.
    exists batches. exact Hrun.
  - intros msg ctx Hfs. unfold RemoteListEntriesCommand, listGather.
    rewrite Hexp. cbn [optAll optOffset optLimit]. rewrite Hfs.
    cbn [WalkDir]. rewrite listCallback_error_keeps. reflexivity.
  - intros msg ctx Hrd. unfold RemoteListEntriesCommand, listGather.
    rewrite Hexp. cbn [optAll]. rewrite Hrd. eexists. reflexivity.
Qed.

Lemma streamEntries_flat (ctx : Ctx) (path : string) :
  forall (entries : list DirEntry) (poll : nat) (arr : list FileInfo)
         (sent : list (list FileInfo)),
    Forall (flatPath env path) arr ->
    Forall (Forall (flatPath env path)) sent ->
    let r := streamEntries env ctx path poll entries arr sent in
    Forall (Forall (flatPath env path)) (fst (fst r)) /\
    Forall (flatPath env path) (snd (fst r)).
Proof.
  induction entries as [|d entries IH]; intros poll arr sent Harr Hsent.
  - cbn. split; assumption.
  - cbn [streamEntries]. destruct (ctxErr ctx poll); [cbn; split; assumption |].
    destruct (deInfo d) as [fi | msg]; [| apply IH; assumption].
    set (info := statToFileInfo env (filepath.Join path (fiName fi)) fi false).
    assert (Hinfo : Forall (flatPath env path) (arr ++ [info])).
    { apply Forall_app. split; [exact Harr |].
      constructor; [| constructor]. split; reflexivity. }
    destruct (Z.of_nat _ >=? DirChunkSize env).
    + apply IH; [constructor |].
      apply Forall_app. split; [exact Hsent | constructor; [exact Hinfo | constructor]].
    + apply IH; assumption.
Qed.

(** X13.  The paths the lister reports.  Every entry in every response of
    the lister, in either mode and under any context, has for its path the
    listed path joined with the base name of the entry, and for its
    directory part the one computed from that path.  With all=true the
    entries found below sub-directories are thus reported as if they lay
    directly in the listed directory: the sub-directories they were found
    in do not appear in their paths. *)
Theorem listEntries_paths_flat (ctx : Ctx) (dataPath path : string)
        (opts : FileListOpts) :
  ExpandHomeDir env dataPath = inl path ->
  Forall (Forall (flatPath env path))
         (fst (RemoteListEntriesCommand env ctx dataPath opts)).
Proof.
  intros Hexp. unfold RemoteListEntriesCommand. rewrite Hexp.
  destruct (listGather env path opts) as [entries | msg]; [| constructor].
  destruct (streamEntries_flat ctx path entries 0%nat [] []
              ltac:(constructor) ltac:(constructor)) as [Hs Ha].
  destruct (streamEntries env ctx path 0 entries [] []) as [[s a] e].
  cbn [fst snd] in *. unfold flushEntries.
  destruct e; [exact Hs |].
  destruct (0 <? Z.of_nat (length a)); cbn [fst]; [| exact Hs].
  apply Forall_app. split; [exact Hs | constructor; [exact Ha | constructor]].
Qed.

End ListingMore.

(** The sample directory streamed in batches of two. *)
Lemma listing_batches_bounded_witness :
  wellBatched 2 (fst (remoteStreamFileDir sampleEnv None "/srv/x"
                                          (mkByteRange true 0 0))) /\
  wellBatched 2 (fst (RemoteListEntriesCommand sampleEnv None "/srv"
                                               (mkFileListOpts true 0 0))).
Proof.
  split.
  - apply (proj1 (listing_batches_bounded sampleEnv None "/srv/x" "/srv"
                    (mkByteRange true 0 0) (mkFileListOpts true 0 0))).
    simpl. lia.
  - apply (proj2 (listing_batches_bounded sampleEnv None "/srv/x" "/srv"
                    (mkByteRange true 0 0) (mkFileListOpts true 0 0))).
    simpl. lia.
Defined.

(** With a chunk size of 1 the first batch of a directory that has a
    parent holds two entries: the parent entry and the first child. *)
Example first_batch_of_two :
  map (@length FileInfo)
      (fst (remoteStreamFileDir
              {| MaxDirSize := 1024; DirChunkSize := 1; HomeDir := "/home/u";
                 ReplaceHomeDir := fun p => p;
                 DetectMimeType := fun _ _ _ => "";
                 ModeString := fun _ => "";
                 os_Stat := fun p => StatOk (sampleInfo p true);
                 os_ReadDir := fun _ => inl sampleEntries;
                 RandomHexString := fun _ => Some "00";
                 os_CreateOk := fun _ => true;
                 os_OpenAppendOk := fun _ => true;
                 ExpandHomeDir := fun p => inl p;
                 os_DirFS := fun _ => inl sampleTree |}
              None "/srv/x" (mkByteRange true 0 0)))
  = [2%nat; 1%nat; 1%nat].
Proof. reflexivity. Qed.

(** The sample directory streamed under a context that is cancelled at
    the third poll: the first batch has been sent, the second has not. *)
Lemma remoteStreamFileDir_cancelled_prefix_witness :
  exists more,
    fst (remoteStreamFileDir sampleEnv None "/srv/x" (mkByteRange true 0 0))
    = fst (remoteStreamFileDir sampleEnv (Some 2%nat) "/srv/x" (mkByteRange true 0 0))
      ++ more.
Proof.
  apply (proj2 (remoteStreamFileDir_cancelled_prefix sampleEnv (Some 2%nat) "/srv/x"
                  (mkByteRange true 0 0)
                  (fst (remoteStreamFileDir sampleEnv (Some 2%nat) "/srv/x"
                                            (mkByteRange true 0 0)))
                  (Some "context canceled") eq_refl)).
Defined.

(** The sample directory listed with all=false, an offset of 2 and a
    limit of 1: all three entries are returned. *)
Lemma listEntries_plain_ignores_window_witness :
  exists batches,
    RemoteListEntriesCommand sampleEnv None "/srv" (mkFileListOpts false 2 1)
    = (batches, None) /\
    concat batches = childInfos sampleEnv "/srv" sampleEntries.
Proof.
  apply (listEntries_plain_ignores_window sampleEnv "/srv" "/srv" sampleEntries 2 1);
    reflexivity.
Defined.

(** The recursive listing of the sample tree sends no error. *)
Lemma listEntries_recursive_swallows_errors_witness :
  exists batches,
    RemoteListEntriesCommand sampleEnv None "/srv" (mkFileListOpts true 0 0)
    = (batches, None).
Proof.
  apply (proj1 (listEntries_recursive_swallows_errors sampleEnv "/srv" "/srv" 0 0
                  eq_refl)).
Defined.

(** The recursive listing of the sample tree: the files [b] and [c] of the
    sub-directory [d] are reported directly under the listed path. *)
Lemma listEntries_paths_flat_witness :
  Forall (Forall (flatPath sampleEnv "/srv"))
         (fst (RemoteListEntriesCommand sampleEnv None "/srv"
                                        (mkFileListOpts true 0 0))).
Proof.
  apply (listEntries_paths_flat sampleEnv None "/srv" "/srv"
           (mkFileListOpts true 0 0) eq_refl).
Defined.

Example listEntries_nested_paths :
  map (map Path)
      (fst (RemoteListEntriesCommand sampleEnv None "/srv" (mkFileListOpts true 0 0)))
  = [["/srv/a"; "/srv/b"]; ["/srv/c"; "/srv/e"]].
Proof. reflexivity. Qed.

(** ** The archive copy destination: what holds of every copy *)

Lemma openAfter_app (l1 l2 : list HEvent) :
  openAfter (l1 ++ l2)
  = fold_left (fun opened ev =>
                 match ev with
                 | HOpen h => opened ++ [h]
                 | HClose h => removeFirst h opened
                 end) l2 (openAfter l1).
Proof. unfold openAfter. apply fold_left_app. Qed.

Lemma copyObserved_Some (sys : OS) (w : World sys) (e e' : option CopyError)
      (calls : list Call) (opened : list Handle) :
  copyObserved sys (Some (w, e)) = Some (calls, opened, e') ->
  calls = wcalls sys w /\ opened = openAfter (whandles sys w) /\ e' = e.
Proof. intros [= <- <- <-]. repeat split. Qed.

Section CopyMore.

Variable homeDir : string.
Variable sys : OS.

(** Without overwrite one evaluation of the decision removes nothing. *)
Lemma copyEntry_no_overwrite (merge : bool) (destPathCleaned : string)
      (next : TarHeader) (w w' : World sys) (r : BodyResult) :
  copyEntry sys merge false destPathCleaned next w = (w', r) ->
  exists new,
    wcalls sys w' = wcalls sys w ++ new /\
    Forall (fun c => isRemoval c = false) new.
Proof.
  unfold copyEntry, doStat, doMkdirAll, doCreate, doCopy, doChmod, doClose,
    logged. cbn [wfs wcalls whandles negb].
  set (nextPath := filepath.Clean (filepath.Join destPathCleaned (hdrName next))).
  destruct (sys_Stat sys (wfs sys w) nextPath) as [destinfo | ne | msg].
  - destruct (fiIsDir destinfo), (hdrIsDir next), merge; cbn [negb andb];
      intros [= <- <-]; cbn [wcalls];
      (eexists; split; [reflexivity |]; repeat constructor).
  - destruct (hdrIsDir next).
    + destruct (sys_MkdirAll sys (wfs sys w) nextPath (hdrMode next)) as [fs1 [e|]];
        intros [= <- <-]; cbn [wcalls]; rewrite <- app_assoc;
        (eexists; split; [reflexivity |]; repeat constructor).
    + destruct (sys_Create sys (wfs sys w) nextPath) as [fs1 [e|]];
        cbn [wfs wcalls whandles].
      { intros [= <- <-]; cbn [wcalls]; rewrite <- app_assoc;
        (eexists; split; [reflexivity |]; repeat constructor). }
      destruct (io_Copy sys fs1 nextPath (hdrPayload next)) as [fs2 [e|]];
        cbn [wfs wcalls whandles].
      { intros [= <- <-]; cbn [wcalls]; rewrite <- !app_assoc;
        (eexists; split; [reflexivity |]; repeat constructor). }
      destruct (file_Chmod sys fs2 nextPath (hdrMode next)) as [fs3 e];
        cbn [wfs wcalls whandles].
      intros [= <- <-]; cbn [wcalls]; rewrite <- !app_assoc;
        (eexists; split; [reflexivity |]; repeat constructor).
  - intros [= <- <-]; cbn [wcalls];
      (eexists; split; [reflexivity |]; repeat constructor).
Qed.

Lemma copyLoop_no_overwrite (merge : bool) (destPathCleaned : string)
      (next : TarHeader) :
  forall (fuel : nat) (loopErr : error) (w w' : World sys) (e : option CopyError),
    copyLoop sys fuel merge false destPathCleaned next loopErr w = Some (w', e) ->
    exists new,
      wcalls sys w' = wcalls sys w ++ new /\
      Forall (fun c => isRemoval c = false) new.
Proof.
  induction fuel as [|fuel IH]; intros loopErr w w' e Hrun.
  - cbn [copyLoop] in Hrun. destruct loopErr; [| discriminate].
    injection Hrun as <- <-. exists []. rewrite app_nil_r.
    split; [reflexivity | constructor].
  - cbn [copyLoop] in Hrun. destruct loopErr.
    { injection Hrun as <- <-. exists []. rewrite app_nil_r.
      split; [reflexivity | constructor]. }
    destruct (copyEntry sys merge false destPathCleaned next w) as [w1 r] eqn:Hpass.
    destruct (copyEntry_no_overwrite _ _ _ _ _ _ Hpass) as (new1 & Hc1 & Hf1).
    destruct r as [ce | le].
    + injection Hrun as <- <-. exists new1. split; assumption.
    + destruct (IH _ _ _ _ Hrun) as (new2 & Hc2 & Hf2).
      exists (new1 ++ new2). rewrite Hc2, Hc1, <- app_assoc.
      split; [reflexivity |]. apply Forall_app. split; assumption.
Qed.

(** X14.  Without the overwrite option a copy deletes nothing.  Whatever
    the file system, the destination, the archive and the other options,
    when overwrite is not set the calls a copy makes, in the check of the
    destination and in the loop, include no [os.Remove] and no
    [os.RemoveAll]. *)
Theorem RemoteFileCopyCommand_removes_only_with_overwrite (fuel : nat)
        (opts : option FileCopyOpts) (destPath : string) (archive : TarStream)
        (w : World sys) (calls : list Call) (opened : list Handle)
        (e : option CopyError) :
  match opts with Some o => Overwrite o | None => false end = false ->
  copyObserved sys (RemoteFileCopyCommand homeDir sys fuel opts destPath archive w)
  = Some (calls, opened, e) ->
  exists new,
    calls = wcalls sys w ++ new /\
    Forall (fun c => isRemoval c = false) new.
Proof.
  intros Hov. unfold RemoteFileCopyCommand. rewrite Hov.
  set (merge := match opts with Some o => Merge o | None => false end).
  set (recursive := match opts with Some o => Recursive o | None => false end).
  set (dest := filepath.Clean (ExpandHomeDirSafe homeDir destPath)).
  unfold doStat. cbn [wfs].
  set (w0 := logged sys w (wfs sys w) [CallStat dest] []).
  destruct (copyPrecheck sys merge false recursive destPath dest
                         (sys_Stat sys (wfs sys w) dest) w0) as [w1 pe] eqn:Hpre.
  assert (Hw1 : w1 = w0).
  { unfold copyPrecheck in Hpre.
    destruct (sys_Stat sys (wfs sys w) dest) as [di | |];
      [destruct (fiIsDir di), recursive, merge |..]; cbn [negb] in Hpre;
      now injection Hpre as <- _. }
  subst w1.
  assert (Hstat : wcalls sys w0 = wcalls sys w ++ [CallStat dest]) by reflexivity.
  destruct pe as [ce|].
  { intros Hobs. apply copyObserved_Some in Hobs as (-> & _ & _).
    exists [CallStat dest]. split; [exact Hstat |]. repeat constructor. }
  set (w2 := logged sys w0 (wfs sys w0) [] [HOpen HPipeReader; HOpen HPipeWriter]).
  assert (Hw2 : wcalls sys w2 = wcalls sys w ++ [CallStat dest]).
  { unfold w2, logged. cbn [wcalls]. now rewrite app_nil_r. }
  assert (Hclose : forall x, wcalls sys (closePipes sys x) = wcalls sys x).
  { intros x. unfold closePipes, logged. cbn [wcalls]. apply app_nil_r. }
  destruct (tarEntries archive) as [|next rest].
  - intros Hobs. apply copyObserved_Some in Hobs as (-> & _ & _).
    exists [CallStat dest]. rewrite Hclose, Hw2.
    split; [reflexivity | repeat constructor].
  - destruct (copyLoop sys fuel merge false dest next None w2) as [[w3 le]|] eqn:Hloop;
      [| discriminate].
    destruct (copyLoop_no_overwrite _ _ _ _ _ _ _ _ Hloop) as (new & Hc & Hf).
    assert (Hall : Forall (fun c => isRemoval c = false) (CallStat dest :: new))
      by (constructor; [reflexivity | exact Hf]).
    destruct le; intros Hobs; apply copyObserved_Some in Hobs as (-> & _ & _);
      exists (CallStat dest :: new);
      rewrite Hclose, Hc, Hw2, <- app_assoc; (split; [reflexivity | exact Hall]).
Qed.

(** The handles of one evaluation of the decision: none, or the file
    created and closed, or, when its payload cannot be written, the file
    created and left open. *)
Lemma copyEntry_handles (merge overwrite : bool) (destPathCleaned : string)
      (next : TarHeader) (w w' : World sys) (r : BodyResult) :
  copyEntry sys merge overwrite destPathCleaned next w = (w', r) ->
  let nextPath := filepath.Clean (filepath.Join destPathCleaned (hdrName next)) in
  (whandles sys w' = whandles sys w /\
   forall msg, r <> BodyReturn (ErrCannotWriteFile nextPath msg)) \/
  (whandles sys w' = whandles sys w ++ [HOpen (HFile nextPath); HClose (HFile nextPath)] /\
   exists le, r = BodyEnd le) \/
  (whandles sys w' = whandles sys w ++ [HOpen (HFile nextPath)] /\
   exists msg, r = BodyReturn (ErrCannotWriteFile nextPath msg)).
Proof.
  intros Hrun nextPath. revert Hrun.
  unfold copyEntry, removeThen, doStat, doRemove, doRemoveAll, doMkdirAll,
    doCreate, doCopy, doChmod, doClose, logged. cbn [wfs wcalls whandles].
  fold nextPath.
  destruct (sys_Stat sys (wfs sys w) nextPath) as [destinfo | ne | msg].
  - destruct (fiIsDir destinfo), (hdrIsDir next), merge, overwrite;
      cbn [negb andb wfs wcalls whandles];
      repeat match goal with
             | |- context [sys_Remove sys ?fs ?p] =>
                 destruct (sys_Remove sys fs p) as [? [?|]]
             | |- context [sys_RemoveAll sys ?fs ?p] =>
                 destruct (sys_RemoveAll sys fs p) as [? [?|]]
             end;
      intros [= <- <-]; left; cbn [whandles]; rewrite ?app_nil_r;
      (split; [reflexivity | intros ?; discriminate]).
  - destruct (hdrIsDir next).
    + destruct (sys_MkdirAll sys (wfs sys w) nextPath (hdrMode next)) as [fs1 [e|]];
        intros [= <- <-]; left; cbn [whandles]; rewrite ?app_nil_r;
        (split; [reflexivity | intros ?; discriminate]).
    + destruct (sys_Create sys (wfs sys w) nextPath) as [fs1 [e|]];
        cbn [wfs wcalls whandles].
      { intros [= <- <-]; left; cbn [whandles]; rewrite ?app_nil_r;
        (split; [reflexivity | intros ?; discriminate]). }
      destruct (io_Copy sys fs1 nextPath (hdrPayload next)) as [fs2 [e|]];
        cbn [wfs wcalls whandles].
      { intros [= <- <-]. right. right. cbn [whandles]. rewrite ?app_nil_r.
        split; [reflexivity | eexists; reflexivity]. }
      destruct (file_Chmod sys fs2 nextPath (hdrMode next)) as [fs3 e];
        cbn [wfs wcalls whandles].
      intros [= <- <-]. right. left. cbn [whandles].
      rewrite ?app_nil_r, <- ?app_assoc.
      split; [reflexivity | eexists; reflexivity].
  - intros [= <- <-]; left; cbn [whandles]; rewrite ?app_nil_r;
      (split; [reflexivity | intros ?; discriminate]).
Qed.

Lemma copyLoop_handles (merge overwrite : bool) (destPathCleaned : string)
      (next : TarHeader) :
  forall (fuel : nat) (loopErr : error) (w w' : World sys) (e : option CopyError),
    openAfter (whandles sys w) = pipesOpen ->
    copyLoop sys fuel merge overwrite destPathCleaned next loopErr w = Some (w', e) ->
    openAfter (whandles sys w') = pipesOpen \/
    exists p msg, e = Some (ErrCannotWriteFile p msg) /\
                  openAfter (whandles sys w') = pipesOpen ++ [HFile p].
Proof.
  induction fuel as [|fuel IH]; intros loopErr w w' e Hopen Hrun.
  - cbn [copyLoop] in Hrun. destruct loopErr; [| discriminate].
    injection Hrun as <- <-. now left.
  - cbn [copyLoop] in Hrun. destruct loopErr; [injection Hrun as <- <-; now left |].
    destruct (copyEntry sys merge overwrite destPathCleaned next w) as [w1 r] eqn:Hpass.
    destruct (copyEntry_handles _ _ _ _ _ _ _ Hpass)
      as [[Hh Hne] | [[Hh [le ->]] | [Hh [msg ->]]]].
    + destruct r as [ce | le].
      * injection Hrun as <- <-. left. now rewrite Hh.
      * assert (Hopen1 : openAfter (whandles sys w1) = pipesOpen)
          by (now rewrite Hh).
        apply (IH _ _ _ _ Hopen1 Hrun).
    + assert (Hopen1 : openAfter (whandles sys w1) = pipesOpen).
      { rewrite Hh, openAfter_app, Hopen. unfold pipesOpen.
        cbn [fold_left app removeFirst Handle_eqb]. now rewrite String.eqb_refl. }
      apply (IH _ _ _ _ Hopen1 Hrun).
    + injection Hrun as <- <-. right. eexists _, _. split; [reflexivity |].
      rewrite Hh, openAfter_app, Hopen. reflexivity.
Qed.

(** X15.  The handles of a copy.  Whatever the file system, the options
    and the archive, whenever a copy returns, both ends of its pipe are
    closed, and so is every file it created, with one exception: when the
    payload of a file cannot be written, the copy returns the error
    "cannot write file" with that one file still open.  No other return
    leaves a handle open. *)
Theorem RemoteFileCopyCommand_open_handles (fuel : nat)
        (opts : option FileCopyOpts) (destPath : string) (archive : TarStream)
        (w : World sys) (calls : list Call) (opened : list Handle)
        (e : option CopyError) :
  whandles sys w = [] ->
  copyObserved sys (RemoteFileCopyCommand homeDir sys fuel opts destPath archive w)
  = Some (calls, opened, e) ->
  opened = [] \/
  exists p msg, e = Some (ErrCannotWriteFile p msg) /\ opened = [HFile p].
Proof.
  intros Hw0. unfold RemoteFileCopyCommand.
  set (merge := match opts with Some o => Merge o | None => false end).
  set (overwrite := match opts with Some o => Overwrite o | None => false end).
  set (recursive := match opts with Some o => Recursive o | None => false end).
  set (dest := filepath.Clean (ExpandHomeDirSafe homeDir destPath)).
  unfold doStat. cbn [wfs].
  set (w0 := logged sys w (wfs sys w) [CallStat dest] []).
  assert (Hh0 : whandles sys w0 = []).
  { unfold w0, logged. cbn [whandles]. now rewrite Hw0. }
  destruct (copyPrecheck sys merge overwrite recursive destPath dest
                         (sys_Stat sys (wfs sys w) dest) w0) as [w1 pe] eqn:Hpre.
  assert (Hh1 : whandles sys w1 = []).
  { revert Hpre. unfold copyPrecheck, doRemove, doRemoveAll, logged.
    cbn [wfs wcalls whandles].
    destruct (sys_Stat sys (wfs sys w) dest) as [di | |];
      [destruct (fiIsDir di), recursive, merge, overwrite |..]; cbn [negb];
      repeat match goal with
             | |- context [sys_Remove sys ?fs ?p] =>
                 destruct (sys_Remove sys fs p) as [? [?|]]
             | |- context [sys_RemoveAll sys ?fs ?p] =>
                 destruct (sys_RemoveAll sys fs p) as [? [?|]]
             end;
      intros [= <- <-]; cbn [whandles]; rewrite ?app_nil_r;
      first [exact Hh0 | exact Hw0]. }
  destruct pe as [ce|].
  { intros Hobs. apply copyObserved_Some in Hobs as (-> & -> & ->).
    left. now rewrite Hh1. }
  set (w2 := logged sys w1 (wfs sys w1) [] [HOpen HPipeReader; HOpen HPipeWriter]).
  assert (Hopen2 : openAfter (whandles sys w2) = pipesOpen).
  { unfold w2, logged. cbn [whandles]. now rewrite Hh1. }
  assert (Hclose : forall x,
             openAfter (whandles sys (closePipes sys x))
             = removeFirst HPipeWriter (removeFirst HPipeReader
                                          (openAfter (whandles sys x)))).
  { intros x. unfold closePipes, logged. cbn [whandles].
    now rewrite openAfter_app. }
  assert (Hfin : forall w3 (e3 : option CopyError),
             openAfter (whandles sys w3) = pipesOpen \/
             (exists p msg, e3 = Some (ErrCannotWriteFile p msg) /\
                            openAfter (whandles sys w3) = pipesOpen ++ [HFile p]) ->
             openAfter (whandles sys (closePipes sys w3)) = [] \/
             exists p msg, e3 = Some (ErrCannotWriteFile p msg) /\
                           openAfter (whandles sys (closePipes sys w3)) = [HFile p]).
  { intros w3 e3 [H | (p & msg & -> & H)]; rewrite Hclose, H.
    - now left.
    - right. exists p, msg. split; reflexivity. }
  destruct (tarEntries archive) as [|next rest].
  - intros Hobs. apply copyObserved_Some in Hobs as (-> & -> & ->). left.
    rewrite Hclose, Hopen2. reflexivity.
  - destruct (copyLoop sys fuel merge overwrite dest next None w2)
      as [[w3 le]|] eqn:Hloop; [| discriminate].
    pose proof (copyLoop_handles _ _ _ _ _ _ _ _ _ Hopen2 Hloop) as Hl.
    destruct le as [ce|]; intros Hobs;
      apply copyObserved_Some in Hobs as (-> & -> & ->).
    + apply (Hfin w3 (Some ce) Hl).
    + destruct (Hfin w3 None Hl) as [H | (p & msg & Habs & _)];
        [now left | discriminate].
Qed.

(** X16.  A merge that does not return.  With merge set and overwrite not
    set, when the destination is a directory and the first entry of the
    archive is a directory that exists at its place in the destination,
    the copy never returns: the pass for that entry does nothing, the
    condition of the loop holds again, and the entry looked at is the same
    one.  In the model no number of passes is enough. *)
Theorem RemoteFileCopyCommand_merge_diverges (fuel : nat) (o : FileCopyOpts)
        (destPath : string) (next : TarHeader) (rest : list TarHeader)
        (tarEnd : error) (w : World sys) (di ni : fsFileInfo) :
  Merge o = true -> Overwrite o = false -> Recursive o = true ->
  let dest := filepath.Clean (ExpandHomeDirSafe homeDir destPath) in
  sys_Stat sys (wfs sys w) dest = StatOk di -> fiIsDir di = true ->
  hdrIsDir next = true ->
  sys_Stat sys (wfs sys w) (filepath.Clean (filepath.Join dest (hdrName next)))
  = StatOk ni ->
  fiIsDir ni = true ->
  RemoteFileCopyCommand homeDir sys fuel (Some o) destPath
                        (mkTarStream (next :: rest) tarEnd) w
  = None.
Proof.
  intros Hm Ho Hr dest Hstat Hdi Hdir Hnext Hni.
  unfold RemoteFileCopyCommand. rewrite Hm, Ho, Hr. fold dest.
  unfold doStat. cbn [wfs]. rewrite Hstat. unfold copyPrecheck. rewrite Hdi.
  cbn [negb tarEntries].
  assert (Hloop : forall (fuel : nat) (w : World sys),
             sys_Stat sys (wfs sys w)
                      (filepath.Clean (filepath.Join dest (hdrName next)))
             = StatOk ni ->
             copyLoop sys fuel true false dest next None w = None).
  { clear fuel w Hstat Hnext. induction fuel as [|fuel IH]; intros w Hst; [reflexivity |].
    cbn [copyLoop].
    rewrite (copyEntry_conflict_rows sys true dest next w ni Hst).
    rewrite Hdir, Hni. apply IH. exact Hst. }
  rewrite Hloop; [reflexivity | exact Hnext].
Qed.

(** X17.  A destination that does not exist.  When the first [os.Stat] of
    the destination fails (the path does not exist, or cannot be examined),
    the copy never reports success: whenever it returns, whatever the
    options and the archive and whatever it has created meanwhile, it
    returns an error. *)
Theorem RemoteFileCopyCommand_absent_destination (fuel : nat)
        (opts : option FileCopyOpts) (destPath : string) (archive : TarStream)
        (w : World sys) (calls : list Call) (opened : list Handle)
        (e : option CopyError) :
  (forall fi, sys_Stat sys (wfs sys w)
                       (filepath.Clean (ExpandHomeDirSafe homeDir destPath))
              <> StatOk fi) ->
  copyObserved sys (RemoteFileCopyCommand homeDir sys fuel opts destPath archive w)
  = Some (calls, opened, e) ->
  exists ce, e = Some ce.
Proof.
  intros Habs. unfold RemoteFileCopyCommand, doStat. cbn [wfs].
  set (dest := filepath.Clean (ExpandHomeDirSafe homeDir destPath)) in *.
  destruct (sys_Stat sys (wfs sys w) dest) as [fi | msg | msg];
    [now destruct (Habs fi) | |]; cbn [copyPrecheck];
    (destruct (tarEntries archive) as [|next rest];
     [intros Hobs; apply copyObserved_Some in Hobs as (_ & _ & ->);
      eexists; reflexivity |]);
    match goal with
    | |- context [copyLoop ?a ?b ?c ?d ?e ?f ?g ?h] =>
        destruct (copyLoop a b c d e f g h) as [[w3 [ce|]]|]
    end;
    try discriminate;
    intros Hobs; apply copyObserved_Some in Hobs as (_ & _ & ->);
    eexists; reflexivity.
Qed.

End CopyMore.

(** The copy of the two files into the empty directory, with merge. *)
Lemma RemoteFileCopyCommand_removes_only_with_overwrite_witness :
  exists new,
    [CallStat "/dst"; CallStat "/dst/a"; CallCreate "/dst/a";
     CallCopy "/dst/a" [Byte.x61]; CallChmod "/dst/a" 420; CallClose "/dst/a"]
    = [] ++ new /\
    Forall (fun c => isRemoval c = false) new.
Proof.
  apply (RemoteFileCopyCommand_removes_only_with_overwrite "/home/u" MemFS.os 8
           optsMerge "/dst" (mkTarStream [fileA; fileB] None)
           (MemFS.world fsEmptyDst) _ [] None).
  - reflexivity.
  - vm_compute. reflexivity.
Defined.

(** The same copy: nothing is left open. *)
Lemma RemoteFileCopyCommand_open_handles_witness :
  @nil Handle = [] \/
  exists p msg, @None CopyError = Some (ErrCannotWriteFile p msg) /\
                @nil Handle = [HFile p].
Proof.
  apply (RemoteFileCopyCommand_open_handles "/home/u" MemFS.os 8
           optsMerge "/dst" (mkTarStream [fileA; fileB] None)
           (MemFS.world fsEmptyDst)
           [CallStat "/dst"; CallStat "/dst/a"; CallCreate "/dst/a";
            CallCopy "/dst/a" [Byte.x61]; CallChmod "/dst/a" 420;
            CallClose "/dst/a"] [] None).
  - reflexivity.
  - vm_compute. reflexivity.
Defined.

(** The directory [a] merged into a destination that holds a directory
    [a]: a thousand passes do not end the copy. *)
Lemma RemoteFileCopyCommand_merge_diverges_witness :
  RemoteFileCopyCommand "/home/u" MemFS.os 1000
                        (Some (mkFileCopyOpts false true true)) "/dst"
                        (mkTarStream [dirA; fileB] None) (MemFS.world fsWithDirA)
  = None.
Proof.
  apply (RemoteFileCopyCommand_merge_diverges "/home/u" MemFS.os 1000
           (mkFileCopyOpts false true true) "/dst" dirA [fileB] None
           (MemFS.world fsWithDirA)
           (mkFsFileInfo "dst" 0 493 0 true) (mkFsFileInfo "a" 0 493 0 true));
    reflexivity.
Defined.

(** The directory [a] copied to the new path [/new]: the directory is
    created and the copy returns the error of the first stat. *)
Lemma RemoteFileCopyCommand_absent_destination_witness :
  exists ce,
    Some (ErrCannotReadTarStream "no such file or directory") = Some ce.
Proof.
  apply (RemoteFileCopyCommand_absent_destination "/home/u" MemFS.os 8
           optsMerge "/new" (mkTarStream [dirA; fileB] None)
           (MemFS.world fsEmptyDst)
           [CallStat "/new"; CallStat "/new/a"; CallMkdirAll "/new/a" 493] []).
  - intros fi. vm_compute. discriminate.
  - vm_compute. reflexivity.
Defined.

(** ** encoding/base64: what is encoded decodes to itself *)

Example encode_sample :
  base64.EncodeToString [Byte.x4d; Byte.x61; Byte.x6e] = "TWFu" /\
  base64.EncodeToString [Byte.x4d; Byte.x61] = "TWE=" /\
  base64.EncodeToString [Byte.x4d] = "TQ==" /\
  base64.Decode "TWFu" = Some [Byte.x4d; Byte.x61; Byte.x6e] /\
  base64.Decode ("TW" +:+ String "010"%char "E=") = Some [Byte.x4d; Byte.x61] /\
  base64.Decode "TQ==" = Some [Byte.x4d] /\
  base64.Decode "TQ=" = None /\
  base64.Decode "TQ" = None /\
  base64.Decode "T*==" = None /\
  base64.Decode "TQ==TQ==" = None /\
  base64.Decode "" = Some [].
Proof. repeat split; vm_compute; reflexivity. Qed.

Section Base64Facts.
Import base64.

Lemma decodeMap_encode (v : Z) :
  0 <= v < 64 -> decodeMap (encode v) = v.
Proof.
  intros H.
  assert (T : forallb (fun n => decodeMap (encode (Z.of_nat n)) =? Z.of_nat n)
                      (seq 0 64) = true) by (vm_compute; reflexivity).
  rewrite forallb_forall in T.
  specialize (T (Z.to_nat v)). rewrite Z2Nat.id in T by lia.
  apply Z.eqb_eq, T, in_seq. lia.
Qed.

Lemma sextet_bounds (v : Z) : 0 <= Z.land v 63 < 64.
Proof.
  change 63 with (Z.ones 6). rewrite Z.land_ones by lia.
  apply Z.mod_pos_bound. lia.
Qed.

Lemma byteVal_bounds (b : Byte.byte) : 0 <= byteVal b < 256.
Proof.
  unfold byteVal. pose proof (Byte.to_N_bounded b). lia.
Qed.

Lemma byteVal_land (b : Byte.byte) : byteVal b = Z.land (byteVal b) (Z.ones 8).
Proof.
  rewrite Z.land_ones by lia. symmetry. apply Z.mod_small.
  pose proof (byteVal_bounds b). lia.
Qed.

Lemma toByte_byteVal (b : Byte.byte) : toByte (byteVal b) = b.
Proof.
  unfold toByte. change 255 with (Z.ones 8). rewrite <- byteVal_land.
  unfold byteVal. rewrite N2Z.id, Byte.of_to_N. reflexivity.
Qed.

Lemma toByte_land (v : Z) : toByte (Z.land v (Z.ones 8)) = toByte v.
Proof.
  unfold toByte. change 255 with (Z.ones 8).
  rewrite <- Z.land_assoc, Z.land_diag. reflexivity.
Qed.

Lemma sextets4 (v : Z) :
  Z.lor (Z.lor (Z.lor (Z.shiftl (Z.land (Z.shiftr v 18) (Z.ones 6)) 18)
                      (Z.shiftl (Z.land (Z.shiftr v 12) (Z.ones 6)) 12))
               (Z.shiftl (Z.land (Z.shiftr v 6) (Z.ones 6)) 6))
        (Z.land v (Z.ones 6))
  = Z.land v (Z.ones 24).
Proof. Z.bitblast. Qed.

Lemma sextets3 (v : Z) :
  Z.shiftr (Z.lor (Z.lor (Z.lor (Z.shiftl (Z.land (Z.shiftr v 18) (Z.ones 6)) 18)
                                (Z.shiftl (Z.land (Z.shiftr v 12) (Z.ones 6)) 12))
                         (Z.shiftl (Z.land (Z.shiftr v 6) (Z.ones 6)) 6))
                  0) 8
  = Z.land (Z.shiftr v 8) (Z.ones 16).
Proof. Z.bitblast. Qed.

Lemma sextets2 (v : Z) :
  Z.shiftr (Z.lor (Z.lor (Z.lor (Z.shiftl (Z.land (Z.shiftr v 18) (Z.ones 6)) 18)
                                (Z.shiftl (Z.land (Z.shiftr v 12) (Z.ones 6)) 12))
                         0)
                  0) 16
  = Z.land (Z.shiftr v 16) (Z.ones 8).
Proof. Z.bitblast. Qed.

Lemma bytes3 (x0 x1 x2 : Z) :
  let b0 := Z.land x0 (Z.ones 8) in
  let b1 := Z.land x1 (Z.ones 8) in
  let b2 := Z.land x2 (Z.ones 8) in
  let val := Z.lor (Z.lor (Z.shiftl b0 16) (Z.shiftl b1 8)) b2 in
  Z.land (Z.shiftr (Z.land val (Z.ones 24)) 16) (Z.ones 8) = b0 /\
  Z.land (Z.shiftr (Z.land val (Z.ones 24)) 8) (Z.ones 8) = b1 /\
  Z.land (Z.land val (Z.ones 24)) (Z.ones 8) = b2.
Proof. cbv zeta. repeat split; Z.bitblast. Qed.

Lemma bytes2 (x0 x1 : Z) :
  let b0 := Z.land x0 (Z.ones 8) in
  let b1 := Z.land x1 (Z.ones 8) in
  let val := Z.lor (Z.shiftl b0 16) (Z.shiftl b1 8) in
  Z.land (Z.shiftr (Z.land (Z.shiftr val 8) (Z.ones 16)) 8) (Z.ones 8) = b0 /\
  Z.land (Z.land (Z.shiftr val 8) (Z.ones 16)) (Z.ones 8) = b1.
Proof. cbv zeta. repeat split; Z.bitblast. Qed.

Lemma bytes1 (x0 : Z) :
  let b0 := Z.land x0 (Z.ones 8) in
  Z.land (Z.land (Z.shiftr (Z.shiftl b0 16) 16) (Z.ones 8)) (Z.ones 8) = b0.
Proof. cbv zeta. Z.bitblast. Qed.

Lemma toByte_eq (v : Z) (b : Byte.byte) :
  Z.land v (Z.ones 8) = byteVal b -> toByte v = b.
Proof.
  intros H. unfold toByte. change 255 with (Z.ones 8). rewrite H.
  unfold byteVal. rewrite N2Z.id, Byte.of_to_N. reflexivity.
Qed.

(** A full quantum decodes to the three bytes it encodes. *)
Lemma quantum_full (b0 b1 b2 : Byte.byte) :
  let val := Z.lor (Z.lor (Z.shiftl (byteVal b0) 16) (Z.shiftl (byteVal b1) 8))
                   (byteVal b2) in
  quantumBytes [Z.land (Z.shiftr val 18) 63; Z.land (Z.shiftr val 12) 63;
                Z.land (Z.shiftr val 6) 63; Z.land val 63] 4
  = [b0; b1; b2].
Proof.
  intros val. unfold quantumBytes. cbn [nth Nat.sub take].
  change 63 with (Z.ones 6). rewrite sextets4.
  pose proof (bytes3 (byteVal b0) (byteVal b1) (byteVal b2)) as H.
  cbv zeta in H. rewrite <- !byteVal_land in H. fold val in H.
  destruct H as (H0 & H1 & H2).
  f_equal; [| f_equal; [| f_equal]]; apply toByte_eq; assumption.
Qed.

Lemma quantum_two (b0 b1 : Byte.byte) :
  let val := Z.lor (Z.shiftl (byteVal b0) 16) (Z.shiftl (byteVal b1) 8) in
  quantumBytes [Z.land (Z.shiftr val 18) 63; Z.land (Z.shiftr val 12) 63;
                Z.land (Z.shiftr val 6) 63] 3
  = [b0; b1].
Proof.
  intros val. unfold quantumBytes. cbn [nth Nat.sub take].
  change 63 with (Z.ones 6).
  pose proof (bytes2 (byteVal b0) (byteVal b1)) as H.
  cbv zeta in H. rewrite <- !byteVal_land in H. fold val in H.
  destruct H as (H0 & H1).
  pose proof (sextets3 val) as S3.
  f_equal; [| f_equal]; apply toByte_eq.
  - rewrite <- H0, <- S3, Z.shiftr_shiftr by lia. reflexivity.
  - rewrite <- H1, <- S3. reflexivity.
Qed.

Lemma quantum_one (b0 : Byte.byte) :
  let val := Z.shiftl (byteVal b0) 16 in
  quantumBytes [Z.land (Z.shiftr val 18) 63; Z.land (Z.shiftr val 12) 63] 2
  = [b0].
Proof.
  intros val. unfold quantumBytes. cbn [nth Nat.sub take].
  change 63 with (Z.ones 6). change (Z.shiftl 0 6) with 0.
  pose proof (bytes1 (byteVal b0)) as H.
  cbv zeta in H. rewrite <- !byteVal_land in H. fold val in H.
  pose proof (sextets2 val) as S2.
  f_equal. apply toByte_eq. rewrite <- H, <- S2. reflexivity.
Qed.

Lemma decodeMap_sextet (v : Z) :
  decodeMap (encode (Z.land v 63)) = Z.land v 63 /\
  (decodeMap (encode (Z.land v 63)) =? 255) = false.
Proof.
  pose proof (sextet_bounds v) as Hb.
  rewrite decodeMap_encode by exact Hb. split; [reflexivity |].
  apply Z.eqb_neq. lia.
Qed.

(** What is encoded decodes to itself. *)
Lemma Decode_EncodeToString (src : list Byte.byte) :
  Decode (EncodeToString src) = Some src.
Proof.
  unfold Decode.
  assert (G : forall (n : nat) (src : list Byte.byte),
             (length src <= n)%nat ->
             decodeQuanta (EncodeToString src) [] = Some src).
  { induction n as [|n IH]; intros l Hl.
    - destruct l; [reflexivity | simpl in Hl; lia].
    - destruct l as [|b0 [|b1 [|b2 rest]]].
      + reflexivity.
      + cbn [EncodeToString]. set (val := Z.shiftl (byteVal b0) 16).
        cbn [decodeQuanta].
        destruct (decodeMap_sextet (Z.shiftr val 18)) as [-> ->].
        destruct (decodeMap_sextet (Z.shiftr val 12)) as [-> ->].
        cbn [negb app length Nat.eqb].
        change (decodeMap padChar =? 255) with true.
        change (isCRLF padChar) with false.
        change (Ascii.eqb padChar padChar) with true.
        cbn [negb skipNewlines]. change (isCRLF padChar) with false.
        cbv iota. change (Ascii.eqb padChar padChar) with true. cbv iota.
        f_equal. apply quantum_one.
      + cbn [EncodeToString].
        set (val := Z.lor (Z.shiftl (byteVal b0) 16) (Z.shiftl (byteVal b1) 8)).
        cbn [decodeQuanta].
        destruct (decodeMap_sextet (Z.shiftr val 18)) as [-> ->].
        destruct (decodeMap_sextet (Z.shiftr val 12)) as [-> ->].
        destruct (decodeMap_sextet (Z.shiftr val 6)) as [-> ->].
        cbn [negb app length Nat.eqb].
        change (decodeMap padChar =? 255) with true.
        change (isCRLF padChar) with false.
        change (Ascii.eqb padChar padChar) with true.
        cbn [negb skipNewlines].
        f_equal. apply quantum_two.
      + cbn [EncodeToString].
        set (val := Z.lor (Z.lor (Z.shiftl (byteVal b0) 16) (Z.shiftl (byteVal b1) 8))
                          (byteVal b2)).
        cbn [decodeQuanta].
        destruct (decodeMap_sextet (Z.shiftr val 18)) as [-> ->].
        destruct (decodeMap_sextet (Z.shiftr val 12)) as [-> ->].
        destruct (decodeMap_sextet (Z.shiftr val 6)) as [-> ->].
        destruct (decodeMap_sextet val) as [-> ->].
        cbn [negb app length Nat.eqb].
        rewrite IH by (cbn [length] in Hl; lia).
        cbn [option_map]. f_equal.
        unfold val. rewrite quantum_full. reflexivity. }
  apply (G (length src)). lia.
Qed.

End Base64Facts.

(** ** Stream requests: remoteStreamFileInternal and RemoteStreamFileCommand *)

Section StreamFileFacts.

Variable env : Env.
Variable MaxFileSize : Z.
Variable FileChunkSize : nat.
Variable os_Open : string -> OpenedFile + string.

(** The metadata of a directory: the size is -1, and it is found. *)
Lemma fileInfoInternal_directory (path : string) (extended : bool)
      (finfo : FileInfo) :
  fileInfoInternal env path extended = inl finfo ->
  IsDir finfo = true ->
  Size finfo = -1 /\ NotFound finfo = false.
Proof.
  unfold fileInfoInternal.
  destruct (os_Stat env _) as [fi | msg | msg]; [| | discriminate].
  - destruct extended; intros [= <-]; cbn; intros ->; split; reflexivity.
  - intros [= <-]. cbn. discriminate.
Qed.

Lemma streamResponse_decodes (cb : StreamCallback) :
  base64.Decode (fdData64 (streamResponse cb)) = Some (cbData cb).
Proof.
  unfold streamResponse.
  destruct (if (1 <? length (cbFileInfo cb))%nat then _ else _) as [info entries].
  destruct (cbData cb) as [|b data] eqn:E.
  - reflexivity.
  - cbn [length Nat.ltb Nat.leb fdData64]. apply Decode_EncodeToString.
Qed.

Lemma streamResponse_data (cb : StreamCallback) :
  dataResponse (cbRange cb) (streamResponse cb).
Proof.
  unfold streamResponse, dataResponse.
  destruct (if (1 <? length (cbFileInfo cb))%nat then _ else _) as [info entries].
  destruct (cbData cb) as [|b data] eqn:E.
  - left. split; reflexivity.
  - right. exists (b :: data). split; [discriminate |].
    cbn [length Nat.ltb Nat.leb fdData64 fdAt].
    split; [apply Decode_EncodeToString | reflexivity].
Qed.

(** The probe closes the one file it opens. *)
Lemma checkIsReadOnlyHandles_closed (path : string) (fileInfo : option fsFileInfo)
      (exists_ : bool) :
  openAfter (checkIsReadOnlyHandles env path fileInfo exists_) = [].
Proof.
  unfold checkIsReadOnlyHandles.
  assert (Hpair : forall h, openAfter [HOpen h; HClose h] = []).
  { intros [q | |]; unfold openAfter; cbn [fold_left app removeFirst Handle_eqb];
      rewrite ?String.eqb_refl; reflexivity. }
  destruct (negb exists_ || _).
  - destruct (RandomHexString env 12) as [r|]; [| reflexivity].
    destruct (os_CreateOk env _); [apply Hpair | reflexivity].
  - destruct (os_OpenAppendOk env path); [apply Hpair | reflexivity].
Qed.

Lemma fileInfoInternalHandles_closed (path : string) (extended : bool) :
  openAfter (fileInfoInternalHandles env path extended) = [].
Proof.
  unfold fileInfoInternalHandles.
  destruct (os_Stat env _) as [fi | msg | msg]; [| | reflexivity].
  - destruct extended; [apply checkIsReadOnlyHandles_closed | reflexivity].
  - apply checkIsReadOnlyHandles_closed.
Qed.

(** When the metadata cannot be had the probe has not run. *)
Lemma fileInfoInternalHandles_error (path : string) (extended : bool) (e : string) :
  fileInfoInternal env path extended = inr e ->
  fileInfoInternalHandles env path extended = [].
Proof.
  unfold fileInfoInternal, fileInfoInternalHandles.
  destruct (os_Stat env _) as [fi | msg | msg]; [discriminate | discriminate |].
  reflexivity.
Qed.

Lemma remoteStreamFileDirHandles_closed (path : string) (byteRange : ByteRangeType) :
  openAfter (remoteStreamFileDirHandles env path byteRange) = [].
Proof.
  unfold remoteStreamFileDirHandles.
  destruct (os_ReadDir env path) as [entries | msg]; [| reflexivity].
  destruct (negb (All byteRange) && _); [reflexivity |].
  apply fileInfoInternalHandles_closed.
Qed.

Lemma openAfter_closed_app (l1 l2 : list HEvent) :
  openAfter l1 = [] -> openAfter l2 = [] -> openAfter (l1 ++ l2) = [].
Proof. intros H1 H2. rewrite openAfter_app, H1. exact H2. Qed.

(** What a return of [remoteStreamFileInternal] looks like. *)
Lemma remoteStreamFileInternal_returns (fuel : nat) (ctx : Ctx)
      (dataPath dataByteRange : string) (calls : list StreamCallback)
      (err : error) (log : list HEvent) :
  remoteStreamFileInternal env MaxFileSize FileChunkSize os_Open fuel ctx
                           dataPath dataByteRange
  = Some (calls, err, log) ->
  openAfter log = [] /\
  ((calls = [] /\ log = [] /\ exists e, err = Some e) \/
   exists byteRange path finfo rest slog,
     parseByteRange dataByteRange = inl byteRange /\
     ExpandHomeDir env dataPath = inl path /\
     fileInfoInternal env path true = inl finfo /\
     calls = mkStreamCallback [finfo] [] byteRange :: rest /\
     Forall (fun cb => cbRange cb = byteRange) rest /\
     log = fileInfoInternalHandles env path true ++ slog /\
     (NotFound finfo = true -> rest = [] /\ err = None /\ slog = []) /\
     (Exists (fun cb => cbData cb <> []) rest ->
      NotFound finfo = false /\ IsDir finfo = false /\
      Size finfo <= MaxFileSize)).
Proof.
  unfold remoteStreamFileInternal.
  destruct (parseByteRange dataByteRange) as [byteRange | e].
  2: { intros [= <- <- <-]. split; [reflexivity |]. left. split; [reflexivity |].
       split; [reflexivity | eexists; reflexivity]. }
  destruct (ExpandHomeDir env dataPath) as [path | e].
  2: { intros [= <- <- <-]. split; [reflexivity |]. left. split; [reflexivity |].
       split; [reflexivity | eexists; reflexivity]. }
  pose proof (fileInfoInternalHandles_closed path true) as Hprobe.
  destruct (fileInfoInternal env path true) as [finfo | e] eqn:Hinfo.
  2: { rewrite (fileInfoInternalHandles_error path true e Hinfo).
       intros [= <- <- <-]. split; [reflexivity |]. left. split; [reflexivity |].
       split; [reflexivity | eexists; reflexivity]. }
  cbv zeta. intros Hrun.
  destruct (NotFound finfo) eqn:Hnf.
  { injection Hrun as <- <- <-. split; [exact Hprobe |].
    right. exists byteRange, path, finfo, [], [].
    do 4 (split; [first [reflexivity | exact Hinfo] |]). split; [constructor |].
    split; [now rewrite app_nil_r |].
    split; [intros _; repeat split; reflexivity |].
    intros H; inversion H. }
  destruct (Size finfo >? MaxFileSize) eqn:Hbig.
  { injection Hrun as <- <- <-. split; [exact Hprobe |].
    right. exists byteRange, path, finfo, [], [].
    do 4 (split; [first [reflexivity | exact Hinfo] |]). split; [constructor |].
    split; [now rewrite app_nil_r |].
    split; [intros Hnf'; congruence |].
    intros H; inversion H. }
  rewrite Z.gtb_ltb in Hbig. apply Z.ltb_ge in Hbig.
  destruct (IsDir finfo) eqn:Hdir.
  - destruct (remoteStreamFileDir env ctx path byteRange) as [batches e].
    injection Hrun as <- <- <-. split.
    { apply openAfter_closed_app;
        [exact Hprobe | apply remoteStreamFileDirHandles_closed]. }
    right. exists byteRange, path, finfo. eexists _, _.
    do 4 (split; [first [reflexivity | exact Hinfo] |]).
    split; [apply Forall_map, Forall_forall; intros; reflexivity |].
    split; [reflexivity |].
    split; [intros Hnf'; congruence |].
    intros H.
    apply Exists_exists in H as (cb & Hin & Hne).
    apply list_elem_of_In, in_map_iff in Hin as (b & <- & _).
    now destruct Hne.
  - destruct (remoteStreamFileRegular FileChunkSize os_Open fuel ctx path byteRange)
      as [[[chunks e] l]|] eqn:Hreg; [| discriminate].
    injection Hrun as <- <- <-. split.
    { apply openAfter_closed_app; [exact Hprobe |].
      exact (remoteStreamFileRegular_closes _ _ _ _ _ _ _ _ _ Hreg). }
    right. exists byteRange, path, finfo. eexists _, _.
    do 4 (split; [first [reflexivity | exact Hinfo] |]).
    split; [apply Forall_map, Forall_forall; intros; reflexivity |].
    split; [reflexivity |].
    split; [intros Hnf'; congruence |].
    intros _. split; [exact Hnf | split; [exact Hdir | exact Hbig]].
Qed.

(** X18.  The calls of the callback and the handles of a stream request.
    Whenever [remoteStreamFileInternal] returns, every handle that the
    code of this file has opened for it is closed (the probe closes its
    file at once, the streamer by its deferred close); and either it has
    not called the callback at all,
    has opened nothing and returns an error (the byte range is malformed,
    the path cannot be expanded, or the metadata cannot be had), or its
    first call hands over the metadata of the path alone, without data,
    every later call carries the byte range of the request, and the
    handles it has opened are first those of the read-only probe of the
    metadata, then those of the streamer.  The probe runs before the size
    is tested: it also opens a file that is then refused as too large.
    A path that does not exist is not an error: that one call is made,
    nil is returned, and only the probe has opened anything.  Data is
    handed over only for a path that exists, is not a directory and whose
    size does not exceed the maximum file size. *)
Theorem remoteStreamFileInternal_calls (fuel : nat) (ctx : Ctx)
        (dataPath dataByteRange : string) (calls : list StreamCallback)
        (err : error) (log : list HEvent) :
  remoteStreamFileInternal env MaxFileSize FileChunkSize os_Open fuel ctx
                           dataPath dataByteRange
  = Some (calls, err, log) ->
  openAfter log = [] /\
  ((calls = [] /\ log = [] /\ exists e, err = Some e) \/
   exists byteRange path finfo rest slog,
     parseByteRange dataByteRange = inl byteRange /\
     ExpandHomeDir env dataPath = inl path /\
     fileInfoInternal env path true = inl finfo /\
     calls = mkStreamCallback [finfo] [] byteRange :: rest /\
     Forall (fun cb => cbRange cb = byteRange) rest /\
     log = fileInfoInternalHandles env path true ++ slog /\
     (NotFound finfo = true -> rest = [] /\ err = None /\ slog = []) /\
     (Exists (fun cb => cbData cb <> []) rest ->
      NotFound finfo = false /\ IsDir finfo = false /\
      Size finfo <= MaxFileSize)).
Proof. apply remoteStreamFileInternal_returns. Qed.

(** X19.  The size limit does not apply to directories.  The metadata of
    a directory carries the size -1, whatever the file system reports, so
    the test against the maximum file size never refuses a directory:
    whenever that maximum is -1 or more, a request for a directory hands
    over its metadata and then exactly what the directory streamer hands
    over, and returns what the directory streamer returns.  The handles
    opened on the way are those of the read-only probes: the one of the
    metadata of the directory, then the one of the metadata of its parent
    if the directory streamer fetches it. *)
Theorem remoteStreamFileInternal_directory (fuel : nat) (ctx : Ctx)
        (dataPath dataByteRange path : string) (byteRange : ByteRangeType)
        (finfo : FileInfo) :
  parseByteRange dataByteRange = inl byteRange ->
  ExpandHomeDir env dataPath = inl path ->
  fileInfoInternal env path true = inl finfo ->
  IsDir finfo = true ->
  -1 <= MaxFileSize ->
  remoteStreamFileInternal env MaxFileSize FileChunkSize os_Open fuel ctx
                           dataPath dataByteRange
  = Some (mkStreamCallback [finfo] [] byteRange
            :: map (fun b => mkStreamCallback b [] byteRange)
                   (fst (remoteStreamFileDir env ctx path byteRange)),
          snd (remoteStreamFileDir env ctx path byteRange),
          fileInfoInternalHandles env path true
            ++ remoteStreamFileDirHandles env path byteRange).
Proof.
  intros Hparse Hexp Hinfo Hdir Hmax. unfold remoteStreamFileInternal.
  rewrite Hparse, Hexp, Hinfo.
  destruct (fileInfoInternal_directory path true finfo Hinfo Hdir) as [Hsz Hnf].
  cbv zeta. rewrite Hnf, Hsz, Hdir.
  replace (-1 >? MaxFileSize) with false
    by (symmetry; rewrite Z.gtb_ltb; apply Z.ltb_ge; lia).
  destruct (remoteStreamFileDir env ctx path byteRange); reflexivity.
Qed.

(** X20.  The data of the responses of [RemoteStreamFileCommand].  Every
    response sent either carries no data (no [Data64], no [At]) or carries a
    chunk that is not empty: its [Data64] decodes to the chunk, the size in
    [At] is the length of the chunk, and the offset in [At] is the start of
    the requested byte range, the same in every response: it does not
    advance with the chunks, and is 0 when no byte range is given. *)
Theorem RemoteStreamFileCommand_data_offsets (fuel : nat) (ctx : Ctx)
        (dataPath dataByteRange : string) (byteRange : ByteRangeType)
        (sent : list (FileData + string)) :
  parseByteRange dataByteRange = inl byteRange ->
  RemoteStreamFileCommand env MaxFileSize FileChunkSize os_Open fuel ctx
                          dataPath dataByteRange
  = Some sent ->
  Forall (fun m => match m with
                   | inl r => dataResponse byteRange r
                   | inr _ => True
                   end) sent.
Proof.
  intros Hparse. unfold RemoteStreamFileCommand.
  destruct (remoteStreamFileInternal env MaxFileSize FileChunkSize os_Open fuel ctx
                                     dataPath dataByteRange)
    as [[[calls err] log]|] eqn:Hrun; [| discriminate].
  intros [= <-].
  apply Forall_app. split; [| destruct err; repeat constructor].
  destruct (remoteStreamFileInternal_returns _ _ _ _ _ _ _ Hrun)
    as [_ [(-> & _) | (br & path & finfo & rest & slog & Hp & _ & _ & -> & Hall & _)]].
  { constructor. }
  rewrite Hparse in Hp. injection Hp as <-.
  apply Forall_map. constructor.
  - apply (streamResponse_data (mkStreamCallback [finfo] [] byteRange)).
  - eapply Forall_impl; [exact Hall |]. intros cb <-.
    apply streamResponse_data.
Qed.

Lemma decodedData_responses (calls : list StreamCallback) :
  decodedData (map streamResponse calls) = Some (concat (map cbData calls)).
Proof.
  induction calls as [|cb calls IH]; [reflexivity |].
  cbn [map decodedData concat]. now rewrite streamResponse_decodes, IH.
Qed.

Lemma map_cbData_chunks (byteRange : ByteRangeType) (chunks : list (list Byte.byte)) :
  map cbData (map (fun c => mkStreamCallback [] c byteRange) chunks) = chunks.
Proof. rewrite map_map. cbn. apply map_id. Qed.

(** The responses of a regular file that is within the size limit. *)
Lemma RemoteStreamFileCommand_regular (fuel : nat) (dataPath dataByteRange path : string)
      (byteRange : ByteRangeType) (finfo : FileInfo)
      (chunks : list (list Byte.byte)) (log : list HEvent) :
  parseByteRange dataByteRange = inl byteRange ->
  ExpandHomeDir env dataPath = inl path ->
  fileInfoInternal env path true = inl finfo ->
  NotFound finfo = false -> IsDir finfo = false -> Size finfo <= MaxFileSize ->
  remoteStreamFileRegular FileChunkSize os_Open fuel None path byteRange
  = Some (chunks, None, log) ->
  exists resps,
    RemoteStreamFileCommand env MaxFileSize FileChunkSize os_Open fuel None
                            dataPath dataByteRange
    = Some (map inl resps) /\
    option_map fdInfo (head resps) = Some (Some finfo) /\
    decodedData resps = Some (concat chunks).
Proof.
  intros Hparse Hexp Hinfo Hnf Hdir Hsz Hrun.
  unfold RemoteStreamFileCommand, remoteStreamFileInternal.
  rewrite Hparse, Hexp, Hinfo, Hnf, Hdir, Hrun.
  replace (Size finfo >? MaxFileSize) with false
    by (symmetry; rewrite Z.gtb_ltb; apply Z.ltb_ge; lia).
  eexists. split; [rewrite app_nil_r, <- map_map; reflexivity |].
  split; [reflexivity |].
  rewrite decodedData_responses. cbn [map concat cbData app].
  now rewrite map_cbData_chunks.
Qed.

Hypothesis chunk_pos : (0 < FileChunkSize)%nat.

(** X21.  A byte-range request, from the request to the bytes received.
    For a regular file within the size limit that is read without faults,
    the request with the byte range written [<start>-<end>] (decimal,
    0 <= start <= end) under a context that is not cancelled sends
    responses only, no error; the first response carries the metadata of
    the file; and the [Data64] fields of the responses, decoded and put
    together in order, are exactly the bytes of the file at the offsets
    [start <= i < end]. *)
Theorem RemoteStreamFileCommand_range_decoded (fuel : nat)
        (dataPath path : string) (finfo : FileInfo) (f : OpenedFile) (s e : Z) :
  ExpandHomeDir env dataPath = inl path ->
  fileInfoInternal env path true = inl finfo ->
  NotFound finfo = false -> IsDir finfo = false -> Size finfo <= MaxFileSize ->
  os_Open path = inl f ->
  (forall off, readFails f off = false) ->
  seekFails f = false ->
  0 <= s -> s <= e -> e <= int64_max ->
  (length (fileBytes f) < fuel)%nat ->
  exists resps,
    RemoteStreamFileCommand env MaxFileSize FileChunkSize os_Open fuel None
                            dataPath (itoa s +:+ "-" +:+ itoa e)
    = Some (map inl resps) /\
    option_map fdInfo (head resps) = Some (Some finfo) /\
    decodedData resps = Some (spanHalfOpen s e (fileBytes f)).
Proof.
  intros Hexp Hinfo Hnf Hdir Hsz Hopen Hok Hseek Hs Hse He Hfuel.
  assert (Hrun : exists chunks,
             remoteStreamFileRegular FileChunkSize os_Open fuel None path
                                     (mkByteRange false s e)
             = Some (chunks, None, [HOpen (HFile path); HClose (HFile path)]) /\
             concat chunks = spanHalfOpen s e (fileBytes f)).
  { unfold remoteStreamFileRegular. rewrite Hopen. cbn [All Start negb andb].
    destruct (streamRegularLoop_range FileChunkSize chunk_pos f s e Hok fuel 0%nat
                                      (Z.to_nat s) [])
      as (out & Hloop & Hcat); [lia | lia |].
    rewrite Z2Nat.id in Hloop by lia.
    exists out. split.
    - destruct (s >? 0) eqn:Hpos.
      + rewrite Hseek, Hloop. reflexivity.
      + rewrite Z.gtb_ltb in Hpos. apply Z.ltb_ge in Hpos.
        assert (s = 0) as -> by lia.
        change (Z.to_nat 0) with 0%nat in Hloop. rewrite Hloop. reflexivity.
    - rewrite Hcat. cbn [concat app]. unfold spanHalfOpen. f_equal. lia. }
  destruct Hrun as (chunks & Hrun & Hcat).
  destruct (RemoteStreamFileCommand_regular fuel dataPath _ path _ finfo chunks _
              (parseByteRange_itoa s e Hs Hse He) Hexp Hinfo Hnf Hdir Hsz Hrun)
    as (resps & Hcmd & Hhead & Hdec).
  exists resps. rewrite Hdec, Hcat. repeat split; assumption.
Qed.

End StreamFileFacts.

(** The file [/srv/f] streamed with the byte range 1-3: the probe opens
    the file for appending and closes it, then the streamer opens and
    closes it. *)
Lemma remoteStreamFileInternal_calls_witness :
  exists calls err,
    remoteStreamFileInternal (memEnv fsSrv) 1024 2 (MemFSFiles.Open 2 fsSrv) 8 None
                             "/srv/f" "1-3"
    = Some (calls, err,
            [HOpen (HFile "/srv/f"); HClose (HFile "/srv/f");
             HOpen (HFile "/srv/f"); HClose (HFile "/srv/f")]) /\
    openAfter [HOpen (HFile "/srv/f"); HClose (HFile "/srv/f");
               HOpen (HFile "/srv/f"); HClose (HFile "/srv/f")] = [].
Proof.
  eexists _, _.
  assert (Hrun : remoteStreamFileInternal (memEnv fsSrv) 1024 2
                   (MemFSFiles.Open 2 fsSrv) 8 None "/srv/f" "1-3"
                 = Some (_, _, [HOpen (HFile "/srv/f"); HClose (HFile "/srv/f");
                                HOpen (HFile "/srv/f"); HClose (HFile "/srv/f")]))
    by (vm_compute; reflexivity).
  split; [exact Hrun |].
  exact (proj1 (remoteStreamFileInternal_calls (memEnv fsSrv) 1024 2
                  (MemFSFiles.Open 2 fsSrv) 8 None "/srv/f" "1-3" _ _ _ Hrun)).
Defined.

(** The sample directory requested as a file: its metadata, then its
    listing; the probe of the directory has created and closed a
    temporary file beside it. *)
Lemma remoteStreamFileInternal_directory_witness :
  exists finfo,
    remoteStreamFileInternal sampleEnv 0 2 (fun _ => inr "not opened") 8 None
                             "/srv/x" ""
    = Some (mkStreamCallback [finfo] [] (mkByteRange true 0 0)
              :: map (fun b => mkStreamCallback b [] (mkByteRange true 0 0))
                     (fst (remoteStreamFileDir sampleEnv None "/srv/x"
                                               (mkByteRange true 0 0))),
            snd (remoteStreamFileDir sampleEnv None "/srv/x" (mkByteRange true 0 0)),
            [HOpen (HFile "/srv/wsh-tmp-00"); HClose (HFile "/srv/wsh-tmp-00")]).
Proof.
  eexists.
  apply (remoteStreamFileInternal_directory sampleEnv 0 2 (fun _ => inr "not opened")
           8 None "/srv/x" "" "/srv/x" (mkByteRange true 0 0)).
  - reflexivity.
  - reflexivity.
  - vm_compute. reflexivity.
  - reflexivity.
  - lia.
Defined.

(** The responses for the file [/srv/f] and the byte range 1-3. *)
Lemma RemoteStreamFileCommand_data_offsets_witness :
  exists sent,
    RemoteStreamFileCommand (memEnv fsSrv) 1024 2 (MemFSFiles.Open 2 fsSrv) 8 None
                            "/srv/f" "1-3"
    = Some sent /\
    Forall (fun m => match m with
                     | inl r => dataResponse (mkByteRange false 1 3) r
                     | inr _ => True
                     end) sent.
Proof.
  eexists. split; [vm_compute; reflexivity |].
  apply (RemoteStreamFileCommand_data_offsets (memEnv fsSrv) 1024 2
           (MemFSFiles.Open 2 fsSrv) 8 None "/srv/f" "1-3").
  - reflexivity.
  - vm_compute. reflexivity.
Defined.

(** The two data responses of that request both give 1 for their offset. *)
Example RemoteStreamFileCommand_same_offset :
  option_map (map (fun m => match m with
                            | inl r => (fdData64 r, fdAt r)
                            | inr _ => ("", None)
                            end))
             (RemoteStreamFileCommand (memEnv fsSrv) 1024 1 (MemFSFiles.Open 1 fsSrv)
                                      8 None "/srv/f" "1-3")
  = Some [("", None);
          ("Yg==", Some (mkFileDataAt 1 1));
          ("Yw==", Some (mkFileDataAt 1 1))].
Proof. vm_compute. reflexivity. Qed.

(** The same request, decoded. *)
Lemma RemoteStreamFileCommand_range_decoded_witness :
  exists resps,
    RemoteStreamFileCommand (memEnv fsSrv) 1024 2 (MemFSFiles.Open 2 fsSrv) 8 None
                            "/srv/f" (itoa 1 +:+ "-" +:+ itoa 3)
    = Some (map inl resps) /\
    option_map fdInfo (head resps)
    = Some (Some (setReadOnly
                    (statToFileInfo (memEnv fsSrv) "/srv/f"
                                    (mkFsFileInfo "f" 3 420 0 false) true)
                    false)) /\
    decodedData resps
    = Some (spanHalfOpen 1 3 [Byte.x61; Byte.x62; Byte.x63]).
Proof.
  apply (RemoteStreamFileCommand_range_decoded (memEnv fsSrv) 1024 2
           (MemFSFiles.Open 2 fsSrv) ltac:(lia) 8 "/srv/f" "/srv/f"
           (setReadOnly
              (statToFileInfo (memEnv fsSrv) "/srv/f"
                              (mkFsFileInfo "f" 3 420 0 false) true)
              false)
           (mkOpenedFile [Byte.x61; Byte.x62; Byte.x63] (fun _ => 2%nat)
                         (fun _ => false) false) 1 3).
  - reflexivity.
  - vm_compute. reflexivity.
  - reflexivity.
  - reflexivity.
  - vm_compute. discriminate.
  - vm_compute. reflexivity.
  - intros off. reflexivity.
  - reflexivity.
  - lia.
  - lia.
  - unfold int64_max. lia.
  - simpl. lia.
Defined.

(** ** Paths and the file system in memory *)

Lemma rev_app_append (s t u : string) :
  String.rev_app s t +:+ u = String.rev_app s (t +:+ u).
Proof.
  revert t. induction s as [|a s IH]; intros t; [reflexivity |].
  cbn [String.rev_app]. rewrite IH, append_cons. reflexivity.
Qed.

Lemma splitSlash_nonempty (cur s : string) : filepath.splitSlash cur s <> [].
Proof.
  revert cur. induction s as [|c s IH]; intros cur; cbn [filepath.splitSlash].
  - discriminate.
  - destruct (Ascii.eqb c "/"); [discriminate | apply IH].
Qed.

Lemma joinSlash_cons (x : string) (l : list string) :
  l <> [] -> filepath.joinSlash (x :: l) = x +:+ "/" +:+ filepath.joinSlash l.
Proof. destruct l; [congruence | reflexivity]. Qed.

(** Joining the elements of a path gives the path back. *)
Lemma joinSlash_splitSlash (cur s : string) :
  filepath.joinSlash (filepath.splitSlash cur s) = String.rev cur +:+ s.
Proof.
  revert cur. induction s as [|c s IH]; intros cur; cbn [filepath.splitSlash].
  - cbn [filepath.joinSlash]. now rewrite append_empty.
  - destruct (Ascii.eqb_spec c "/") as [-> | Hne].
    + rewrite joinSlash_cons by apply splitSlash_nonempty.
      rewrite IH. reflexivity.
    + rewrite IH. unfold String.rev. cbn [String.rev_app].
      rewrite !rev_app_append, append_cons, !append_nil. reflexivity.
Qed.

Lemma append_assoc_s (a b c : string) : (a +:+ b) +:+ c = a +:+ (b +:+ c).
Proof.
  induction a as [|x a IH]; [now rewrite !append_nil |].
  rewrite !append_cons, IH. reflexivity.
Qed.

Lemma prefixesFrom_last (comps : list string) :
  forall cur, comps <> [] ->
    In (cur +:+ "/" +:+ filepath.joinSlash comps) (MemFS.prefixesFrom cur comps).
Proof.
  induction comps as [|c r IH]; intros cur Hne; [congruence |].
  cbn [MemFS.prefixesFrom]. destruct r as [|c' r'].
  - left. reflexivity.
  - right. rewrite joinSlash_cons by discriminate.
    specialize (IH (cur +:+ "/" +:+ c) ltac:(discriminate)).
    rewrite !append_assoc_s in IH. exact IH.
Qed.

(** A path is the last of the paths that [MkdirAll] goes through for it. *)
Lemma prefixesOf_self (p : string) : p <> "" -> In p (MemFS.prefixesOf p).
Proof.
  intros Hne. unfold MemFS.prefixesOf.
  pose proof (joinSlash_splitSlash "" p) as Hj.
  change (String.rev "" +:+ p) with ("" +:+ p) in Hj. rewrite append_nil in Hj.
  destruct (filepath.splitSlash "" p) as [|c r] eqn:E.
  - now destruct (splitSlash_nonempty "" p).
  - apply in_or_app. destruct r as [|c' r'].
    + cbn [filepath.joinSlash] in Hj. subst c. left.
      destruct (String.eqb_spec p ""); [contradiction | now left].
    + right. rewrite <- Hj. rewrite joinSlash_cons by discriminate.
      apply prefixesFrom_last. discriminate.
Qed.

Lemma cleanStep_nonempty (rooted : bool) (l : list string) :
  forall stack,
    Forall (fun c => c <> "") stack ->
    Forall (fun c => c <> "") (fold_left (filepath.cleanStep rooted) l stack).
Proof.
  induction l as [|c l IH]; intros stack Hst; [exact Hst |].
  cbn [fold_left]. apply IH. unfold filepath.cleanStep.
  destruct (String.eqb_spec c "") as [-> | Hc]; [exact Hst |].
  cbn [orb]. destruct (String.eqb c "."); [exact Hst |].
  destruct (String.eqb c "..").
  - destruct stack as [|top rest].
    + destruct rooted; [constructor | constructor; [exact Hc | constructor]].
    + destruct (String.eqb top "..").
      * constructor; [exact Hc | exact Hst].
      * now inversion Hst.
  - constructor; [exact Hc | exact Hst].
Qed.

Lemma append_nonempty_l (s t : string) : s <> "" -> s +:+ t <> "".
Proof. destruct s; [congruence |]. rewrite append_cons. discriminate. Qed.

Lemma joinSlash_nonempty (l : list string) :
  l <> [] -> Forall (fun c => c <> "") l -> filepath.joinSlash l <> "".
Proof.
  destruct l as [|x l]; [congruence |]. intros _ Hall.
  inversion Hall as [|? ? Hx _]; subst.
  destruct l; [exact Hx |]. rewrite joinSlash_cons by discriminate.
  now apply append_nonempty_l.
Qed.

(** A cleaned path is never empty. *)
Lemma Clean_nonempty (p : string) : filepath.Clean p <> "".
Proof.
  unfold filepath.Clean.
  set (kept := rev (fold_left (filepath.cleanStep (filepath.IsAbs p))
                              (filepath.splitSlash "" p) [])).
  assert (Hk : Forall (fun c => c <> "") kept).
  { unfold kept. apply Forall_rev, cleanStep_nonempty. constructor. }
  destruct (filepath.IsAbs p).
  - rewrite append_cons. discriminate.
  - destruct kept as [|x l] eqn:E; [discriminate |].
    apply joinSlash_nonempty; [discriminate | exact Hk].
Qed.

(** *** MkdirAll in memory *)

Lemma mkdirEach_spec (mode : Z) (ps : list string) :
  forall (fs fs1 : gmap string MemFS.Node) (e : error),
    MemFS.mkdirEach fs mode ps = (fs1, e) ->
    (forall q n, fs !! q = Some n -> fs1 !! q = Some n) /\
    (forall q n, fs1 !! q = Some n ->
                 fs !! q = Some n \/ n = MemFS.Directory mode) /\
    (e = None -> forall q, In q ps -> exists m, fs1 !! q = Some (MemFS.Directory m)).
Proof.
  induction ps as [|p ps IH]; intros fs fs1 e Hrun; cbn [MemFS.mkdirEach] in Hrun.
  - injection Hrun as <- <-. split; [auto |]. split; [auto |].
    intros _ q [].
  - destruct (fs !! p) as [[c m | m]|] eqn:Hp.
    + injection Hrun as <- <-. split; [auto |]. split; [auto |]. discriminate.
    + destruct (IH _ _ _ Hrun) as (Hpres & Honly & Hdirs).
      split; [exact Hpres |]. split; [exact Honly |].
      intros He q [<- | Hq]; [| now apply Hdirs].
      exists m. now apply Hpres.
    + destruct (IH _ _ _ Hrun) as (Hpres & Honly & Hdirs).
      split; [| split].
      * intros q n Hq. apply Hpres.
        rewrite lookup_insert_ne; [exact Hq |]. intros ->. congruence.
      * intros q n Hq. destruct (Honly q n Hq) as [H | H]; [| now right].
        destruct (decide (p = q)) as [-> | Hne].
        -- rewrite lookup_insert_eq in H. right. congruence.
        -- rewrite lookup_insert_ne in H by exact Hne. now left.
      * intros He q [<- | Hq]; [| now apply Hdirs].
        exists mode. apply Hpres. apply lookup_insert_eq.
Qed.

Lemma Stat_lookup (fs : gmap string MemFS.Node) (p : string) :
  (fs !! p = None <-> forall fi, MemFS.Stat fs p <> StatOk fi) /\
  (forall n, fs !! p = Some n -> exists fi, MemFS.Stat fs p = StatOk fi /\
             fiIsDir fi = match n with MemFS.Directory _ => true | _ => false end /\
             fiSize fi = match n with
                         | MemFS.File c _ => Z.of_nat (length c)
                         | MemFS.Directory _ => 0
                         end).
Proof.
  unfold MemFS.Stat. destruct (fs !! p) as [[c m | m]|].
  - split; [split; [discriminate | intros H; now destruct (H _ eq_refl)] |].
    intros n [= <-]. eexists. repeat split; reflexivity.
  - split; [split; [discriminate | intros H; now destruct (H _ eq_refl)] |].
    intros n [= <-]. eexists. repeat split; reflexivity.
  - split; [split; [intros _ fi; discriminate | reflexivity] |]. discriminate.
Qed.

Section MutatorFacts.

Variable homeDir : string.

(** A touch that succeeds: the path did not exist, the directories above
    it are made, and the empty file is put in. *)
Lemma RemoteFileTouchCommand_run (path : string)
      (fs fs' : gmap string MemFS.Node) :
  RemoteFileTouchCommand homeDir MemFS.os MemFSFiles.WriteFile path fs = (fs', None) ->
  let p := filepath.Clean (ExpandHomeDirSafe homeDir path) in
  fs !! p = None /\
  exists fs1,
    MemFS.MkdirAll fs (filepath.Dir p) 493 = (fs1, None) /\
    fs1 !! p = None /\
    fs' = <[p := MemFS.File [] 420]> fs1 /\
    (forall q n, fs !! q = Some n -> fs1 !! q = Some n).
Proof.
  intros Hrun p. unfold RemoteFileTouchCommand in Hrun. fold p in Hrun.
  cbn [sys_Stat sys_MkdirAll MemFS.os] in Hrun.
  assert (Hp : fs !! p = None).
  { destruct (fs !! p) as [n|] eqn:E; [| reflexivity].
    destruct (proj2 (Stat_lookup fs p) n E) as (fi & Hst & _).
    rewrite Hst in Hrun. discriminate. }
  assert (Hgo : (let '(fs1, e) := MemFS.MkdirAll fs (filepath.Dir p) 493 in
                 match e with
                 | Some msg =>
                     (fs1, Some ("cannot create directory "
                                   +:+ quoted (filepath.Dir p) +:+ ": " +:+ msg))
                 | None =>
                     let '(fs2, e0) := MemFSFiles.WriteFile fs1 p [] 420 in
                     match e0 with
                     | Some msg =>
                         (fs2, Some ("cannot create file " +:+ quoted p
                                       +:+ ": " +:+ msg))
                     | None => (fs2, None)
                     end
                 end) = (fs', None)).
  { destruct (MemFS.Stat fs p) as [fi | |] eqn:Hst; [| exact Hrun | exact Hrun].
    destruct (proj1 (proj1 (Stat_lookup fs p)) Hp fi Hst). }
  clear Hrun. split; [exact Hp |].
  destruct (MemFS.MkdirAll fs (filepath.Dir p) 493) as [fs1 [msg|]] eqn:Hmk;
    [discriminate |].
  exists fs1. split; [reflexivity |].
  unfold MemFS.MkdirAll in Hmk.
  destruct (mkdirEach_spec _ _ _ _ _ Hmk) as (Hpres & Honly & _).
  unfold MemFSFiles.WriteFile in Hgo.
  destruct (fs1 !! p) as [[c m | m]|] eqn:Hp1.
  - destruct (Honly _ _ Hp1) as [H | H]; congruence.
  - discriminate.
  - destruct (MemFS.parentIsDir fs1 p); [| discriminate].
    injection Hgo as <-. split; [reflexivity |]. split; [reflexivity | exact Hpres].
Qed.

(** X23.  Touching a path, on the file system in memory.  When
    [RemoteFileTouchCommand] succeeds, the path did not exist before, it is
    afterwards a regular file that is empty and has the mode 0644, and every
    file and directory that existed is unchanged; and touching the same path
    again fails with "already exists" and changes nothing: the command
    creates, it does not update, and never truncates a file. *)
Theorem RemoteFileTouchCommand_creates (path : string)
        (fs fs' : gmap string MemFS.Node) :
  RemoteFileTouchCommand homeDir MemFS.os MemFSFiles.WriteFile path fs = (fs', None) ->
  let p := filepath.Clean (ExpandHomeDirSafe homeDir path) in
  fs !! p = None /\
  fs' !! p = Some (MemFS.File [] 420) /\
  (forall q n, fs !! q = Some n -> fs' !! q = Some n) /\
  RemoteFileTouchCommand homeDir MemFS.os MemFSFiles.WriteFile path fs'
  = (fs', Some ("file " +:+ quoted path +:+ " already exists")).
Proof.
  intros Hrun p.
  destruct (RemoteFileTouchCommand_run path fs fs' Hrun)
    as (Hp & fs1 & _ & Hp1 & -> & Hpres).
  fold p in Hp, Hp1 |- *.
  split; [exact Hp |]. split; [apply lookup_insert_eq |]. split.
  - intros q n Hq. rewrite lookup_insert_ne; [now apply Hpres |].
    intros ->. congruence.
  - unfold RemoteFileTouchCommand. fold p. cbn [sys_Stat MemFS.os].
    unfold MemFS.Stat. rewrite lookup_insert_eq. reflexivity.
Qed.

(** X24.  Making a directory, on the file system in memory.  When
    [RemoteMkdirCommand] succeeds, the path did not exist before, it is
    afterwards a directory of mode 0755, every file and directory that
    existed is unchanged, and whatever else is new is a directory of mode
    0755 (the missing directories above the path); and making the same
    directory again fails with "already exists" and changes nothing. *)
Theorem RemoteMkdirCommand_creates (path : string)
        (fs fs' : gmap string MemFS.Node) :
  RemoteMkdirCommand homeDir MemFS.os path fs = (fs', None) ->
  let p := filepath.Clean (ExpandHomeDirSafe homeDir path) in
  fs !! p = None /\
  fs' !! p = Some (MemFS.Directory 493) /\
  (forall q n, fs !! q = Some n -> fs' !! q = Some n) /\
  (forall q n, fs' !! q = Some n -> fs !! q = Some n \/ n = MemFS.Directory 493) /\
  RemoteMkdirCommand homeDir MemFS.os path fs'
  = (fs', Some ("directory " +:+ quoted path +:+ " already exists")).
Proof.
  intros Hrun p. unfold RemoteMkdirCommand in Hrun. fold p in Hrun.
  cbn [sys_Stat sys_MkdirAll MemFS.os] in Hrun.
  assert (Hp : fs !! p = None).
  { destruct (fs !! p) as [n|] eqn:E; [| reflexivity].
    destruct (proj2 (Stat_lookup fs p) n E) as (fi & Hst & _).
    rewrite Hst in Hrun. destruct (fiIsDir fi); discriminate. }
  assert (Hgo : (let '(fs1, e) := MemFS.MkdirAll fs p 493 in
                 match e with
                 | Some msg =>
                     (fs1, Some ("cannot create directory " +:+ quoted p
                                   +:+ ": " +:+ msg))
                 | None => (fs1, None)
                 end) = (fs', None)).
  { destruct (MemFS.Stat fs p) as [fi | |] eqn:Hst; [| exact Hrun | exact Hrun].
    destruct (proj1 (proj1 (Stat_lookup fs p)) Hp fi Hst). }
  clear Hrun. unfold MemFS.MkdirAll in Hgo.
  destruct (MemFS.mkdirEach fs 493 (MemFS.prefixesOf p))
    as [fs1 [msg|]] eqn:Hmk; [discriminate |].
  injection Hgo as <-.
  destruct (mkdirEach_spec _ _ _ _ _ Hmk) as (Hpres & Honly & Hdirs).
  destruct (Hdirs eq_refl p (prefixesOf_self p (Clean_nonempty _))) as (m & Hm).
  assert (Hm' : fs1 !! p = Some (MemFS.Directory 493)).
  { destruct (Honly _ _ Hm) as [H | H]; [congruence | now rewrite Hm, H]. }
  split; [exact Hp |]. split; [exact Hm' |]. split; [exact Hpres |].
  split; [exact Honly |].
  unfold RemoteMkdirCommand. fold p. cbn [sys_Stat MemFS.os].
  unfold MemFS.Stat. rewrite Hm'. reflexivity.
Qed.

Variable expandHomeDir : string -> string + string.

(** X26.  Touch, then delete.  When the directories above a path exist
    and the path is touched with success, deleting the path succeeds and
    gives back the file system as it was before the touch. *)
Theorem RemoteFileTouchCommand_then_delete (path : string) (fs fs' : gmap string MemFS.Node) :
  expandHomeDir path = inl (ExpandHomeDirSafe homeDir path) ->
  MemFS.MkdirAll fs (filepath.Dir (filepath.Clean (ExpandHomeDirSafe homeDir path)))
                 493
  = (fs, None) ->
  RemoteFileTouchCommand homeDir MemFS.os MemFSFiles.WriteFile path fs = (fs', None) ->
  RemoteFileDeleteCommand expandHomeDir MemFS.os path fs' = (fs, None).
Proof.
  intros Hexp Hmk Hrun.
  destruct (RemoteFileTouchCommand_run path fs fs' Hrun)
    as (Hp & fs1 & Hmk1 & _ & -> & _).
  rewrite Hmk in Hmk1. injection Hmk1 as <-.
  unfold RemoteFileDeleteCommand. rewrite Hexp. cbn [sys_Remove MemFS.os].
  unfold MemFS.Remove. rewrite lookup_insert_eq.
  rewrite delete_insert_eq, delete_id by exact Hp. reflexivity.
Qed.

End MutatorFacts.

(** The file [/srv/g] touched in the sample file system. *)
Lemma RemoteFileTouchCommand_creates_witness :
  fsSrv !! "/srv/g" = None /\
  (<["/srv/g" := MemFS.File [] 420]> fsSrv) !! "/srv/g" = Some (MemFS.File [] 420) /\
  (forall q n, fsSrv !! q = Some n ->
               (<["/srv/g" := MemFS.File [] 420]> fsSrv) !! q = Some n) /\
  RemoteFileTouchCommand "/home/u" MemFS.os MemFSFiles.WriteFile "/srv/g"
                         (<["/srv/g" := MemFS.File [] 420]> fsSrv)
  = (<["/srv/g" := MemFS.File [] 420]> fsSrv,
     Some ("file " +:+ quoted "/srv/g" +:+ " already exists")).
Proof.
  apply (RemoteFileTouchCommand_creates "/home/u" "/srv/g" fsSrv
           (<["/srv/g" := MemFS.File [] 420]> fsSrv)).
  vm_compute. reflexivity.
Defined.

(** The directory [/srv/d/e] made in the sample file system: [/srv/d] is
    made on the way. *)
Lemma RemoteMkdirCommand_creates_witness :
  exists fs',
    RemoteMkdirCommand "/home/u" MemFS.os "/srv/d/e" fsSrv = (fs', None) /\
    fs' !! "/srv/d/e" = Some (MemFS.Directory 493) /\
    RemoteMkdirCommand "/home/u" MemFS.os "/srv/d/e" fs'
    = (fs', Some ("directory " +:+ quoted "/srv/d/e" +:+ " already exists")).
Proof.
  destruct (RemoteMkdirCommand "/home/u" MemFS.os "/srv/d/e" fsSrv) as [fs' e] eqn:Hrun.
  assert (He : e = None).
  { apply (f_equal snd) in Hrun. cbn [snd] in Hrun. rewrite <- Hrun.
    vm_compute. reflexivity. }
  subst e. exists fs'. split; [reflexivity |].
  destruct (RemoteMkdirCommand_creates "/home/u" "/srv/d/e" fsSrv fs' Hrun)
    as (_ & Hdir & _ & _ & Hagain).
  split; [exact Hdir | exact Hagain].
Defined.

(** The file [/srv/g] touched and deleted again. *)
Lemma RemoteFileTouchCommand_then_delete_witness :
  RemoteFileDeleteCommand (fun p => inl p) MemFS.os "/srv/g"
                          (<["/srv/g" := MemFS.File [] 420]> fsSrv)
  = (fsSrv, None).
Proof.
  apply (RemoteFileTouchCommand_then_delete "/home/u" (fun p => inl p) "/srv/g" fsSrv
           (<["/srv/g" := MemFS.File [] 420]> fsSrv)).
  - reflexivity.
  - vm_compute. reflexivity.
  - vm_compute. reflexivity.
Defined.

(** ** Writing a file and streaming it back *)

Section WriteThenStream.

Variable MaxFileSize : Z.
Variable FileChunkSize : nat.
Variable readSize : nat.
Hypothesis chunk_pos : (0 < FileChunkSize)%nat.

(** What [RemoteWriteFileCommand] leaves in the file system in memory
    when it is given the encoding of [data]. *)
Lemma RemoteWriteFileCommand_encoded (fs fs' : gmap string MemFS.Node)
      (dataPath : string) (data : list Byte.byte) (createMode : Z) :
  RemoteWriteFileCommand (fun p => inl p) MemFS.os MemFSFiles.WriteFile dataPath
                         (base64.EncodeToString data) createMode fs
  = (fs', None) ->
  exists m,
    fs' = <[dataPath := MemFS.File data m]> fs /\
    match fs !! dataPath with
    | Some (MemFS.File _ m0) => m = m0
    | Some (MemFS.Directory _) => False
    | None => m = if createMode =? 0 then 420 else createMode
    end.
Proof.
  unfold RemoteWriteFileCommand. rewrite Decode_EncodeToString.
  unfold MemFSFiles.WriteFile.
  destruct (fs !! dataPath) as [[c m0 | m0]|].
  - intros [= <-]. exists m0. split; reflexivity.
  - discriminate.
  - destruct (MemFS.parentIsDir fs dataPath); [| discriminate].
    intros [= <-]. eexists. split; reflexivity.
Qed.

(** X22.  Write, then stream.  On the file system in memory, for an
    absolute cleaned path: when [RemoteWriteFileCommand] is given the
    standard base64 encoding of some bytes and succeeds, the file holds
    exactly these bytes (a new file has the mode of the request, 0644 when
    the request gives 0); and a stream request for the path without a byte
    range then sends responses whose [Data64] fields, decoded and put
    together in order, are these bytes. *)
Theorem RemoteWriteFileCommand_then_stream (fs fs' : gmap string MemFS.Node)
        (dataPath : string) (data : list Byte.byte) (createMode : Z) (fuel : nat) :
  filepath.IsAbs dataPath = true ->
  filepath.Clean dataPath = dataPath ->
  RemoteWriteFileCommand (fun p => inl p) MemFS.os MemFSFiles.WriteFile dataPath
                         (base64.EncodeToString data) createMode fs
  = (fs', None) ->
  Z.of_nat (length data) <= MaxFileSize ->
  (length data < fuel)%nat ->
  (exists m,
      fs' !! dataPath = Some (MemFS.File data m) /\
      (fs !! dataPath = None -> m = if createMode =? 0 then 420 else createMode)) /\
  exists resps,
    RemoteStreamFileCommand (memEnv fs') MaxFileSize FileChunkSize
                            (MemFSFiles.Open readSize fs') fuel None dataPath ""
    = Some (map inl resps) /\
    decodedData resps = Some data.
Proof.
  intros Habs Hclean Hwrite Hsize Hfuel.
  destruct (RemoteWriteFileCommand_encoded fs fs' dataPath data createMode Hwrite)
    as (m & -> & Hm).
  set (fs' := <[dataPath := MemFS.File data m]> fs).
  assert (Hlook : fs' !! dataPath = Some (MemFS.File data m))
    by apply lookup_insert_eq.
  split.
  { exists m. split; [exact Hlook |]. intros Hnone. now rewrite Hnone in Hm. }
  set (f := mkOpenedFile data (fun _ => readSize) (fun _ => false) false).
  assert (Hopen : MemFSFiles.Open readSize fs' dataPath = inl f).
  { unfold MemFSFiles.Open. now rewrite Hlook. }
  assert (Hrun : exists chunks,
             remoteStreamFileRegular FileChunkSize (MemFSFiles.Open readSize fs') fuel
                                     None dataPath (mkByteRange true 0 0)
             = Some (chunks, None,
                     [HOpen (HFile dataPath); HClose (HFile dataPath)]) /\
             concat chunks = data).
  { unfold remoteStreamFileRegular. rewrite Hopen. cbn [All negb andb].
    destruct (streamRegularLoop_all FileChunkSize chunk_pos f 0 0
                                    (fun _ => eq_refl) fuel 0%nat 0%nat 0 [])
      as (new & Hloop & Hcat & _); [subst f; cbn [fileBytes]; lia |].
    rewrite Hloop. exists new. split; [reflexivity | exact Hcat]. }
  destruct Hrun as (chunks & Hrun & Hcat).
  set (finfo := setReadOnly
                  (statToFileInfo (memEnv fs') dataPath
                     (mkFsFileInfo (MemFS.baseName dataPath)
                                   (Z.of_nat (length data)) m 0 false) true)
                  (checkIsReadOnly (memEnv fs') dataPath
                     (Some (mkFsFileInfo (MemFS.baseName dataPath)
                                         (Z.of_nat (length data)) m 0 false)) true)).
  assert (Hinfo : fileInfoInternal (memEnv fs') dataPath true = inl finfo).
  { unfold fileInfoInternal. cbn [HomeDir memEnv os_Stat].
    rewrite (ExpandHomeDirSafe_absolute "/home/u" dataPath Habs), Hclean.
    unfold MemFS.Stat. rewrite Hlook. reflexivity. }
  destruct (RemoteStreamFileCommand_regular (memEnv fs') MaxFileSize FileChunkSize
              (MemFSFiles.Open readSize fs') fuel dataPath "" dataPath
              (mkByteRange true 0 0) finfo chunks _
              eq_refl eq_refl Hinfo eq_refl eq_refl Hsize Hrun)
    as (resps & Hcmd & _ & Hdec).
  exists resps. rewrite Hdec, Hcat. split; [exact Hcmd | reflexivity].
Qed.

End WriteThenStream.

(** Three bytes written to the new file [/srv/g] and streamed back in
    chunks of two bytes. *)
Lemma RemoteWriteFileCommand_then_stream_witness :
  exists resps,
    RemoteStreamFileCommand
      (memEnv (<["/srv/g" := MemFS.File [Byte.x78; Byte.x79; Byte.x7a] 420]> fsSrv))
      1024 2
      (MemFSFiles.Open 2
         (<["/srv/g" := MemFS.File [Byte.x78; Byte.x79; Byte.x7a] 420]> fsSrv))
      8 None "/srv/g" ""
    = Some (map inl resps) /\
    decodedData resps = Some [Byte.x78; Byte.x79; Byte.x7a].
Proof.
  assert (Hwrite :
            RemoteWriteFileCommand (fun p => inl p) MemFS.os MemFSFiles.WriteFile
                                   "/srv/g"
                                   (base64.EncodeToString [Byte.x78; Byte.x79; Byte.x7a])
                                   0 fsSrv
            = (<["/srv/g" := MemFS.File [Byte.x78; Byte.x79; Byte.x7a] 420]> fsSrv, None))
    by (vm_compute; reflexivity).
  refine (proj2 (RemoteWriteFileCommand_then_stream 1024 2 2 _ fsSrv _
                   "/srv/g" [Byte.x78; Byte.x79; Byte.x7a] 0 8
                   eq_refl eq_refl Hwrite _ _)); simpl; lia.
Defined.

Example RemoteWriteFileCommand_corrupt :
  RemoteWriteFileCommand (fun p => inl p) MemFS.os MemFSFiles.WriteFile
                         "/srv/g" "eHl6=" 0 fsSrv
  = (fsSrv, Some "cannot decode base64 data: illegal base64 data").
Proof. vm_compute. reflexivity. Qed.
